(** * nsq-events: the go-nsq connection engine and publisher

    A shallow embedding of the vendored go-nsq client used by
    nsq_event_router: the Message envelope codec (message.go), the
    per-connection protocol engine (conn.go: identify, the transport
    upgrades, readLoop, writeLoop and the closing sequence with cleanup
    and waitForCleanup) and the publisher with its transaction tracker
    (the Writer: connect, close, Stop, sendCommandAsync, router,
    popTransaction and transactionCleanup); then of the string sets of
    util and the topic query of lookupd, and of the two programs of the
    repository, the handler of nsq_event_router and nsq_trigger.

    Goroutines are embedded as reactive machines: each loop is a function
    that folds one goroutine's body over the list of events its blocking
    operations (channel receives, socket reads) deliver, in the order the
    goroutine observes them.  Atomics are plain fields; where a loop
    reads a counter that other goroutines write, their writes are among
    the events of the loop. *)

From Stdlib Require Import ZArith Lia.
From Stdlib.Strings Require Import Byte Ascii.
From stdpp Require Import base numbers list option functions relations strings
  sorting.

Local Open Scope Z_scope.

(** ** Go values shared by the three files *)

Definition bytes : Type := list byte.

Global Instance byte_eq_decision : EqDecision byte := Byte.byte_eq_dec.

(** Go's [error] values that occur in the embedded code. *)
Inductive error : Type :=
| EOF                                 (* io.EOF *)
| ErrUnexpectedEOF                    (* io.ErrUnexpectedEOF *)
| ErrNotConnected                     (* errors.New("not connected") *)
| ErrStopped                          (* errors.New("stopped") *)
| ErrIdentify (cause : error)         (* ErrIdentify{Reason: cause.Error()} *)
| ErrIdentifyData (data : bytes)      (* ErrIdentify{string(data)} *)
| ErrUnknownFrameType (frameType : Z) (* "unknown frame type %d" *)
| ErrMagic (cause : error)            (* "[%s] failed to write magic - %s" *)
| ErrNew (text : string)              (* errors.New(text) *)
| ErrNet (text : string).             (* of the net, tls, flate, json package *)

Global Instance error_eq_dec : EqDecision error.
Proof. solve_decision. Defined.

(** The error of a network read whose deadline has passed. *)
Definition ErrTimeout : error := ErrNet "i/o timeout".

(** What a Go call produces: its results, a returned error, or a runtime
    panic. *)
Inductive outcome (A : Type) : Type :=
| Ok (a : A)
| Err (e : error)
| Panic (reason : string).
Arguments Ok {A} a.
Arguments Err {A} e.
Arguments Panic {A} reason.

(** [[]byte("...")] *)
Definition bytes_of_string (s : string) : bytes := String.list_byte_of_string s.

Definition Z_of_byte (b : byte) : Z := Z.of_N (Byte.to_N b).

(** The conversion [byte(z)]: the low eight bits. *)
Definition byte_of_Z (z : Z) : byte :=
  default x00 (Byte.of_N (Z.to_N (z mod 256))).

(** [intN(u)] for an unsigned [u] of [w] bits: two's complement. *)
Definition to_signed (w : Z) (u : Z) : Z :=
  if u <? 2 ^ (w - 1) then u else u - 2 ^ w.

(** encoding/binary's [BigEndian.PutUintN] on the low [8 * n] bits of [v]
    (the conversion [uintN(v)] of a signed [v] is [v mod 2 ^ (8 * n)]). *)
Fixpoint BigEndian_put (n : nat) (v : Z) : bytes :=
  match n with
  | O => []
  | S k => byte_of_Z (Z.shiftr v (8 * Z.of_nat k)) :: BigEndian_put k v
  end.

(** encoding/binary's [BigEndian.UintN]: [b[0]<<(8(n-1)) | ... | b[n-1]]. *)
Definition BigEndian_uint (bs : bytes) : Z :=
  fold_left (fun acc b => Z.lor (Z.shiftl acc 8) (Z_of_byte b)) bs 0.

(** The interface [io.Writer]. *)
Class IoWriter (W : Type) := io_Write : W -> bytes -> W * option error.

(** [bytes.Buffer] as a writer: appends, never fails. *)
Definition Buffer : Type := bytes.
Global Instance Buffer_IoWriter : IoWriter Buffer :=
  fun buf p => (buf ++ p, None).

(** [binary.Write(w, binary.BigEndian, &v)] for an integer of [n] bytes:
    one call of [w.Write] with the encoded bytes. *)
Definition binary_Write {W} `{IoWriter W} (w : W) (n : nat) (v : Z)
  : W * option error :=
  io_Write w (BigEndian_put n v).

(** [io.ReadFull(buf, p)] with [len(p) = n] on a [bytes.Buffer] holding
    [buf]: the bytes read (or the error) and what is left unread. *)
Definition io_ReadFull (buf : bytes) (n : nat) : outcome bytes * bytes :=
  if decide (n = 0%nat) then (Ok [], buf)
  else if decide (length buf = 0%nat) then (Err EOF, buf)
  else if decide (length buf < n)%nat then (Err ErrUnexpectedEOF, [])
  else (Ok (take n buf), drop n buf).

(** [binary.Read(buf, binary.BigEndian, &v)] for an unsigned integer of
    [n] bytes. *)
Definition binary_Read (buf : bytes) (n : nat) : outcome Z * bytes :=
  match io_ReadFull buf n with
  | (Ok bs, rest) => (Ok (BigEndian_uint bs), rest)
  | (Err e, rest) => (Err e, rest)
  | (Panic r, rest) => (Panic r, rest)
  end.

(** Channels are named by numbers; [None] is the nil channel. *)
Definition chan : Type := nat.

(** ** message.go *)

Module Message.

(** The number of bytes for a Message.Id *)
Definition MsgIdLength : nat := 16.

(** [type MessageID [MsgIdLength]byte]: the length is part of the Go type,
    here it is the well-formedness condition [wf]. *)
Definition MessageID : Type := bytes.

Record Message : Type := mkMessage {
  Id : MessageID;
  Body : bytes;
  Timestamp : Z;       (* int64 *)
  Attempts : Z;        (* uint16 *)
  exitChan : option chan;
  cmdChan : option chan;
  responseChan : option chan
}.

(** The values the Go type [Message] admits. *)
Definition wf (m : Message) : Prop :=
  length (Id m) = MsgIdLength
  /\ - 2 ^ 63 <= Timestamp m < 2 ^ 63
  /\ 0 <= Attempts m < 2 ^ 16.

(** [func (m *Message) Write(w io.Writer) error] *)
Definition Write {W} `{IoWriter W} (m : Message) (w : W) : W * option error :=
  match binary_Write w 8 (Timestamp m) with
  | (w, Some err) => (w, Some err)
  | (w, None) =>
    match binary_Write w 2 (Attempts m) with
    | (w, Some err) => (w, Some err)
    | (w, None) =>
      match io_Write w (Id m) with
      | (w, Some err) => (w, Some err)
      | (w, None) =>
        match io_Write w (Body m) with
        | (w, Some err) => (w, Some err)
        | (w, None) => (w, None)
        end
      end
    end
  end.

(** [func (m *Message) EncodeBytes()]: the bytes or an error *)
Definition EncodeBytes (m : Message) : outcome bytes :=
  let buf : Buffer := [] in
  match Write m buf with
  | (_, Some err) => Err err
  | (buf, None) => Ok buf
  end.

(** [func DecodeMessage(byteBuf []byte)]: the message or an error *)
Definition DecodeMessage (byteBuf : bytes) : outcome Message :=
  let buf := byteBuf in
  match binary_Read buf 8 with
  | (Err err, _) => Err err
  | (Panic r, _) => Panic r
  | (Ok u64, buf) =>
    let timestamp := to_signed 64 u64 in
    match binary_Read buf 2 with
    | (Err err, _) => Err err
    | (Panic r, _) => Panic r
    | (Ok attempts, buf) =>
      match io_ReadFull buf MsgIdLength with
      | (Err err, _) => Err err
      | (Panic r, _) => Panic r
      | (Ok id, buf) =>
        (* ioutil.ReadAll(buf): everything that is left *)
        let body := buf in
        Ok {| Id := id; Body := body; Timestamp := timestamp;
              Attempts := attempts;
              exitChan := None; cmdChan := None; responseChan := None |}
      end
    end
  end.

End Message.

(** ** The wire protocol

    protocol.go, command.go and states.go of go-nsq are not among the
    sources; what the embedded code uses of them is modelled here. *)

(** Modelled from the spec: the frame types of protocol.go, "Frame types:
    response (0), error (1), message (2)". *)
Definition FrameTypeResponse : Z := 0.
Definition FrameTypeError : Z := 1.
Definition FrameTypeMessage : Z := 2.

(** Modelled from the spec: the Command type of command.go, "identify
    (handshake), publish (single body), multi-publish (batch of bodies),
    finish/requeue/touch (consumer acks) and no-op (heartbeat reply)".
    The constructors are what the functions Identify, Publish,
    MultiPublish, Finish, Requeue, Touch and Nop of command.go return;
    Identify and MultiPublish can instead return an error. *)
Inductive Command : Type :=
| IDENTIFY
| PUB (topic : string) (body : bytes)
| MPUB (topic : string) (bodies : list bytes)
| FIN (id : bytes)
| REQ (id : bytes) (delayMs : Z)
| TOUCH (id : bytes)
| NOP.

(** Modelled from the spec: the connection states of states.go, "one of
    {Init, Connected, Disconnected}". *)
Inductive ConnState : Type := StateInit | StateDisconnected | StateConnected.

Global Instance ConnState_eq_dec : EqDecision ConnState.
Proof. solve_decision. Defined.

(** Go's fixed-width integers: the value of [x] after conversion to
    [int64] and to [int32]. *)
Definition int64 (x : Z) : Z := to_signed 64 (x mod 2 ^ 64).
Definition int32 (x : Z) : Z := to_signed 32 (x mod 2 ^ 32).

(** [atomic.AddInt64(&v, delta)] and [atomic.AddInt32(&v, delta)]: the new
    value. *)
Definition AddInt64 (v delta : Z) : Z := int64 (v + delta).
Definition AddInt32 (v delta : Z) : Z := int32 (v + delta).

(** ** message.go, the methods that talk to the connection *)

(** [type FinishedMessage struct]: what a handler hands back for a
    message.  The declaration is outside these files; the fields are
    those that Requeue assigns and writeLoop reads. *)
Record FinishedMessage : Type := mkFinishedMessage {
  Id : bytes;             (* MessageID *)
  RequeueDelayMs : Z;     (* int *)
  Success : bool
}.

(** [func (m *Message) Touch()]: the channel and the command of the send
    that its select offers (the other case returns once m.exitChan is
    closed). *)
Definition Message_Touch (m : Message.Message) : option chan * Command :=
  (Message.cmdChan m, TOUCH (Message.Id m)).

(** [func (m *Message) Requeue(timeoutMs int)]: the channel and the value
    of its send. *)
Definition Message_Requeue (m : Message.Message) (timeoutMs : Z)
  : option chan * FinishedMessage :=
  let finishedMessage :=
    {| Id := Message.Id m; RequeueDelayMs := timeoutMs; Success := false |} in
  (Message.responseChan m, finishedMessage).

(** ** conn.go *)

Module Conn.

(** What [c.r] and [c.w] can point to: the TCP connection and the layers
    wrapped around it. *)
Inductive Stream : Type :=
| NetConn
| TLSClient (under : Stream)
| FlateReader (under : Stream)
| FlateWriter (under : Stream) (level : Z)
| SnappyReader (under : Stream)
| SnappyWriter (under : Stream)
| BufioReader (under : Stream).

Record IdentifyResponse : Type := mkIdentifyResponse {
  MaxRdyCount : Z;
  TLSv1 : bool;
  Deflate : bool;
  Snappy : bool
}.

(** The fields of [Conn] that Connect, identify, the upgrades, readLoop
    and close read or write. *)
Record Conn : Type := mkConn {
  messagesInFlight : Z;   (* int64 *)
  maxRdyCount : Z;        (* int64 *)
  rdyCount : Z;           (* int64 *)
  lastRdyCount : Z;       (* int64 *)
  lastMsgTimestamp : Z;   (* int64 *)
  netConn : bool;         (* the embedded net.Conn is not nil *)
  tlsConn : option Stream;
  r : Stream;
  w : Stream;
  flateWriter : option Stream;
  backoffCounter : Z;     (* int32 *)
  finishedMessages : chan;
  cmdChan : chan;
  exitChan : chan;
  exitChan_closed : bool;
  DeflateLevel : Z;
  stopFlag : Z;           (* int32 *)
  stopper : bool;         (* the sync.Once has fired *)
  wg : Z;                 (* the counter of the sync.WaitGroup *)
  readLoopRunning : Z     (* int32 *)
}.

Definition set_maxRdyCount (v : Z) (c : Conn) : Conn :=
  {| messagesInFlight := messagesInFlight c; maxRdyCount := v;
     rdyCount := rdyCount c; lastRdyCount := lastRdyCount c;
     lastMsgTimestamp := lastMsgTimestamp c; netConn := netConn c;
     tlsConn := tlsConn c; r := r c; w := w c;
     flateWriter := flateWriter c; backoffCounter := backoffCounter c;
     finishedMessages := finishedMessages c; cmdChan := cmdChan c;
     exitChan := exitChan c; exitChan_closed := exitChan_closed c;
     DeflateLevel := DeflateLevel c; stopFlag := stopFlag c;
     stopper := stopper c; wg := wg c;
     readLoopRunning := readLoopRunning c |}.

Definition set_rdyCount (v : Z) (c : Conn) : Conn :=
  {| messagesInFlight := messagesInFlight c; maxRdyCount := maxRdyCount c;
     rdyCount := v; lastRdyCount := lastRdyCount c;
     lastMsgTimestamp := lastMsgTimestamp c; netConn := netConn c;
     tlsConn := tlsConn c; r := r c; w := w c;
     flateWriter := flateWriter c; backoffCounter := backoffCounter c;
     finishedMessages := finishedMessages c; cmdChan := cmdChan c;
     exitChan := exitChan c; exitChan_closed := exitChan_closed c;
     DeflateLevel := DeflateLevel c; stopFlag := stopFlag c;
     stopper := stopper c; wg := wg c;
     readLoopRunning := readLoopRunning c |}.

Definition set_messagesInFlight (v : Z) (c : Conn) : Conn :=
  {| messagesInFlight := v; maxRdyCount := maxRdyCount c;
     rdyCount := rdyCount c; lastRdyCount := lastRdyCount c;
     lastMsgTimestamp := lastMsgTimestamp c; netConn := netConn c;
     tlsConn := tlsConn c; r := r c; w := w c;
     flateWriter := flateWriter c; backoffCounter := backoffCounter c;
     finishedMessages := finishedMessages c; cmdChan := cmdChan c;
     exitChan := exitChan c; exitChan_closed := exitChan_closed c;
     DeflateLevel := DeflateLevel c; stopFlag := stopFlag c;
     stopper := stopper c; wg := wg c;
     readLoopRunning := readLoopRunning c |}.

Definition set_lastMsgTimestamp (v : Z) (c : Conn) : Conn :=
  {| messagesInFlight := messagesInFlight c; maxRdyCount := maxRdyCount c;
     rdyCount := rdyCount c; lastRdyCount := lastRdyCount c;
     lastMsgTimestamp := v; netConn := netConn c; tlsConn := tlsConn c;
     r := r c; w := w c; flateWriter := flateWriter c;
     backoffCounter := backoffCounter c;
     finishedMessages := finishedMessages c; cmdChan := cmdChan c;
     exitChan := exitChan c; exitChan_closed := exitChan_closed c;
     DeflateLevel := DeflateLevel c; stopFlag := stopFlag c;
     stopper := stopper c; wg := wg c;
     readLoopRunning := readLoopRunning c |}.

Definition set_netConn (v : bool) (c : Conn) : Conn :=
  {| messagesInFlight := messagesInFlight c; maxRdyCount := maxRdyCount c;
     rdyCount := rdyCount c; lastRdyCount := lastRdyCount c;
     lastMsgTimestamp := lastMsgTimestamp c; netConn := v;
     tlsConn := tlsConn c; r := r c; w := w c;
     flateWriter := flateWriter c; backoffCounter := backoffCounter c;
     finishedMessages := finishedMessages c; cmdChan := cmdChan c;
     exitChan := exitChan c; exitChan_closed := exitChan_closed c;
     DeflateLevel := DeflateLevel c; stopFlag := stopFlag c;
     stopper := stopper c; wg := wg c;
     readLoopRunning := readLoopRunning c |}.

Definition set_tlsConn (v : option Stream) (c : Conn) : Conn :=
  {| messagesInFlight := messagesInFlight c; maxRdyCount := maxRdyCount c;
     rdyCount := rdyCount c; lastRdyCount := lastRdyCount c;
     lastMsgTimestamp := lastMsgTimestamp c; netConn := netConn c;
     tlsConn := v; r := r c; w := w c; flateWriter := flateWriter c;
     backoffCounter := backoffCounter c;
     finishedMessages := finishedMessages c; cmdChan := cmdChan c;
     exitChan := exitChan c; exitChan_closed := exitChan_closed c;
     DeflateLevel := DeflateLevel c; stopFlag := stopFlag c;
     stopper := stopper c; wg := wg c;
     readLoopRunning := readLoopRunning c |}.

Definition set_r (v : Stream) (c : Conn) : Conn :=
  {| messagesInFlight := messagesInFlight c; maxRdyCount := maxRdyCount c;
     rdyCount := rdyCount c; lastRdyCount := lastRdyCount c;
     lastMsgTimestamp := lastMsgTimestamp c; netConn := netConn c;
     tlsConn := tlsConn c; r := v; w := w c; flateWriter := flateWriter c;
     backoffCounter := backoffCounter c;
     finishedMessages := finishedMessages c; cmdChan := cmdChan c;
     exitChan := exitChan c; exitChan_closed := exitChan_closed c;
     DeflateLevel := DeflateLevel c; stopFlag := stopFlag c;
     stopper := stopper c; wg := wg c;
     readLoopRunning := readLoopRunning c |}.

Definition set_w (v : Stream) (c : Conn) : Conn :=
  {| messagesInFlight := messagesInFlight c; maxRdyCount := maxRdyCount c;
     rdyCount := rdyCount c; lastRdyCount := lastRdyCount c;
     lastMsgTimestamp := lastMsgTimestamp c; netConn := netConn c;
     tlsConn := tlsConn c; r := r c; w := v; flateWriter := flateWriter c;
     backoffCounter := backoffCounter c;
     finishedMessages := finishedMessages c; cmdChan := cmdChan c;
     exitChan := exitChan c; exitChan_closed := exitChan_closed c;
     DeflateLevel := DeflateLevel c; stopFlag := stopFlag c;
     stopper := stopper c; wg := wg c;
     readLoopRunning := readLoopRunning c |}.

Definition set_flateWriter (v : option Stream) (c : Conn) : Conn :=
  {| messagesInFlight := messagesInFlight c; maxRdyCount := maxRdyCount c;
     rdyCount := rdyCount c; lastRdyCount := lastRdyCount c;
     lastMsgTimestamp := lastMsgTimestamp c; netConn := netConn c;
     tlsConn := tlsConn c; r := r c; w := w c; flateWriter := v;
     backoffCounter := backoffCounter c;
     finishedMessages := finishedMessages c; cmdChan := cmdChan c;
     exitChan := exitChan c; exitChan_closed := exitChan_closed c;
     DeflateLevel := DeflateLevel c; stopFlag := stopFlag c;
     stopper := stopper c; wg := wg c;
     readLoopRunning := readLoopRunning c |}.

Definition set_exitChan_closed (v : bool) (c : Conn) : Conn :=
  {| messagesInFlight := messagesInFlight c; maxRdyCount := maxRdyCount c;
     rdyCount := rdyCount c; lastRdyCount := lastRdyCount c;
     lastMsgTimestamp := lastMsgTimestamp c; netConn := netConn c;
     tlsConn := tlsConn c; r := r c; w := w c;
     flateWriter := flateWriter c; backoffCounter := backoffCounter c;
     finishedMessages := finishedMessages c; cmdChan := cmdChan c;
     exitChan := exitChan c; exitChan_closed := v;
     DeflateLevel := DeflateLevel c; stopFlag := stopFlag c;
     stopper := stopper c; wg := wg c;
     readLoopRunning := readLoopRunning c |}.

Definition set_stopper (v : bool) (c : Conn) : Conn :=
  {| messagesInFlight := messagesInFlight c; maxRdyCount := maxRdyCount c;
     rdyCount := rdyCount c; lastRdyCount := lastRdyCount c;
     lastMsgTimestamp := lastMsgTimestamp c; netConn := netConn c;
     tlsConn := tlsConn c; r := r c; w := w c;
     flateWriter := flateWriter c; backoffCounter := backoffCounter c;
     finishedMessages := finishedMessages c; cmdChan := cmdChan c;
     exitChan := exitChan c; exitChan_closed := exitChan_closed c;
     DeflateLevel := DeflateLevel c; stopFlag := stopFlag c; stopper := v;
     wg := wg c; readLoopRunning := readLoopRunning c |}.

Definition set_wg (v : Z) (c : Conn) : Conn :=
  {| messagesInFlight := messagesInFlight c; maxRdyCount := maxRdyCount c;
     rdyCount := rdyCount c; lastRdyCount := lastRdyCount c;
     lastMsgTimestamp := lastMsgTimestamp c; netConn := netConn c;
     tlsConn := tlsConn c; r := r c; w := w c;
     flateWriter := flateWriter c; backoffCounter := backoffCounter c;
     finishedMessages := finishedMessages c; cmdChan := cmdChan c;
     exitChan := exitChan c; exitChan_closed := exitChan_closed c;
     DeflateLevel := DeflateLevel c; stopFlag := stopFlag c;
     stopper := stopper c; wg := v;
     readLoopRunning := readLoopRunning c |}.

Definition set_readLoopRunning (v : Z) (c : Conn) : Conn :=
  {| messagesInFlight := messagesInFlight c; maxRdyCount := maxRdyCount c;
     rdyCount := rdyCount c; lastRdyCount := lastRdyCount c;
     lastMsgTimestamp := lastMsgTimestamp c; netConn := netConn c;
     tlsConn := tlsConn c; r := r c; w := w c;
     flateWriter := flateWriter c; backoffCounter := backoffCounter c;
     finishedMessages := finishedMessages c; cmdChan := cmdChan c;
     exitChan := exitChan c; exitChan_closed := exitChan_closed c;
     DeflateLevel := DeflateLevel c; stopFlag := stopFlag c;
     stopper := stopper c; wg := wg c; readLoopRunning := v |}.

Definition set_lastRdyCount (v : Z) (c : Conn) : Conn :=
  {| messagesInFlight := messagesInFlight c; maxRdyCount := maxRdyCount c;
     rdyCount := rdyCount c; lastRdyCount := v;
     lastMsgTimestamp := lastMsgTimestamp c; netConn := netConn c;
     tlsConn := tlsConn c; r := r c; w := w c;
     flateWriter := flateWriter c; backoffCounter := backoffCounter c;
     finishedMessages := finishedMessages c; cmdChan := cmdChan c;
     exitChan := exitChan c; exitChan_closed := exitChan_closed c;
     DeflateLevel := DeflateLevel c; stopFlag := stopFlag c;
     stopper := stopper c; wg := wg c;
     readLoopRunning := readLoopRunning c |}.

Definition set_stopFlag (v : Z) (c : Conn) : Conn :=
  {| messagesInFlight := messagesInFlight c; maxRdyCount := maxRdyCount c;
     rdyCount := rdyCount c; lastRdyCount := lastRdyCount c;
     lastMsgTimestamp := lastMsgTimestamp c; netConn := netConn c;
     tlsConn := tlsConn c; r := r c; w := w c;
     flateWriter := flateWriter c; backoffCounter := backoffCounter c;
     finishedMessages := finishedMessages c; cmdChan := cmdChan c;
     exitChan := exitChan c; exitChan_closed := exitChan_closed c;
     DeflateLevel := DeflateLevel c; stopFlag := v;
     stopper := stopper c; wg := wg c;
     readLoopRunning := readLoopRunning c |}.

(** What ReadUnpackedResponse returns: [(frameType, data, nil)] or
    [(-1, nil, err)]. *)
Inductive ReadResult : Type :=
| Frame (frameType : Z) (data : bytes)
| ReadError (err : error).

(** What the connection does to the outside: operations on the socket,
    goroutines started, and calls of the callbacks, each with the [*Conn]
    it is passed as that struct is at the call. *)
Inductive Action : Type :=
| Dial
| WriteMagic
| Sent (via : Stream) (cmd : Command)
| ReadFrom (via : Stream)
| TLSHandshake
| NetClose
| ResponseCB (c : Conn) (data : bytes)
| ErrorCB (c : Conn) (data : bytes)
| MessageCB (c : Conn) (msg : Message.Message)
| IOErrorCB (c : Conn) (err : error)
| HeartbeatCB (c : Conn)
| CloseExitChan
| GoCleanup
| GoWaitForCleanup
| GoReadLoop
| GoWriteLoop.

(** The environment of one connection: what the network and the
    libraries outside the sources answer. *)
Record Env : Type := mkEnv {
  dial_result : option error;          (* net.DialTimeout *)
  magic_result : option error;         (* c.Write(MagicV2) *)
  Identify_result : option error;      (* the error of Identify(ci) *)
  write_result : nat -> option error;  (* the k-th SendCommand *)
  json_Unmarshal : bytes -> IdentifyResponse + error;
  tls_Handshake : option error;        (* c.tlsConn.Handshake() *)
  now : nat -> Z                       (* the k-th time.Now().UnixNano() *)
}.

(** A connection in its environment: the struct, the results of the
    reads to come until the peer goes silent, the number of commands sent
    and of clock readings so far, and the trace of actions. *)
Record World : Type := mkWorld {
  conn : Conn;
  incoming : list ReadResult;
  sent : nat;
  ticks : nat;
  trace : list Action
}.

Definition with_conn (f : Conn -> Conn) (s : World) : World :=
  {| conn := f (conn s); incoming := incoming s; sent := sent s;
     ticks := ticks s; trace := trace s |}.

Definition emit (a : Action) (s : World) : World :=
  {| conn := conn s; incoming := incoming s; sent := sent s;
     ticks := ticks s; trace := trace s ++ [a] |}.

(** How a loop body ends: [continue] or [goto exit]. *)
Inductive Next : Type := Continue | Exit.

Section Engine.

Variable env : Env.

(** [func (c *Conn) Close() error] *)
Definition Close (s : World) : World :=
  if netConn (conn s) then emit NetClose s else s.

(** [func (c *Conn) SendCommand(cmd *Command) error]: the command goes to
    [c.w]; whether the write (and the flush of the flate writer) fails is
    the network's answer. *)
Definition SendCommand (cmd : Command) (s : World) : option error * World :=
  let s := emit (Sent (w (conn s)) cmd) s in
  (write_result env (sent s),
   {| conn := conn s; incoming := incoming s; sent := S (sent s);
      ticks := ticks s; trace := trace s |}).

(** [func (c *Conn) ReadUnpackedResponse()].  ReadResponse and
    UnpackResponse of protocol.go are not among the sources: what they
    read from [c.r] and unpack is the next result of [incoming]; with
    none left, the deadline that [c.Read] sets on every read passes. *)
Definition ReadUnpackedResponse (s : World) : ReadResult * World :=
  let s := emit (ReadFrom (r (conn s))) s in
  match incoming s with
  | [] => (ReadError ErrTimeout, s)
  | res :: rest =>
    (res, {| conn := conn s; incoming := rest; sent := sent s;
             ticks := ticks s; trace := trace s |})
  end.

(** [time.Now().UnixNano()] *)
Definition UnixNano (s : World) : Z * World :=
  (now env (ticks s),
   {| conn := conn s; incoming := incoming s; sent := sent s;
      ticks := S (ticks s); trace := trace s |}).

Definition OK : bytes := bytes_of_string "OK".

(** [func (c *Conn) upgradeTLS(conf *tls.Config) error] *)
Definition upgradeTLS (s : World) : option error * World :=
  let s := with_conn (set_tlsConn (Some (TLSClient NetConn))) s in
  let s := emit TLSHandshake s in
  match tls_Handshake env with
  | Some err => (Some err, s)
  | None =>
    let s := with_conn (set_r (TLSClient NetConn)) s in
    let s := with_conn (set_w (TLSClient NetConn)) s in
    match ReadUnpackedResponse s with
    | (ReadError err, s) => (Some err, s)
    | (Frame frameType data, s) =>
      if negb (frameType =? FrameTypeResponse) || negb (bool_decide (data = OK))
      then (Some (ErrNew "invalid response from TLS upgrade"), s)
      else (None, s)
    end
  end.

(** [func (c *Conn) upgradeDeflate(level int) error] *)
Definition upgradeDeflate (level : Z) (s : World) : option error * World :=
  let conn_ := match tlsConn (conn s) with
               | Some tls => tls
               | None => NetConn
               end in
  let s := with_conn (set_r (FlateReader conn_)) s in
  let fw := FlateWriter conn_ level in
  let s := with_conn (set_flateWriter (Some fw)) s in
  let s := with_conn (set_w fw) s in
  match ReadUnpackedResponse s with
  | (ReadError err, s) => (Some err, s)
  | (Frame frameType data, s) =>
    if negb (frameType =? FrameTypeResponse) || negb (bool_decide (data = OK))
    then (Some (ErrNew "invalid response from Deflate upgrade"), s)
    else (None, s)
  end.

(** [func (c *Conn) upgradeSnappy() error] *)
Definition upgradeSnappy (s : World) : option error * World :=
  let conn_ := match tlsConn (conn s) with
               | Some tls => tls
               | None => NetConn
               end in
  let s := with_conn (set_r (SnappyReader conn_)) s in
  let s := with_conn (set_w (SnappyWriter conn_)) s in
  match ReadUnpackedResponse s with
  | (ReadError err, s) => (Some err, s)
  | (Frame frameType data, s) =>
    if negb (frameType =? FrameTypeResponse) || negb (bool_decide (data = OK))
    then (Some (ErrNew "invalid response from Snappy upgrade"), s)
    else (None, s)
  end.

(** [func (c *Conn) identify()]: the IdentifyResponse (nil when the
    server answered without capabilities) or an error. *)
Definition identify (s : World) : outcome (option IdentifyResponse) * World :=
  match Identify_result env with
  | Some err => (Err (ErrIdentify err), s)
  | None =>
  match SendCommand IDENTIFY s with
  | (Some err, s) => (Err (ErrIdentify err), s)
  | (None, s) =>
  match ReadUnpackedResponse s with
  | (ReadError err, s) => (Err (ErrIdentify err), s)
  | (Frame frameType data, s) =>
  if frameType =? FrameTypeError then (Err (ErrIdentifyData data), s) else
  (* check to see if the server was able to respond w/ capabilities *)
  match data with
  | [] => (Panic "index out of range", s)
  | data0 :: _ =>
  if negb (bool_decide (data0 = "{"%byte)) then (Ok None, s) else
  match json_Unmarshal env data with
  | inr err => (Err (ErrIdentify err), s)
  | inl resp =>
  let s := with_conn (set_maxRdyCount (MaxRdyCount resp)) s in
  match (if TLSv1 resp then upgradeTLS s else (None, s)) with
  | (Some err, s) => (Err (ErrIdentify err), s)
  | (None, s) =>
  match (if Deflate resp
         then upgradeDeflate (DeflateLevel (conn s)) s else (None, s)) with
  | (Some err, s) => (Err (ErrIdentify err), s)
  | (None, s) =>
  match (if Snappy resp then upgradeSnappy s else (None, s)) with
  | (Some err, s) => (Err (ErrIdentify err), s)
  | (None, s) =>
  (* now that connection is bootstrapped, enable read buffering *)
  let s := with_conn (fun c => set_r (BufioReader (r c)) c) s in
  (Ok (Some resp), s)
  end end end end end end end end.

(** [func (c *Conn) Connect()]: dials and bootstraps the connection. *)
Definition Connect (s : World) : outcome (option IdentifyResponse) * World :=
  let s := emit Dial s in
  match dial_result env with
  | Some err => (Err err, s)
  | None =>
    let s := with_conn (set_netConn true) s in
    let s := with_conn (set_r NetConn) s in
    let s := with_conn (set_w NetConn) s in
    let s := emit WriteMagic s in
    match magic_result env with
    | Some err => let s := Close s in (Err (ErrMagic err), s)
    | None =>
      match identify s with
      | (Err err, s) => (Err err, s)
      | (Panic reason, s) => (Panic reason, s)
      | (Ok resp, s) =>
        let s := with_conn (fun c => set_wg (wg c + 2) c) s in
        let s := with_conn (set_readLoopRunning 1) s in
        let s := emit GoReadLoop s in
        let s := emit GoWriteLoop s in
        (Ok resp, s)
      end
    end
  end.

(** [func (c *Conn) close()]: the orchestrated close, once. *)
Definition close (s : World) : World :=
  if stopper (conn s) then s
  else
    let s := with_conn (set_stopper true) s in
    let s := with_conn (set_exitChan_closed true) s in
    let s := emit CloseExitChan s in
    let s := with_conn (fun c => set_wg (wg c + 1) c) s in
    let s := emit GoCleanup s in
    emit GoWaitForCleanup s.

Definition heartbeat : bytes := bytes_of_string "_heartbeat_".

(** The three assignments [msg.cmdChan = c.cmdChan],
    [msg.responseChan = c.finishedMessages], [msg.exitChan = c.exitChan]
    of readLoop. *)
Definition with_chans (c : Conn) (msg : Message.Message) : Message.Message :=
  {| Message.Id := Message.Id msg; Message.Body := Message.Body msg;
     Message.Timestamp := Message.Timestamp msg;
     Message.Attempts := Message.Attempts msg;
     Message.exitChan := Some (exitChan c);
     Message.cmdChan := Some (cmdChan c);
     Message.responseChan := Some (finishedMessages c) |}.

(** One iteration of the [for] of readLoop. *)
Definition readLoop_iter (s : World) : Next * World :=
  if stopFlag (conn s) =? 1 then (Exit, s) else
  match ReadUnpackedResponse s with
  | (ReadError err, s) => (Exit, emit (IOErrorCB (conn s) err) s)
  | (Frame frameType data, s) =>
    if (frameType =? FrameTypeResponse) && bool_decide (data = heartbeat)
    then
      let s := emit (HeartbeatCB (conn s)) s in
      match SendCommand NOP s with
      | (Some err, s) => (Exit, emit (IOErrorCB (conn s) err) s)
      | (None, s) => (Continue, s)
      end
    else if frameType =? FrameTypeResponse then
      (Continue, emit (ResponseCB (conn s) data) s)
    else if frameType =? FrameTypeMessage then
      match Message.DecodeMessage data with
      | Err err => (Exit, emit (IOErrorCB (conn s) err) s)
      | Panic _ => (Exit, s)
      | Ok msg =>
        let msg := with_chans (conn s) msg in
        let s := with_conn (fun c =>
                   set_rdyCount (AddInt64 (rdyCount c) (-1)) c) s in
        let s := with_conn (fun c =>
                   set_messagesInFlight
                     (AddInt64 (messagesInFlight c) 1) c) s in
        let '(t, s) := UnixNano s in
        let s := with_conn (set_lastMsgTimestamp t) s in
        (Continue, emit (MessageCB (conn s) msg) s)
      end
    else if frameType =? FrameTypeError then
      (Continue, emit (ErrorCB (conn s) data) s)
    else
      (Continue, emit (IOErrorCB (conn s) (ErrUnknownFrameType frameType)) s)
  end.

(** The code of readLoop after its [exit:] label. *)
Definition readLoop_exit (s : World) : World :=
  let s := with_conn (set_readLoopRunning 0) s in
  (* start the connection close *)
  let s := if messagesInFlight (conn s) =? 0 then close s else s in
  with_conn (fun c => set_wg (wg c - 1) c) s.

(** [func (c *Conn) readLoop()], run for at most [fuel] iterations:
    [None] when the loop is still running after them. *)
Fixpoint readLoop (fuel : nat) (s : World) : option World :=
  match fuel with
  | O => None
  | S fuel =>
    match readLoop_iter s with
    | (Exit, s) => Some (readLoop_exit s)
    | (Continue, s) => readLoop fuel s
    end
  end.

End Engine.

(** *** Reading handshakes *)

(** The frame every upgrade waits for: a response with payload "OK". *)
Definition OK_frame : ReadResult := Frame FrameTypeResponse OK.

(** The readers the frames of a trace were read from, in order. *)
Definition reads (tr : list Action) : list Stream :=
  omap (fun a => match a with
                 | ReadFrom via => Some via
                 | _ => None
                 end) tr.

(** The number of upgrades the server granted. *)
Definition granted (resp : IdentifyResponse) : nat :=
  ((if TLSv1 resp then 1 else 0) + (if Deflate resp then 1 else 0)
   + (if Snappy resp then 1 else 0))%nat.

(** The connection a compression layer is put on: the TLS connection
    when TLS was granted. *)
Definition secured (resp : IdentifyResponse) : Stream :=
  if TLSv1 resp then TLSClient NetConn else NetConn.

(** The readers of the granted upgrades in the order "TLS, then
    compression". *)
Definition upgrade_readers (resp : IdentifyResponse) : list Stream :=
  (if TLSv1 resp then [TLSClient NetConn] else [])
  ++ (if Deflate resp then [FlateReader (secured resp)] else [])
  ++ (if Snappy resp then [SnappyReader (secured resp)] else []).

(** *** The accessors *)

(** [func (c *Conn) Stop()] *)
Definition Stop (c : Conn) : Conn := set_stopFlag 1 c.

(** [func (c *Conn) IsStopping() bool] *)
Definition IsStopping (c : Conn) : bool := stopFlag c =? 1.

(** [func (c *Conn) RDY() int64] *)
Definition RDY (c : Conn) : Z := rdyCount c.

(** [func (c *Conn) LastRDY() int64] *)
Definition LastRDY (c : Conn) : Z := lastRdyCount c.

(** [func (c *Conn) SetRDY(rdy int64)] *)
Definition SetRDY (rdy : Z) (c : Conn) : Conn :=
  let c := set_rdyCount rdy c in
  set_lastRdyCount rdy c.

(** [func (c *Conn) MaxRDY() int64] *)
Definition MaxRDY (c : Conn) : Z := maxRdyCount c.

(** *** writeLoop, cleanup and waitForCleanup *)

(** The calls of the two callbacks of the closing sequence, each with the
    [*Conn] it is passed as that struct is at the call. *)
Inductive Callback : Type :=
| MessageProcessedCB (c : Conn) (finishedMsg : FinishedMessage)
| CloseCB (c : Conn).

(** The connection with what only writeLoop, cleanup and waitForCleanup
    touch: whether drainReady is closed, and the calls of their
    callbacks. *)
Record Pump : Type := mkPump {
  world : World;
  drainReady_closed : bool;
  callbacks : list Callback
}.

Definition with_world (f : World -> World) (p : Pump) : Pump :=
  {| world := f (world p); drainReady_closed := drainReady_closed p;
     callbacks := callbacks p |}.

Definition set_drainReady_closed (v : bool) (p : Pump) : Pump :=
  {| world := world p; drainReady_closed := v; callbacks := callbacks p |}.

Definition call (cb : Callback) (p : Pump) : Pump :=
  {| world := world p; drainReady_closed := drainReady_closed p;
     callbacks := callbacks p ++ [cb] |}.

(** What writeLoop meets: its [select] receives from exitChan, from
    cmdChan or from finishedMessages; between two selects readLoop counts
    a message it delivers (line 464) or a goroutine calls Stop. *)
Inductive WriteEvent : Type :=
| RecvExitChan
| RecvCmd (cmd : Command)
| RecvFinishedMessage (finishedMsg : FinishedMessage)
| Delivered
| Stopped.

(** What cleanup meets: its [select] receives from finishedMessages or
    from the ticker; in between readLoop counts a message it delivers
    (line 464) or stores 0 in readLoopRunning (line 476). *)
Inductive DrainEvent : Type :=
| DrainFinishedMessage
| DrainTick
| DrainDelivered
| DrainReadLoopExits.

(** Where cleanup is after the events it was given. *)
Inductive CleanupStatus : Type :=
| Waiting     (* on drainReady *)
| Draining    (* in the loop *)
| Returned.

(** The command writeLoop answers a finished message with: [Finish(id)]
    or [Requeue(id, delay)] of command.go. *)
Definition writeLoop_command (finishedMsg : FinishedMessage) : Command :=
  if Success finishedMsg then FIN (Id finishedMsg)
  else REQ (Id finishedMsg) (RequeueDelayMs finishedMsg).

Section Loops.

Variable env : Env.

(** One iteration of the [for] of writeLoop. *)
Definition writeLoop_case (ev : WriteEvent) (p : Pump) : Next * Pump :=
  match ev with
  | RecvExitChan =>
    (* Indicate drainReady because we will not pull any more off
       finishedMessages *)
    (Exit, set_drainReady_closed true p)
  | RecvCmd cmd =>
    match SendCommand env cmd (world p) with
    | (Some err, s) => (Continue, with_world (fun _ => close s) p)
    | (None, s) => (Continue, with_world (fun _ => s) p)
    end
  | RecvFinishedMessage finishedMsg =>
    (* Decrement this here so it is correct even if we can't respond to
       nsqd *)
    let s := with_conn (fun c =>
               set_messagesInFlight (AddInt64 (messagesInFlight c) (-1)) c)
               (world p) in
    let msgsInFlight := messagesInFlight (conn s) in
    match SendCommand env (writeLoop_command finishedMsg) s with
    | (Some err, s) => (Continue, with_world (fun _ => close s) p)
    | (None, s) =>
      let p := with_world (fun _ => s) p in
      let p := call (MessageProcessedCB (conn s) finishedMsg) p in
      if (msgsInFlight =? 0) && (stopFlag (conn s) =? 1)
      then (Continue, with_world close p)
      else (Continue, p)
    end
  | Delivered =>
    (Continue,
     with_world (with_conn (fun c =>
       set_messagesInFlight (AddInt64 (messagesInFlight c) 1) c)) p)
  | Stopped => (Continue, with_world (with_conn Stop) p)
  end.

(** The code of writeLoop after its [exit:] label. *)
Definition writeLoop_exit (p : Pump) : Pump :=
  with_world (with_conn (fun c => set_wg (wg c - 1) c)) p.

(** [func (c *Conn) writeLoop()] on the events it meets: [Exit] when it
    has returned, [Continue] when it is back in its select. *)
Fixpoint writeLoop (evs : list WriteEvent) (p : Pump) : Next * Pump :=
  match evs with
  | [] => (Continue, p)
  | ev :: evs =>
    match writeLoop_case ev p with
    | (Exit, p) => (Exit, writeLoop_exit p)
    | (Continue, p) => writeLoop evs p
    end
  end.

(** One iteration of the [for] of cleanup. *)
Definition cleanup_case (ev : DrainEvent) (p : Pump) : Next * Pump :=
  let check (msgsInFlight : Z) (p : Pump) : Next * Pump :=
    if 0 <? msgsInFlight then (Continue, p)
    (* until the readLoop has exited we cannot be sure that there still
       won't be a race *)
    else if readLoopRunning (conn (world p)) =? 1 then (Continue, p)
    else (Exit, p) in
  match ev with
  | DrainFinishedMessage =>
    let p := with_world (with_conn (fun c =>
               set_messagesInFlight (AddInt64 (messagesInFlight c) (-1)) c))
               p in
    check (messagesInFlight (conn (world p))) p
  | DrainTick => check (messagesInFlight (conn (world p))) p
  | DrainDelivered =>
    (Continue,
     with_world (with_conn (fun c =>
       set_messagesInFlight (AddInt64 (messagesInFlight c) 1) c)) p)
  | DrainReadLoopExits =>
    (Continue, with_world (with_conn (set_readLoopRunning 0)) p)
  end.

(** The code of cleanup after its [exit:] label. *)
Definition cleanup_exit (p : Pump) : Pump :=
  with_world (with_conn (fun c => set_wg (wg c - 1) c)) p.

(** The [for] of cleanup on the events it meets. *)
Fixpoint cleanup_drain (evs : list DrainEvent) (p : Pump)
  : CleanupStatus * Pump :=
  match evs with
  | [] => (Draining, p)
  | ev :: evs =>
    match cleanup_case ev p with
    | (Exit, p) => (Returned, cleanup_exit p)
    | (Continue, p) => cleanup_drain evs p
    end
  end.

(** [func (c *Conn) cleanup()]: it passes [<-c.drainReady] once that
    channel is closed. *)
Definition cleanup (evs : list DrainEvent) (p : Pump)
  : CleanupStatus * Pump :=
  if drainReady_closed p then cleanup_drain evs p else (Waiting, p).

(** [func (c *Conn) waitForCleanup()]: [None] while [c.wg.Wait()]
    blocks. *)
Definition waitForCleanup (p : Pump) : option Pump :=
  if wg (conn (world p)) =? 0 then
    (* actually close the underlying connection *)
    let p := with_world Close p in
    Some (call (CloseCB (conn (world p))) p)
  else None.

End Loops.

(** *** Reading the traces of the loops *)

(** The commands written to the connection, in order. *)
Definition commands (tr : list Action) : list Command :=
  omap (fun a => match a with
                 | Sent _ cmd => Some cmd
                 | _ => None
                 end) tr.

(** The messages handed to the message callback, in order. *)
Definition delivered (tr : list Action) : list Message.Message :=
  omap (fun a => match a with
                 | MessageCB _ msg => Some msg
                 | _ => None
                 end) tr.

(** The goroutines started, in order. *)
Definition started (tr : list Action) : list Action :=
  omap (fun a => match a with
                 | GoCleanup | GoWaitForCleanup | GoReadLoop | GoWriteLoop =>
                   Some a
                 | _ => None
                 end) tr.

(** What the handshake leaves as it is: it starts no goroutine and
    touches neither the counters nor the flags of the closing sequence. *)
Definition handshake_kept (s s' : World) : Prop :=
  (exists tr, trace s' = trace s ++ tr /\ started tr = [])
  /\ wg (conn s') = wg (conn s)
  /\ readLoopRunning (conn s') = readLoopRunning (conn s)
  /\ stopper (conn s') = stopper (conn s)
  /\ stopFlag (conn s') = stopFlag (conn s)
  /\ netConn (conn s') = netConn (conn s)
  /\ messagesInFlight (conn s') = messagesInFlight (conn s)
  /\ rdyCount (conn s') = rdyCount (conn s).

(** How often exitChan was closed. *)
Definition exitChan_closes (tr : list Action) : nat :=
  length (omap (fun a => match a with
                         | CloseExitChan => Some tt
                         | _ => None
                         end) tr).

(** The state of a connection whose exitChan was closed by close() and
    by nothing else: once when the sync.Once has fired, never before. *)
Definition closed_once (s : World) : Prop :=
  exitChan_closes (trace s) = (if stopper (conn s) then 1%nat else 0%nat)
  /\ exitChan_closed (conn s) = stopper (conn s).

(** The finished messages that cleanup receives. *)
Definition drained (evs : list DrainEvent) : nat :=
  length (omap (fun ev => match ev with
                          | DrainFinishedMessage => Some tt
                          | _ => None
                          end) evs).

(** Whether the events of cleanup are those of its [select] only: no
    other goroutine writes the counters in between. *)
Definition quiet (evs : list DrainEvent) : bool :=
  forallb (fun ev => match ev with
                     | DrainFinishedMessage | DrainTick => true
                     | _ => false
                     end) evs.

(** What readLoop leaves as it is up to its [exit:] label, and how it
    counts the messages it delivers. *)
Definition readLoop_kept (s s' : World) (tr : list Action) : Prop :=
  trace s' = trace s ++ tr
  /\ exitChan_closes tr = 0%nat
  /\ lastRdyCount (conn s') = lastRdyCount (conn s)
  /\ maxRdyCount (conn s') = maxRdyCount (conn s)
  /\ stopFlag (conn s') = stopFlag (conn s)
  /\ stopper (conn s') = stopper (conn s)
  /\ wg (conn s') = wg (conn s)
  /\ exitChan_closed (conn s') = exitChan_closed (conn s)
  /\ messagesInFlight (conn s')
     = Nat.iter (length (delivered tr)) (fun v => AddInt64 v 1)
         (messagesInFlight (conn s))
  /\ rdyCount (conn s')
     = Nat.iter (length (delivered tr)) (fun v => AddInt64 v (-1))
         (rdyCount (conn s)).

(** The finished messages passed to MessageProcessedCB, in order. *)
Definition processed (cbs : list Callback) : list FinishedMessage :=
  omap (fun cb => match cb with
                  | MessageProcessedCB _ finishedMsg => Some finishedMsg
                  | _ => None
                  end) cbs.

(** The events of writeLoop up to the one that makes it return. *)
Fixpoint handled (evs : list WriteEvent) : list WriteEvent :=
  match evs with
  | [] => []
  | RecvExitChan :: _ => []
  | ev :: evs => ev :: handled evs
  end.

(** The command writeLoop owes for an event. *)
Definition owed (ev : WriteEvent) : option Command :=
  match ev with
  | RecvCmd cmd => Some cmd
  | RecvFinishedMessage finishedMsg => Some (writeLoop_command finishedMsg)
  | _ => None
  end.

(** The finished messages among the events. *)
Definition finished_messages (evs : list WriteEvent) : list FinishedMessage :=
  omap (fun ev => match ev with
                  | RecvFinishedMessage finishedMsg => Some finishedMsg
                  | _ => None
                  end) evs.

(** The messages readLoop counts during the events. *)
Definition deliveries (evs : list WriteEvent) : nat :=
  length (omap (fun ev => match ev with
                          | Delivered => Some tt
                          | _ => None
                          end) evs).

End Conn.


(** ** The Writer *)

Module Writer.

(** Transactions are shared between the goroutine that publishes, the
    router and whoever receives on doneChan: a [*WriterTransaction] is a
    location of the store of transaction objects. *)
Definition loc : Type := nat.

Global Instance loc_eq_decision : EqDecision loc := Nat.eq_dec.

Record WriterTransaction : Type := mkTransaction {
  cmd : Command;
  doneChan : option chan;
  FrameType : Z;        (* int32 *)
  Data : bytes;
  Error : option error;
  Args : list string    (* []interface{}, opaque to the Writer *)
}.

Definition set_FrameType (v : Z) (t : WriterTransaction) : WriterTransaction :=
  {| cmd := cmd t; doneChan := doneChan t; FrameType := v; Data := Data t;
     Error := Error t; Args := Args t |}.

Definition set_Data (v : bytes) (t : WriterTransaction) : WriterTransaction :=
  {| cmd := cmd t; doneChan := doneChan t; FrameType := FrameType t;
     Data := v; Error := Error t; Args := Args t |}.

Definition set_Error (v : option error) (t : WriterTransaction)
  : WriterTransaction :=
  {| cmd := cmd t; doneChan := doneChan t; FrameType := FrameType t;
     Data := Data t; Error := v; Args := Args t |}.

(** The fields of [Writer] that the embedded methods read or write; the
    channels are the events of [router] below, apart from exitChan, of
    which the Writer only needs to know whether it is closed. *)
Record Writer : Type := mkWriter {
  conn : bool;              (* w.conn is not nil *)
  concurrentWriters : Z;    (* int32 *)
  transactions : list loc;
  state : ConnState;        (* int32 *)
  stopFlag : Z;             (* int32 *)
  exitChan_closed : bool;
  wg : Z                    (* the counter of the sync.WaitGroup *)
}.

Definition set_conn (v : bool) (w : Writer) : Writer :=
  {| conn := v; concurrentWriters := concurrentWriters w;
     transactions := transactions w; state := state w;
     stopFlag := stopFlag w; exitChan_closed := exitChan_closed w;
     wg := wg w |}.

Definition set_concurrentWriters (v : Z) (w : Writer) : Writer :=
  {| conn := conn w; concurrentWriters := v;
     transactions := transactions w; state := state w;
     stopFlag := stopFlag w; exitChan_closed := exitChan_closed w;
     wg := wg w |}.

Definition set_transactions (v : list loc) (w : Writer) : Writer :=
  {| conn := conn w; concurrentWriters := concurrentWriters w;
     transactions := v; state := state w;
     stopFlag := stopFlag w; exitChan_closed := exitChan_closed w;
     wg := wg w |}.

Definition set_state (v : ConnState) (w : Writer) : Writer :=
  {| conn := conn w; concurrentWriters := concurrentWriters w;
     transactions := transactions w; state := v;
     stopFlag := stopFlag w; exitChan_closed := exitChan_closed w;
     wg := wg w |}.

Definition set_stopFlag (v : Z) (w : Writer) : Writer :=
  {| conn := conn w; concurrentWriters := concurrentWriters w;
     transactions := transactions w; state := state w;
     stopFlag := v; exitChan_closed := exitChan_closed w;
     wg := wg w |}.

Definition set_exitChan_closed (v : bool) (w : Writer) : Writer :=
  {| conn := conn w; concurrentWriters := concurrentWriters w;
     transactions := transactions w; state := state w;
     stopFlag := stopFlag w; exitChan_closed := v;
     wg := wg w |}.

Definition set_wg (v : Z) (w : Writer) : Writer :=
  {| conn := conn w; concurrentWriters := concurrentWriters w;
     transactions := transactions w; state := state w;
     stopFlag := stopFlag w; exitChan_closed := exitChan_closed w;
     wg := v |}.

(** [func NewWriter(addr string) *Writer] *)
Definition NewWriter : Writer :=
  {| conn := false; concurrentWriters := 0; transactions := [];
     state := StateInit; stopFlag := 0; exitChan_closed := false; wg := 0 |}.

(** What the Writer does to the outside. *)
Inductive Action : Type :=
| ConnConnect                     (* conn.Connect() on a new Conn *)
| ConnClose                       (* Close() on a Conn *)
| ConnSendCommand (cmd : Command) (* w.conn.SendCommand(cmd) *)
| Finish (t : loc) (tx : WriterTransaction)
    (* t.finish() with the transaction as it is at the call: t is sent
       on tx's doneChan unless that is nil *)
| GoRouter                        (* go w.router() *)
| GoResetState                    (* the goroutine started by close() *)
| CloseExitChan                   (* close(w.exitChan) *)
| CloseDoneChan (c : chan)        (* close(doneChan) *)
| Sleep.                          (* time.Sleep(5 * time.Millisecond) *)

(** The Writer with the store of transaction objects, the next free
    location and channel name, the goroutines of close() that have not yet
    stored StateInit, and the trace of actions. *)
Record Sys : Type := mkSys {
  writer : Writer;
  heap : loc -> WriterTransaction;
  next : loc;
  chans : chan;
  resetters : nat;
  trace : list Action
}.

Definition with_writer (f : Writer -> Writer) (s : Sys) : Sys :=
  {| writer := f (writer s); heap := heap s; next := next s;
     chans := chans s; resetters := resetters s; trace := trace s |}.

Definition emit (a : Action) (s : Sys) : Sys :=
  {| writer := writer s; heap := heap s; next := next s;
     chans := chans s; resetters := resetters s; trace := trace s ++ [a] |}.

(** An assignment to a field of [*t]. *)
Definition store (t : loc) (f : WriterTransaction -> WriterTransaction)
    (s : Sys) : Sys :=
  {| writer := writer s; heap := <[t := f (heap s t)]> (heap s);
     next := next s; chans := chans s; resetters := resetters s;
     trace := trace s |}.

Definition set_resetters (n : nat) (s : Sys) : Sys :=
  {| writer := writer s; heap := heap s; next := next s;
     chans := chans s; resetters := n; trace := trace s |}.

(** *** The methods, as state transformers that can panic *)

Definition M (A : Type) : Type := Sys -> outcome (A * Sys).

Definition ret {A} (a : A) : M A := fun s => Ok (a, s).

Definition bind {A B} (m : M A) (k : A -> M B) : M B :=
  fun s =>
    match m s with
    | Ok (a, s) => k a s
    | Err e => Err e
    | Panic reason => Panic reason
    end.

Definition panic {A} (reason : string) : M A := fun _ => Panic reason.
Definition get : M Sys := fun s => Ok (s, s).
Definition modify (f : Sys -> Sys) : M unit := fun s => Ok (tt, f s).

(** [&WriterTransaction{...}]: a new object. *)
Definition alloc (tx : WriterTransaction) : M loc :=
  fun s =>
    Ok (next s,
        {| writer := writer s; heap := <[next s := tx]> (heap s);
           next := S (next s); chans := chans s; resetters := resetters s;
           trace := trace s |}).

(** [make(chan *WriterTransaction)]: a new channel. *)
Definition make_chan : M chan :=
  fun s =>
    Ok (chans s,
        {| writer := writer s; heap := heap s; next := next s;
           chans := S (chans s); resetters := resetters s;
           trace := trace s |}).

Declare Scope go_scope.
Delimit Scope go_scope with go.
Notation "x <- m ;; k" := (bind m (fun x => k))
  (at level 100, m at next level, right associativity) : go_scope.
Notation "m ;;; k" := (bind m (fun _ => k))
  (at level 100, right associativity) : go_scope.
Local Open Scope go_scope.

(** [func (t *WriterTransaction) finish()] *)
Definition finish (t : loc) : M unit :=
  s <- get ;; modify (emit (Finish t (heap s t))).

(** [func (w *Writer) popTransaction(frameType int32, data []byte)] *)
Definition popTransaction (frameType : Z) (data : bytes) : M unit :=
  s <- get ;;
  match transactions (writer s) with
  | [] => panic "index out of range"
  | t :: rest =>
    modify (with_writer (set_transactions rest)) ;;;
    modify (store t (set_FrameType frameType)) ;;;
    modify (store t (set_Data data)) ;;;
    modify (store t (set_Error None)) ;;;
    finish t
  end.

(** [func (w *Writer) close()] *)
Definition close : M unit :=
  s <- get ;;
  if negb (bool_decide (state (writer s) = StateConnected)) then ret tt
  else
    modify (with_writer (set_state StateDisconnected)) ;;;
    (if conn (writer s) then modify (emit ConnClose)
     else panic "nil pointer dereference") ;;;
    modify (fun s => set_resetters (S (resetters s)) s) ;;;
    modify (emit GoResetState).

(** The goroutine started by close(): [w.wg.Wait()], then
    [atomic.StoreInt32(&w.state, StateInit)].  [false] when there is no
    such goroutine or it is still waiting. *)
Definition close_func1 : M bool :=
  s <- get ;;
  match resetters s with
  | O => ret false
  | S n =>
    if wg (writer s) =? 0 then
      modify (with_writer (set_state StateInit)) ;;;
      modify (set_resetters n) ;;;
      ret true
    else ret false
  end.

(** [func (w *Writer) connect() error]; [dial] is what conn.Connect()
    answers. *)
Definition connect (dial : outcome (option Conn.IdentifyResponse))
  : M (option error) :=
  s <- get ;;
  if stopFlag (writer s) =? 1 then ret (Some ErrStopped)
  else if negb (bool_decide (state (writer s) = StateInit))
  then ret (Some ErrNotConnected)
  else
    modify (with_writer (set_state StateConnected)) ;;;
    modify (emit ConnConnect) ;;;
    match dial with
    | Err err =>
      modify (emit ConnClose) ;;;
      modify (with_writer (set_state StateInit)) ;;;
      ret (Some err)
    | Panic reason => panic reason
    | Ok resp =>
      modify (with_writer (set_conn true)) ;;;
      modify (with_writer (fun w => set_wg (wg w + 1) w)) ;;;
      modify (emit GoRouter) ;;;
      ret None
    end.

(** [func (w *Writer) Stop()], up to [w.wg.Wait()]: [true] when the wait
    returns at once, [false] when Stop returns only after the router has
    called [w.wg.Done()]. *)
Definition Stop : M bool :=
  s <- get ;;
  if negb (stopFlag (writer s) =? 0) then ret true
  else
    modify (with_writer (set_stopFlag 1)) ;;;
    modify (with_writer (set_exitChan_closed true)) ;;;
    modify (emit CloseExitChan) ;;;
    close ;;;
    s <- get ;;
    ret (wg (writer s) =? 0).

(** What the [select] of router receives: a transaction from
    transactionChan (with what w.conn.SendCommand then answers), a payload
    from responseChan or errorChan, a heartbeat, an IO error, the close
    notification, or the closed exitChan. *)
Inductive RouterEvent : Type :=
| RecvTransaction (t : loc) (sendErr : option error)
| RecvResponse (data : bytes)
| RecvError (data : bytes)
| RecvHeartbeat
| RecvIOError (err : error)
| RecvClose
| RecvExit.

(** One iteration of the [for] of router. *)
Definition router_case (ev : RouterEvent) : M Conn.Next :=
  match ev with
  | RecvTransaction t sendErr =>
    modify (with_writer (fun w =>
      set_transactions (transactions w ++ [t]) w)) ;;;
    s <- get ;;
    (if conn (writer s) then modify (emit (ConnSendCommand (cmd (heap s t))))
     else panic "nil pointer dereference") ;;;
    match sendErr with
    | Some err => close
    | None => ret tt
    end ;;;
    ret Conn.Continue
  | RecvResponse data =>
    popTransaction FrameTypeResponse data ;;; ret Conn.Continue
  | RecvError data =>
    popTransaction FrameTypeError data ;;; ret Conn.Continue
  | RecvHeartbeat => ret Conn.Continue
  | RecvIOError err => close ;;; ret Conn.Continue
  | RecvClose => ret Conn.Exit
  | RecvExit => ret Conn.Exit
  end.

(** What happens while transactionCleanup spins: its [select] receives
    from a goroutine blocked on transactionChan, or takes the default
    case; in between, other goroutines enter sendCommandAsync (line 173)
    or leave it (the deferred line 174). *)
Inductive CleanupEvent : Type :=
| CleanupRecv (t : loc)
| CleanupDefault
| SenderEnter
| SenderLeave.

(** [for _, t := range w.transactions { ... }] *)
Fixpoint transactionCleanup_range (ts : list loc) : M unit :=
  match ts with
  | [] => ret tt
  | t :: ts =>
    modify (store t (set_Error (Some ErrNotConnected))) ;;;
    finish t ;;;
    transactionCleanup_range ts
  end.

(** The second [for] of transactionCleanup: [true] when it returns,
    [false] when it is still spinning after the events. *)
Fixpoint transactionCleanup_spin (evs : list CleanupEvent) : M bool :=
  match evs with
  | [] => ret false
  | CleanupRecv t :: evs =>
    modify (store t (set_Error (Some ErrNotConnected))) ;;;
    finish t ;;;
    transactionCleanup_spin evs
  | CleanupDefault :: evs =>
    s <- get ;;
    (* keep spinning until there are 0 concurrent writers *)
    if concurrentWriters (writer s) =? 0 then ret true
    else modify (emit Sleep) ;;; transactionCleanup_spin evs
  | SenderEnter :: evs =>
    modify (with_writer (fun w =>
      set_concurrentWriters (AddInt32 (concurrentWriters w) 1) w)) ;;;
    transactionCleanup_spin evs
  | SenderLeave :: evs =>
    modify (with_writer (fun w =>
      set_concurrentWriters (AddInt32 (concurrentWriters w) (-1)) w)) ;;;
    transactionCleanup_spin evs
  end.

(** [func (w *Writer) transactionCleanup()] *)
Definition transactionCleanup (evs : list CleanupEvent) : M bool :=
  s <- get ;;
  (* clean up transactions we can easily account for *)
  transactionCleanup_range (transactions (writer s)) ;;;
  modify (with_writer (set_transactions [])) ;;;
  (* spin and free up any writes that might have raced *)
  transactionCleanup_spin evs.

(** Where the router goroutine is after the events it was given. *)
Inductive RouterStatus : Type :=
| Routing     (* in the select of the loop *)
| Cleaning    (* spinning in transactionCleanup *)
| Exited.

(** [func (w *Writer) router()] *)
Fixpoint router (evs : list RouterEvent) (cevs : list CleanupEvent)
  : M RouterStatus :=
  match evs with
  | [] => ret Routing
  | ev :: evs =>
    next <- router_case ev ;;
    match next with
    | Conn.Continue => router evs cevs
    | Conn.Exit =>
      returned <- transactionCleanup cevs ;;
      if returned : bool then
        modify (with_writer (fun w => set_wg (wg w - 1) w)) ;;;
        ret Exited
      else ret Cleaning
    end
  end.

(** Which case of the [select] of sendCommandAsync the scheduler lets
    proceed. *)
Inductive SelectCase : Type := CaseSend | CaseExit.

(** What a call does: it returns, or it stays blocked. *)
Inductive Called (A : Type) : Type :=
| Returns (a : A)
| Blocks.
Arguments Returns {A} a.
Arguments Blocks {A}.

(** [func (w *Writer) sendCommandAsync(cmd, doneChan, args) error].  The
    send on transactionChan can proceed only while a router goroutine is
    alive to receive, the receive from exitChan only once it is closed. *)
Definition sendCommandAsync (cmd_ : Command) (doneChan_ : option chan)
    (args : list string) (dial : outcome (option Conn.IdentifyResponse))
    (sel : SelectCase) : M (Called (option error)) :=
  let leave :=
    modify (with_writer (fun w =>
      set_concurrentWriters (AddInt32 (concurrentWriters w) (-1)) w)) in
  modify (with_writer (fun w =>
    set_concurrentWriters (AddInt32 (concurrentWriters w) 1) w)) ;;;
  s <- get ;;
  err <- (if negb (bool_decide (state (writer s) = StateConnected))
          then connect dial else ret None) ;;
  match err with
  | Some err => leave ;;; ret (Returns (Some err))
  | None =>
    t <- alloc {| cmd := cmd_; doneChan := doneChan_; FrameType := -1;
                  Data := []; Error := None; Args := args |} ;;
    s <- get ;;
    match sel with
    | CaseSend =>
      if 0 <? wg (writer s) then leave ;;; ret (Returns None)
      else ret Blocks
    | CaseExit =>
      if exitChan_closed (writer s)
      then leave ;;; ret (Returns (Some ErrStopped))
      else ret Blocks
    end
  end.

(** [func (w *Writer) sendCommand(cmd *Command)], up to the receive
    from doneChan: it returns [(-1, nil, err)] when the command could not
    be handed over, and otherwise stays blocked, in the select or on
    doneChan. *)
Definition sendCommand (cmd_ : Command)
    (dial : outcome (option Conn.IdentifyResponse)) (sel : SelectCase)
  : M (Called (Z * bytes * option error)) :=
  doneChan_ <- make_chan ;;
  r <- sendCommandAsync cmd_ (Some doneChan_) [] dial sel ;;
  match r with
  | Returns (Some err) =>
    modify (emit (CloseDoneChan doneChan_)) ;;;
    ret (Returns (-1, [], Some err))
  | Returns None => ret Blocks
  | Blocks => ret Blocks
  end.

(** The end of sendCommand: [t := <-doneChan] and
    [return t.FrameType, t.Data, t.Error]. *)
Definition sendCommand_done (t : loc) : M (Z * bytes * option error) :=
  s <- get ;;
  ret (FrameType (heap s t), Data (heap s t), Error (heap s t)).

Section Publishing.

(** command.go's [MultiPublish(topic, body)]: the command, or the error
    of a batch that cannot be encoded. *)
Variable MultiPublish_cmd : string -> list bytes -> outcome Command.

(** [func (w *Writer) PublishAsync(topic, body, doneChan, args...) error] *)
Definition PublishAsync (topic : string) (body : bytes)
    (doneChan_ : option chan) (args : list string)
    (dial : outcome (option Conn.IdentifyResponse)) (sel : SelectCase)
  : M (Called (option error)) :=
  sendCommandAsync (PUB topic body) doneChan_ args dial sel.

(** [func (w *Writer) MultiPublishAsync(topic, body, doneChan, args...)
    error] *)
Definition MultiPublishAsync (topic : string) (body : list bytes)
    (doneChan_ : option chan) (args : list string)
    (dial : outcome (option Conn.IdentifyResponse)) (sel : SelectCase)
  : M (Called (option error)) :=
  match MultiPublish_cmd topic body with
  | Err err => ret (Returns (Some err))
  | Panic reason => panic reason
  | Ok cmd_ => sendCommandAsync cmd_ doneChan_ args dial sel
  end.

(** [func (w *Writer) Publish(topic, body)], up to the receive from
    doneChan *)
Definition Publish (topic : string) (body : bytes)
    (dial : outcome (option Conn.IdentifyResponse)) (sel : SelectCase)
  : M (Called (Z * bytes * option error)) :=
  sendCommand (PUB topic body) dial sel.

(** [func (w *Writer) MultiPublish(topic, body)], up to the receive from
    doneChan *)
Definition MultiPublish (topic : string) (body : list bytes)
    (dial : outcome (option Conn.IdentifyResponse)) (sel : SelectCase)
  : M (Called (Z * bytes * option error)) :=
  match MultiPublish_cmd topic body with
  | Err err => ret (Returns (-1, [], Some err))
  | Panic reason => panic reason
  | Ok cmd_ => sendCommand cmd_ dial sel
  end.

End Publishing.

(** *** Runs of a Writer *)

(** A new Writer, no transaction created yet. *)
Definition initial : Sys :=
  {| writer := NewWriter;
     heap := fun _ => {| cmd := NOP; doneChan := None; FrameType := 0;
                         Data := []; Error := None; Args := [] |};
     next := 0%nat; chans := 0%nat; resetters := 0%nat; trace := [] |}.

(** One step of a run: a goroutine calls sendCommandAsync or sendCommand
    (every publish method is one of the two applied to a command), Stop is
    called, the router goroutine handles events, a goroutine left blocked
    in sendCommandAsync leaves it, or the goroutine of close() runs. *)
Inductive step : Sys -> Sys -> Prop :=
| step_sendCommandAsync c d a dial sel r s s' :
    sendCommandAsync c d a dial sel s = Ok (r, s') -> step s s'
| step_sendCommand c dial sel r s s' :
    sendCommand c dial sel s = Ok (r, s') -> step s s'
| step_leave s :
    step s (with_writer (fun w =>
      set_concurrentWriters (AddInt32 (concurrentWriters w) (-1)) w) s)
| step_Stop b s s' :
    Stop s = Ok (b, s') -> step s s'
| step_router evs cevs st s s' :
    router evs cevs s = Ok (st, s') -> step s s'
| step_close_func1 b s s' :
    close_func1 s = Ok (b, s') -> step s s'.

Definition reachable (s : Sys) : Prop := rtc step initial s.

(** *** Reading runs *)

(** The transactions an event list hands to the router, in order. *)
Definition received (evs : list RouterEvent) : list loc :=
  omap (fun ev => match ev with
                  | RecvTransaction t _ => Some t
                  | _ => None
                  end) evs.

(** The response and error frames of an event list, in order, each with
    its frame type and payload. *)
Definition frames (evs : list RouterEvent) : list (Z * bytes) :=
  omap (fun ev => match ev with
                  | RecvResponse data => Some (FrameTypeResponse, data)
                  | RecvError data => Some (FrameTypeError, data)
                  | _ => None
                  end) evs.

(** The transactions received while transactionCleanup spins. *)
Definition drained (cevs : list CleanupEvent) : list loc :=
  omap (fun ev => match ev with
                  | CleanupRecv t => Some t
                  | _ => None
                  end) cevs.

(** The calls of finish() in a trace: the transaction and its contents
    at the call. *)
Definition finished (tr : list Action) : list (loc * WriterTransaction) :=
  omap (fun a => match a with
                 | Finish t tx => Some (t, tx)
                 | _ => None
                 end) tr.

(** Whether a loop event is one of the two that leave the loop. *)
Definition is_exit (ev : RouterEvent) : bool :=
  match ev with
  | RecvClose | RecvExit => true
  | _ => false
  end.

(** The protocol precondition of the router: every response or error
    frame answers a command sent before it, [pending] being the number of
    commands not answered yet. *)
Fixpoint answers_sent (pending : nat) (evs : list RouterEvent) : bool :=
  match evs with
  | [] => true
  | RecvTransaction _ _ :: evs => answers_sent (S pending) evs
  | (RecvResponse _ | RecvError _) :: evs =>
    match pending with
    | O => false
    | S pending => answers_sent pending evs
    end
  | (RecvClose | RecvExit) :: _ => true
  | (RecvHeartbeat | RecvIOError _) :: evs => answers_sent pending evs
  end.

(** How a call leaves the fields that only connect, close and Stop
    write: untouched, but for the state going from Connected to
    Disconnected. *)
Definition steady (s s' : Sys) : Prop :=
  conn (writer s') = conn (writer s)
  /\ stopFlag (writer s') = stopFlag (writer s)
  /\ exitChan_closed (writer s') = exitChan_closed (writer s)
  /\ wg (writer s') = wg (writer s)
  /\ (state (writer s') = state (writer s)
      \/ (state (writer s) = StateConnected
          /\ state (writer s') = StateDisconnected)).

(** A recorded call of finish() on a transaction resolved with a frame:
    its frame type and data are the frame's, its error is nil. *)
Definition resolved_by (fin : loc * WriterTransaction) (frame : Z * bytes)
  : Prop :=
  FrameType (snd fin) = fst frame
  /\ Data (snd fin) = snd frame
  /\ Error (snd fin) = None.

(** A recorded call of finish() on a transaction invalidated at
    shutdown. *)
Definition invalidated (fin : loc * WriterTransaction) : Prop :=
  Error (snd fin) = Some ErrNotConnected.

(** A Writer on which Stop() has set the stop flag and closed the
    connection. *)
Definition stopped (s : Sys) : Prop :=
  stopFlag (writer s) = 1 /\ state (writer s) <> StateConnected.

(** What a call of sendCommandAsync that fails before it creates a
    transaction leaves behind: the counter of concurrent writers
    incremented, then decremented. *)
Definition left (s : Sys) : Sys :=
  with_writer (fun w =>
    set_concurrentWriters
      (AddInt32 (AddInt32 (concurrentWriters w) 1) (-1)) w) s.

(** The state a call ends in (the state it started in when it panics). *)
Definition run {A} (m : M A) (s : Sys) : Sys :=
  match m s with
  | Ok (_, s') => s'
  | _ => s
  end.

End Writer.

(** ** util: string slices as sets *)

Module Util.

(** The [for ... range s] of StringAdd on what is left of [s]: it
    returns [s] at the first element equal to [a], and [append(s, a)]
    when it runs to the end. *)
Fixpoint StringAdd_range (rest s : list string) (a : string) : list string :=
  match rest with
  | [] => s ++ [a]
  | existing :: rest =>
    if bool_decide (a = existing) then s else StringAdd_range rest s a
  end.

(** [func StringAdd(s []string, a string) []string] *)
Definition StringAdd (s : list string) (a : string) : list string :=
  StringAdd_range s s a.

(** The inner [for] of StringUnion: the value of [found] after it. *)
Fixpoint StringUnion_found (s : list string) (entry : string) : bool :=
  match s with
  | [] => false
  | existing :: s =>
    if bool_decide (entry = existing) then true else StringUnion_found s entry
  end.

(** [func StringUnion(s []string, a []string) []string] *)
Fixpoint StringUnion (s a : list string) : list string :=
  match a with
  | [] => s
  | entry :: a =>
    let found := StringUnion_found s entry in
    let s := if negb found then s ++ [entry] else s in
    StringUnion s a
  end.

End Util.

(** ** lookupd: the union of the topics of the lookupd *)

Module Lookupd.

(** Go's [<=] on strings: bytewise, lexicographic. *)
Definition string_le (s1 s2 : string) : Prop := String.leb s1 s2 = true.

Global Instance string_le_dec s1 s2 : Decision (string_le s1 s2).
Proof. unfold string_le. apply _. Defined.

(** [sort.Strings(a)]: [a] in increasing order. *)
Definition sort_Strings (a : list string) : list string :=
  merge_sort string_le a.

Section Queries.

(** [util.ApiRequest(endpoint)] followed by the extraction of the array
    of strings the caller asks for ([nil] when the answer has no such
    array): what the lookupd at [endpoint] answers, or the error of the
    request. *)
Variable ApiRequest : string -> list string + error.

(** The goroutine of GetLookupdTopics, which runs with [lock] held, on
    the shared variables [success] and [allTopics]. *)
Definition GetLookupdTopics_func1 (endpoint : string)
    (shared : bool * list string) : bool * list string :=
  match ApiRequest endpoint with
  | inr err => shared
  | inl topics => (true, Util.StringUnion (snd shared) topics)
  end.

(** [func GetLookupdTopics(lookupdHTTPAddrs []string) ([]string, error)];
    [schedule] is [lookupdHTTPAddrs] in the order in which the goroutines
    started for the addresses take the lock. *)
Definition GetLookupdTopics (schedule : list string) : outcome (list string) :=
  let '(success, allTopics) :=
    foldl (fun shared addr =>
             GetLookupdTopics_func1 ("http://" +:+ addr +:+ "/topics") shared)
          (false, []) schedule in
  let allTopics := sort_Strings allTopics in
  if negb success then Err (ErrNew "unable to query any lookupd")
  else Ok allTopics.

End Queries.

End Lookupd.

(** ** nsq_event_router: the handler of event messages *)

Module EventRouter.

(** [strings.Split(s, sep)] for a separator of one byte: the part before
    the first separator and the parts after it. *)
Fixpoint strings_Split_parts (s : string) (sep : Ascii.ascii)
  : string * list string :=
  match s with
  | EmptyString => (EmptyString, [])
  | String c s =>
    let '(part, parts) := strings_Split_parts s sep in
    if Ascii.eqb c sep then (EmptyString, part :: parts)
    else (String c part, parts)
  end.

Definition strings_Split (s : string) (sep : Ascii.ascii) : list string :=
  let '(part, parts) := strings_Split_parts s sep in part :: parts.

(** [strings.Join(a, sep)] *)
Definition strings_Join (a : list string) (sep : string) : string :=
  String.concat sep a.

(** [string(b)] for a byte slice [b]. *)
Definition string_of_bytes (b : bytes) : string := String.string_of_list_byte b.

Record EventRouter : Type := mkEventRouter {
  totalMessages : Z;   (* int *)
  messagesShown : Z;   (* int *)
  handlersDir : string
}.

(** What the handler does to the outside. *)
Inductive Action : Type :=
| Stat (name : string)                  (* os.Stat(name) *)
| Output (path : string) (args : list string) (dir : string).
    (* exec.Command(path, args...) with cmd.Dir = dir, then cmd.Output() *)

(** What the file system and the handlers answer. *)
Record Env : Type := mkEnv {
  filepath_Join : string -> string -> string;
  IsNotExist : string -> bool;   (* os.IsNotExist of the error of os.Stat *)
  cmd_Output : string -> list string -> string -> option error
}.

(** How a call ends: it returns an error or nil, or the process exits. *)
Inductive Ended : Type :=
| Return (err : option error)
| os_Exit (code : Z).

(** [func (th *EventRouter) HandleMessage(m *nsq.Message) error]: how it
    ends, the router after it, and what it did.  [Panic] is the index out
    of range of [msgParts[0]]. *)
Definition HandleMessage (env : Env) (th : EventRouter) (m : Message.Message)
  : outcome (Ended * EventRouter * list Action) :=
  let th := {| totalMessages := totalMessages th;
               messagesShown := int64 (messagesShown th + 1);
               handlersDir := handlersDir th |} in
  let msgParts := strings_Split (string_of_bytes (Message.Body m)) " "%char in
  match msgParts with
  | [] => Panic "index out of range"
  | eventName :: msgParts_1 =>
    let handlerArguments := strings_Join msgParts_1 " " in
    let handlerPath := filepath_Join env (handlersDir th) eventName in
    if IsNotExist env handlerPath then
      Ok (Return None, th, [Stat handlerPath])
    else
      let run := Output handlerPath [handlerArguments] (handlersDir th) in
      match cmd_Output env handlerPath [handlerArguments] (handlersDir th) with
      | Some err => Ok (Return None, th, [Stat handlerPath; run])
      | None =>
        if (0 <? totalMessages th) && (totalMessages th <=? messagesShown th)
        then Ok (os_Exit 0, th, [Stat handlerPath; run])
        else Ok (Return None, th, [Stat handlerPath; run])
      end
  end.

(** HandleMessage called on the messages one after the other, until a
    call ends the process: whether it did, the router, what was done, and
    the messages not handled. *)
Fixpoint handle (env : Env) (th : EventRouter) (msgs : list Message.Message)
  : outcome (bool * EventRouter * list Action * list Message.Message) :=
  match msgs with
  | [] => Ok (false, th, [], [])
  | m :: msgs =>
    match HandleMessage env th m with
    | Ok (Return _, th, did) =>
      match handle env th msgs with
      | Ok (exited, th, did', rest) => Ok (exited, th, did ++ did', rest)
      | Err e => Err e
      | Panic reason => Panic reason
      end
    | Ok (os_Exit _, th, did) => Ok (true, th, did, msgs)
    | Err e => Err e
    | Panic reason => Panic reason
    end
  end.

(** *** Reading a message *)

(** The first word of the body of a message, and what follows its first
    space. *)
Definition eventName (m : Message.Message) : string :=
  fst (strings_Split_parts (string_of_bytes (Message.Body m)) " ").

Definition handlerArguments (m : Message.Message) : string :=
  strings_Join (snd (strings_Split_parts (string_of_bytes (Message.Body m))
                       " ")) " ".

(** Whether the handler of a message is found and runs without error. *)
Definition succeeds (env : Env) (dir : string) (m : Message.Message) : bool :=
  let handlerPath := filepath_Join env dir (eventName m) in
  negb (IsNotExist env handlerPath)
  && bool_decide (cmd_Output env handlerPath [handlerArguments m] dir = None).

(** What one call does to the outside. *)
Definition dispatch (env : Env) (dir : string) (m : Message.Message)
  : list Action :=
  let handlerPath := filepath_Join env dir (eventName m) in
  if IsNotExist env handlerPath then [Stat handlerPath]
  else [Stat handlerPath; Output handlerPath [handlerArguments m] dir].

End EventRouter.

(** ** nsq_trigger: the publisher of event messages *)

Module Trigger.

(** What nsq_trigger does to the outside. *)
Inductive Action : Type :=
| Println (text : string)
| Post (url contentType : string) (body : bytes).   (* http.Post *)

(** How the process ends. *)
Inductive Ended : Type :=
| Return
| os_Exit (code : Z).

(** [func failWithUsage()] *)
Definition failWithUsage : Ended * list Action :=
  let flags := "[--topic=events] [--nsqd-http-address=127.0.0.1:4151]" in
  let arguments := "<event_name> [<event_body>]" in
  (os_Exit 1,
   [Println ("e.g: nsq_trigger " +:+ flags +:+ " " +:+ arguments)]).

(** [func main()] after [flag.Parse()]: [args] is [flag.Args()], [topic]
    and [nsqdHTTPAddrs] are the values of the two flags, and [response] is
    the body of the response to the POST, [None] when http.Post returns an
    error and no response. *)
Definition main (args : list string) (topic nsqdHTTPAddrs : string)
    (response : option string) : outcome (Ended * list Action) :=
  if (length args =? 0)%nat then
    let '(ended, printed) := failWithUsage in
    Ok (ended,
        Println "At least the event name is required as non-flag argument"
        :: printed)
  else
    let eventBody := EventRouter.strings_Join args " " in
    let topic := if bool_decide (topic = "") then "events" else topic in
    let nsqdHTTPAddrs :=
      if bool_decide (nsqdHTTPAddrs = "") then "127.0.0.1:4151"
      else nsqdHTTPAddrs in
    let url := "http://" +:+ nsqdHTTPAddrs +:+ "/put?topic=" +:+ topic in
    let body := bytes_of_string eventBody in
    let post := Post url "text/plain" body in
    match response with
    | None => Panic "nil pointer dereference"
    | Some response =>
      Ok (Return, [post; Println (nsqdHTTPAddrs +:+ ": " +:+ response)])
    end.

End Trigger.

(** ** Sample inputs *)

Definition sample_message : Message.Message :=
  {| Message.Id := bytes_of_string "0123456789abcdef";
     Message.Body := bytes_of_string "append hello world";
     Message.Timestamp := -1414717200000000000;
     Message.Attempts := 65535;
     Message.exitChan := None; Message.cmdChan := None;
     Message.responseChan := None |}.

(** A connection after a handshake without upgrades, with one message of
    credit. *)
Definition sample_conn : Conn.Conn :=
  {| Conn.messagesInFlight := 0; Conn.maxRdyCount := 2500;
     Conn.rdyCount := 1; Conn.lastRdyCount := 1;
     Conn.lastMsgTimestamp := 0; Conn.netConn := true;
     Conn.tlsConn := None; Conn.r := Conn.BufioReader Conn.NetConn;
     Conn.w := Conn.NetConn; Conn.flateWriter := None;
     Conn.backoffCounter := 0; Conn.finishedMessages := 1%nat;
     Conn.cmdChan := 2%nat; Conn.exitChan := 3%nat;
     Conn.exitChan_closed := false; Conn.DeflateLevel := 6;
     Conn.stopFlag := 0; Conn.stopper := false; Conn.wg := 2;
     Conn.readLoopRunning := 1 |}.

(** A new connection, before Connect. *)
Definition sample_new_conn : Conn.Conn :=
  {| Conn.messagesInFlight := 0; Conn.maxRdyCount := 2500;
     Conn.rdyCount := 0; Conn.lastRdyCount := 0;
     Conn.lastMsgTimestamp := 0; Conn.netConn := false;
     Conn.tlsConn := None; Conn.r := Conn.NetConn;
     Conn.w := Conn.NetConn; Conn.flateWriter := None;
     Conn.backoffCounter := 0; Conn.finishedMessages := 1%nat;
     Conn.cmdChan := 2%nat; Conn.exitChan := 3%nat;
     Conn.exitChan_closed := false; Conn.DeflateLevel := 6;
     Conn.stopFlag := 0; Conn.stopper := false; Conn.wg := 0;
     Conn.readLoopRunning := 0 |}.

(** A healthy network and a server that grants TLS and Deflate. *)
Definition sample_env : Conn.Env :=
  {| Conn.dial_result := None; Conn.magic_result := None;
     Conn.Identify_result := None; Conn.write_result := fun _ => None;
     Conn.json_Unmarshal := fun _ =>
       inl {| Conn.MaxRdyCount := 2500; Conn.TLSv1 := true;
              Conn.Deflate := true; Conn.Snappy := false |};
     Conn.tls_Handshake := None;
     Conn.now := fun k => 1414717200000000000 + Z.of_nat k |}.

(** The same network, on which every write fails. *)
Definition sample_env_broken_pipe : Conn.Env :=
  {| Conn.dial_result := None; Conn.magic_result := None;
     Conn.Identify_result := None;
     Conn.write_result := fun _ => Some (ErrNet "broken pipe");
     Conn.json_Unmarshal := Conn.json_Unmarshal sample_env;
     Conn.tls_Handshake := None; Conn.now := Conn.now sample_env |}.

Definition sample_world (c : Conn.Conn) (frames : list Conn.ReadResult)
  : Conn.World :=
  {| Conn.conn := c; Conn.incoming := frames; Conn.sent := 0%nat;
     Conn.ticks := 0%nat; Conn.trace := [] |}.

(** The capabilities [sample_env] parses from the first response. *)
Definition sample_capabilities : Conn.IdentifyResponse :=
  {| Conn.MaxRdyCount := 2500; Conn.TLSv1 := true; Conn.Deflate := true;
     Conn.Snappy := false |}.

Definition sample_json : bytes := bytes_of_string "{}".

(** A goroutine publishes [body] on the topic "events" and is let
    through to the router. *)
Definition sample_call (body : string)
  : Writer.M (Writer.Called (option error)) :=
  Writer.sendCommandAsync (PUB "events" (bytes_of_string body)) (Some 7%nat) []
    (Ok None) Writer.CaseSend.

(** A Writer after its first publish (it has connected), and after two
    more. *)
Definition sample_writer_1 : Writer.Sys :=
  Writer.run (sample_call "append a") Writer.initial.
Definition sample_writer_2 : Writer.Sys :=
  Writer.run (sample_call "append b") sample_writer_1.
Definition sample_writer_3 : Writer.Sys :=
  Writer.run (sample_call "append c") sample_writer_2.

(** The three transactions reach the router; the broker rejects the
    first and accepts the second while the third is still on its way. *)
Definition sample_events : list Writer.RouterEvent :=
  [Writer.RecvTransaction 0%nat None; Writer.RecvTransaction 1%nat None;
   Writer.RecvError (bytes_of_string "E_BAD_TOPIC"); Writer.RecvHeartbeat;
   Writer.RecvTransaction 2%nat None;
   Writer.RecvResponse (bytes_of_string "OK")].

(** A fourth goroutine publishes and stays blocked in the select. *)
Definition sample_writer_4 : Writer.Sys :=
  Writer.run
    (Writer.sendCommandAsync (PUB "events" (bytes_of_string "append d"))
       (Some 7%nat) [] (Ok None) Writer.CaseExit)
    sample_writer_3.

(** Then the connection closes.  The cleanup receives the transaction of
    the fourth sender, finds it still inside sendCommandAsync, sleeps, and
    returns once the sender has left. *)
Definition sample_shutdown : list Writer.RouterEvent :=
  sample_events ++ [Writer.RecvIOError EOF; Writer.RecvClose].

Definition sample_cleanup : list Writer.CleanupEvent :=
  [Writer.CleanupRecv 3%nat; Writer.CleanupDefault; Writer.SenderLeave;
   Writer.CleanupDefault].

(** The first Writer, stopped. *)
Definition sample_stopped : Writer.Sys :=
  Writer.run Writer.Stop sample_writer_1.

(** A MultiPublish that encodes every batch. *)
Definition sample_MultiPublish (topic : string) (bodies : list bytes)
  : outcome Command :=
  Ok (MPUB topic bodies).

(** Three lookupd: the first two answer, the third cannot be reached. *)
Definition sample_ApiRequest (endpoint : string) : list string + error :=
  if bool_decide (endpoint = "http://a:4161/topics")
  then inl ["events"; "audit"]
  else if bool_decide (endpoint = "http://b:4161/topics")
  then inl ["metrics"; "events"]
  else inr (ErrNet "connection refused").

(** [sample_message] as it travels in a message frame. *)
Definition sample_data : bytes :=
  match Message.EncodeBytes sample_message with
  | Ok data => data
  | _ => []
  end.

(** What a server sends: a message, then the answer to a command. *)
Definition sample_frames : list Conn.ReadResult :=
  [Conn.Frame FrameTypeMessage sample_data;
   Conn.Frame FrameTypeResponse Conn.OK].

(** A consumer's answer to [sample_message]: finished, or to requeue
    after a second. *)
Definition sample_finished (ok : bool) : FinishedMessage :=
  {| Id := Message.Id sample_message; RequeueDelayMs := 1000;
     Success := ok |}.

(** The loops of [sample_conn] with [n] messages in flight. *)
Definition sample_pump (n : Z) : Conn.Pump :=
  {| Conn.world :=
       sample_world (Conn.set_messagesInFlight n sample_conn) [];
     Conn.drainReady_closed := false; Conn.callbacks := [] |}.

(** What writeLoop meets: a finished message, a message readLoop
    delivers, a command, then the close of exitChan (what follows is not
    received). *)
Definition sample_write_events : list Conn.WriteEvent :=
  [Conn.RecvFinishedMessage (sample_finished true); Conn.Delivered;
   Conn.RecvCmd NOP; Conn.RecvExitChan;
   Conn.RecvFinishedMessage (sample_finished false)].

(** The same after writeLoop has closed drainReady; [running] is
    readLoopRunning. *)
Definition sample_draining (running n : Z) : Conn.Pump :=
  {| Conn.world :=
       sample_world
         (Conn.set_readLoopRunning running
            (Conn.set_messagesInFlight n sample_conn)) [];
     Conn.drainReady_closed := true; Conn.callbacks := [] |}.

(** What cleanup meets while readLoop is on its way out. *)
Definition sample_drain_events : list Conn.DrainEvent :=
  [Conn.DrainFinishedMessage; Conn.DrainFinishedMessage; Conn.DrainTick;
   Conn.DrainReadLoopExits; Conn.DrainTick].

(** [sample_conn] after its readLoop met the end of the stream with no
    message in flight. *)
Definition sample_closing : Conn.World :=
  Conn.readLoop_exit
    (snd (Conn.readLoop_iter sample_env (sample_world sample_conn []))).

(** The first Writer after it lost its connection and its router has
    exited. *)
Definition sample_disconnected : Writer.Sys :=
  Writer.run
    (Writer.router [Writer.RecvIOError EOF; Writer.RecvClose]
       [Writer.CleanupDefault])
    sample_writer_1.

(** A router that exits after two messages, and a directory with the one
    handler "append", which succeeds. *)
Definition sample_router : EventRouter.EventRouter :=
  {| EventRouter.totalMessages := 2; EventRouter.messagesShown := 0;
     EventRouter.handlersDir := "/etc/handlers" |}.

Definition sample_handlers : EventRouter.Env :=
  {| EventRouter.filepath_Join := fun dir name => dir +:+ "/" +:+ name;
     EventRouter.IsNotExist := fun path =>
       negb (bool_decide (path = "/etc/handlers/append"));
     EventRouter.cmd_Output := fun _ _ _ => None |}.

(** ** Properties of the codec *)

Lemma Z_of_byte_range (b : byte) : 0 <= Z_of_byte b < 256.
Proof.
  unfold Z_of_byte. pose proof (Byte.to_N_bounded b). lia.
Qed.

Lemma Z_of_byte_of_Z (z : Z) : Z_of_byte (byte_of_Z z) = z mod 256.
Proof.
  unfold Z_of_byte, byte_of_Z.
  assert (Hr : 0 <= z mod 256 < 256) by (apply Z.mod_pos_bound; lia).
  pose proof (Byte.to_of_N_option_map (Z.to_N (z mod 256))) as Hm.
  destruct (Byte.of_N (Z.to_N (z mod 256))) as [b|] eqn:Hb; simpl in *.
  - destruct (_ <=? _)%N; [|discriminate]. injection Hm as ->. lia.
  - destruct (N.leb_spec (Z.to_N (z mod 256)) 255); [discriminate | lia].
Qed.

Lemma land_shiftl_byte (a b : Z) :
  0 <= b < 256 -> Z.land (Z.shiftl a 8) b = 0.
Proof.
  intros Hb. apply Z.bits_inj'. intros n Hn.
  rewrite Z.land_spec, Z.bits_0.
  destruct (Z.ltb_spec n 8).
  - rewrite Z.shiftl_spec_low by lia. reflexivity.
  - rewrite (Z.bits_above_log2 b n); [apply andb_false_r | lia |].
    destruct (Z.eq_dec b 0) as [->|]; [simpl; lia|].
    apply Z.log2_lt_pow2; [lia|].
    apply Z.lt_le_trans with (2 ^ 8); [simpl; lia | apply Z.pow_le_mono_r; lia].
Qed.

Lemma lor_shiftl_byte (a b : Z) :
  0 <= b < 256 -> Z.lor (Z.shiftl a 8) b = a * 256 + b.
Proof.
  intros Hb. pose proof (land_shiftl_byte a b Hb) as Hland.
  rewrite <- Z.lxor_lor by exact Hland.
  rewrite <- Z.add_nocarry_lxor by exact Hland.
  rewrite Z.shiftl_mul_pow2 by lia. reflexivity.
Qed.

Lemma BigEndian_put_length (n : nat) (v : Z) : length (BigEndian_put n v) = n.
Proof. induction n as [|k IH]; simpl; [reflexivity | now rewrite IH]. Qed.

Lemma BigEndian_fold_put (n : nat) (v acc : Z) :
  fold_left (fun acc b => Z.lor (Z.shiftl acc 8) (Z_of_byte b))
            (BigEndian_put n v) acc
  = acc * 2 ^ (8 * Z.of_nat n) + v mod 2 ^ (8 * Z.of_nat n).
Proof.
  revert acc. induction n as [|k IH]; intros acc.
  - simpl. rewrite Z.mod_1_r. lia.
  - cbn [BigEndian_put fold_left]. rewrite IH.
    rewrite lor_shiftl_byte by apply Z_of_byte_range.
    rewrite Z_of_byte_of_Z, Z.shiftr_div_pow2 by lia.
    replace (8 * Z.of_nat (S k)) with (8 * Z.of_nat k + 8) by lia.
    rewrite Z.pow_add_r by lia. change (2 ^ 8) with 256.
    assert (Hp : 0 < 2 ^ (8 * Z.of_nat k)) by (apply Z.pow_pos_nonneg; lia).
    rewrite (Z.rem_mul_r v (2 ^ (8 * Z.of_nat k)) 256) by lia.
    ring.
Qed.

Lemma BigEndian_uint_put (n : nat) (v : Z) :
  BigEndian_uint (BigEndian_put n v) = v mod 2 ^ (8 * Z.of_nat n).
Proof. unfold BigEndian_uint. rewrite BigEndian_fold_put. lia. Qed.

Lemma to_signed_mod (w v : Z) :
  0 < w -> - 2 ^ (w - 1) <= v < 2 ^ (w - 1) -> to_signed w (v mod 2 ^ w) = v.
Proof.
  intros Hw Hv. unfold to_signed.
  assert (Hpow : 2 ^ w = 2 * 2 ^ (w - 1)).
  { replace w with (w - 1 + 1) at 1 by lia. rewrite Z.pow_add_r by lia. lia. }
  destruct (Z.neg_nonneg_cases v) as [Hneg|Hpos].
  - assert (Hm : v mod 2 ^ w = v + 2 ^ w).
    { symmetry. apply (Z.mod_unique_pos v (2 ^ w) (-1)); lia. }
    rewrite Hm. destruct (Z.ltb_spec (v + 2 ^ w) (2 ^ (w - 1))); lia.
  - rewrite Z.mod_small by lia.
    destruct (Z.ltb_spec v (2 ^ (w - 1))); lia.
Qed.

Lemma io_ReadFull_app (p rest : bytes) :
  io_ReadFull (p ++ rest) (length p) = (Ok p, rest).
Proof.
  unfold io_ReadFull. destruct p as [|b p].
  - reflexivity.
  - rewrite decide_False by (simpl; lia).
    rewrite decide_False by (simpl; lia).
    rewrite decide_False by (rewrite length_app; lia).
    now rewrite take_app_length, drop_app_length.
Qed.

Lemma binary_Read_put (n : nat) (v : Z) (rest : bytes) :
  binary_Read (BigEndian_put n v ++ rest) n
  = (Ok (v mod 2 ^ (8 * Z.of_nat n)), rest).
Proof.
  unfold binary_Read.
  rewrite <- (BigEndian_put_length n v) at 2.
  now rewrite io_ReadFull_app, BigEndian_uint_put.
Qed.

(** The layout [EncodeBytes] produces: timestamp, attempts, id, body. *)
Lemma EncodeBytes_layout (m : Message.Message) :
  Message.EncodeBytes m
  = Ok (BigEndian_put 8 (Message.Timestamp m)
        ++ BigEndian_put 2 (Message.Attempts m)
        ++ Message.Id m ++ Message.Body m).
Proof.
  unfold Message.EncodeBytes, Message.Write, binary_Write, io_Write,
    Buffer_IoWriter.
  cbn [app]. now rewrite <- !app_assoc.
Qed.

(** C3. Round trip: [EncodeBytes] succeeds on every Message value, and
    [DecodeMessage] applied to the bytes it produced returns a Message
    with the same id, body, timestamp and attempts. *)
Theorem DecodeMessage_EncodeBytes (m : Message.Message) :
  Message.wf m ->
  exists bs m',
    Message.EncodeBytes m = Ok bs
    /\ Message.DecodeMessage bs = Ok m'
    /\ Message.Id m' = Message.Id m
    /\ Message.Body m' = Message.Body m
    /\ Message.Timestamp m' = Message.Timestamp m
    /\ Message.Attempts m' = Message.Attempts m.
Proof.
  intros (Hid & Hts & Hat).
  eexists _, _. split; [apply EncodeBytes_layout|].
  unfold Message.DecodeMessage.
  rewrite binary_Read_put, binary_Read_put.
  rewrite <- Hid, io_ReadFull_app.
  split; [reflexivity|]. cbn.
  repeat split.
  - apply (to_signed_mod 64); [lia | exact Hts].
  - apply Z.mod_small. exact Hat.
Qed.

Example sample_message_roundtrip :
  match Message.EncodeBytes sample_message with
  | Ok bs => length bs = 44%nat /\ Message.DecodeMessage bs = Ok sample_message
  | _ => False
  end.
Proof. vm_compute. split; reflexivity. Qed.

Lemma DecodeMessage_EncodeBytes_witness :
  Message.wf sample_message /\
  exists bs m',
    Message.EncodeBytes sample_message = Ok bs
    /\ Message.DecodeMessage bs = Ok m'
    /\ Message.Id m' = Message.Id sample_message
    /\ Message.Body m' = Message.Body sample_message
    /\ Message.Timestamp m' = Message.Timestamp sample_message
    /\ Message.Attempts m' = Message.Attempts sample_message.
Proof.
  split.
  - unfold Message.wf; cbn; repeat split; lia.
  - apply (DecodeMessage_EncodeBytes sample_message).
    unfold Message.wf; cbn; repeat split; lia.
Defined.

(** ** Properties of readLoop *)

Lemma AddInt64_in_range (v delta : Z) :
  - 2 ^ 63 <= v + delta < 2 ^ 63 -> AddInt64 v delta = v + delta.
Proof. intros H. unfold AddInt64, int64. apply to_signed_mod; lia. Qed.

Lemma io_ReadFull_enough (buf : bytes) (n : nat) :
  (0 < n <= length buf)%nat ->
  io_ReadFull buf n = (Ok (take n buf), drop n buf).
Proof.
  intros H. unfold io_ReadFull.
  rewrite !decide_False by lia. reflexivity.
Qed.

(** A payload decodes as soon as it holds the 26 bytes of timestamp,
    attempts and id. *)
Lemma DecodeMessage_enough (data : bytes) :
  (26 <= length data)%nat ->
  exists msg, Message.DecodeMessage data = Ok msg.
Proof.
  intros H. unfold Message.DecodeMessage, binary_Read, Message.MsgIdLength.
  rewrite io_ReadFull_enough by lia.
  rewrite io_ReadFull_enough by (rewrite length_drop; lia).
  rewrite io_ReadFull_enough by (rewrite !length_drop; lia).
  eexists. reflexivity.
Qed.

(** What ReadUnpackedResponse does when a frame is waiting. *)
Lemma ReadUnpackedResponse_cons (s : Conn.World) res rest :
  Conn.incoming s = res :: rest ->
  Conn.ReadUnpackedResponse s
  = (res, {| Conn.conn := Conn.conn s; Conn.incoming := rest;
             Conn.sent := Conn.sent s; Conn.ticks := Conn.ticks s;
             Conn.trace := Conn.trace s
                           ++ [Conn.ReadFrom (Conn.r (Conn.conn s))] |}).
Proof.
  intros H. unfold Conn.ReadUnpackedResponse. simpl. rewrite H. reflexivity.
Qed.

(** An iteration that leaves the loop ends readLoop, whatever is left of
    the fuel. *)
Lemma readLoop_Exit env (fuel : nat) (s s' : Conn.World) :
  Conn.readLoop_iter env s = (Conn.Exit, s') ->
  Conn.readLoop env (S fuel) s = Some (Conn.readLoop_exit s').
Proof. intros H. simpl. rewrite H. reflexivity. Qed.

Lemma readLoop_Continue env (fuel : nat) (s s' : Conn.World) :
  Conn.readLoop_iter env s = (Conn.Continue, s') ->
  Conn.readLoop env (S fuel) s = Conn.readLoop env fuel s'.
Proof. intros H. simpl. rewrite H. reflexivity. Qed.

(** Every iteration that continues has consumed a frame. *)
Lemma readLoop_iter_consumes env (s s' : Conn.World) :
  Conn.readLoop_iter env s = (Conn.Continue, s') ->
  S (length (Conn.incoming s')) = length (Conn.incoming s).
Proof.
  unfold Conn.readLoop_iter.
  destruct (Conn.stopFlag (Conn.conn s) =? 1); [discriminate|].
  unfold Conn.ReadUnpackedResponse. simpl.
  destruct (Conn.incoming s) as [|[frameType data|err] rest]; simpl;
    try discriminate.
  repeat (match goal with
          | |- context [if ?b then _ else _] => destruct b
          | |- context [match Message.DecodeMessage ?d with _ => _ end] =>
              destruct (Message.DecodeMessage d)
          | |- context [match Conn.write_result ?e ?k with _ => _ end] =>
              destruct (Conn.write_result e k)
          end; simpl);
    intros [= <-]; reflexivity.
Qed.

(** readLoop returns: the frames the peer sends bound its iterations. *)
Lemma readLoop_terminates env (s : Conn.World) :
  exists s', Conn.readLoop env (S (length (Conn.incoming s))) s = Some s'.
Proof.
  remember (length (Conn.incoming s)) as n eqn:Hn.
  revert s Hn. induction n as [|n IH]; intros s Hn.
  - destruct (Conn.readLoop_iter env s) as [[] s'] eqn:Hit.
    + apply readLoop_iter_consumes in Hit. lia.
    + eexists. apply readLoop_Exit. exact Hit.
  - destruct (Conn.readLoop_iter env s) as [[] s'] eqn:Hit.
    + rewrite (readLoop_Continue _ _ _ _ Hit). apply IH.
      apply readLoop_iter_consumes in Hit. lia.
    + eexists. apply readLoop_Exit. exact Hit.
Qed.

(** C7. A response frame whose payload is the heartbeat sentinel makes
    readLoop call the heartbeat callback and send a NOP command through
    the connection's write path, and nothing else: the frame reaches
    neither the response nor the message callback.  When the NOP is
    written the loop continues with the next frame; when writing it fails
    the error goes to the IO-error callback and readLoop terminates. *)
Theorem readLoop_heartbeat env (s : Conn.World) (rest : list Conn.ReadResult) :
  Conn.stopFlag (Conn.conn s) <> 1 ->
  Conn.incoming s = Conn.Frame FrameTypeResponse Conn.heartbeat :: rest ->
  let c := Conn.conn s in
  let answered :=
    Conn.trace s ++ [Conn.ReadFrom (Conn.r c); Conn.HeartbeatCB c;
                     Conn.Sent (Conn.w c) NOP] in
  let after (tr : list Conn.Action) :=
    {| Conn.conn := c; Conn.incoming := rest; Conn.sent := S (Conn.sent s);
       Conn.ticks := Conn.ticks s; Conn.trace := tr |} in
  match Conn.write_result env (Conn.sent s) with
  | None =>
    Conn.readLoop_iter env s = (Conn.Continue, after answered)
    /\ forall fuel,
         Conn.readLoop env (S fuel) s = Conn.readLoop env fuel (after answered)
  | Some err =>
    Conn.readLoop_iter env s
    = (Conn.Exit, after (answered ++ [Conn.IOErrorCB c err]))
    /\ forall fuel,
         Conn.readLoop env (S fuel) s
         = Some (Conn.readLoop_exit
                   (after (answered ++ [Conn.IOErrorCB c err])))
  end.
Proof.
  intros Hstop Hin c answered after.
  assert (Hiter : Conn.readLoop_iter env s
    = match Conn.write_result env (Conn.sent s) with
      | None => (Conn.Continue, after answered)
      | Some err => (Conn.Exit, after (answered ++ [Conn.IOErrorCB c err]))
      end).
  { unfold Conn.readLoop_iter.
    destruct (Z.eqb_spec (Conn.stopFlag (Conn.conn s)) 1) as [|_]; [done|].
    rewrite (ReadUnpackedResponse_cons s _ _ Hin).
    rewrite Z.eqb_refl, bool_decide_eq_true_2 by reflexivity.
    cbn -[Conn.heartbeat].
    destruct (Conn.write_result env (Conn.sent s)); subst after answered c;
      unfold Conn.emit; cbn; rewrite <- ?app_assoc; reflexivity. }
  destruct (Conn.write_result env (Conn.sent s)) as [err|]; split;
    try exact Hiter; intros fuel.
  - apply readLoop_Exit. exact Hiter.
  - apply readLoop_Continue. exact Hiter.
Qed.

Lemma readLoop_heartbeat_witness :
  Conn.readLoop_iter sample_env
    (sample_world sample_conn
       [Conn.Frame FrameTypeResponse Conn.heartbeat])
  = (Conn.Continue,
     {| Conn.conn := sample_conn; Conn.incoming := []; Conn.sent := 1%nat;
        Conn.ticks := 0%nat;
        Conn.trace := [Conn.ReadFrom (Conn.BufioReader Conn.NetConn);
                       Conn.HeartbeatCB sample_conn;
                       Conn.Sent Conn.NetConn NOP] |})
  /\ exists s',
       Conn.readLoop sample_env_broken_pipe 1
         (sample_world sample_conn
            [Conn.Frame FrameTypeResponse Conn.heartbeat]) = Some s'
       /\ Conn.trace s'
          = [Conn.ReadFrom (Conn.BufioReader Conn.NetConn);
             Conn.HeartbeatCB sample_conn;
             Conn.Sent Conn.NetConn NOP;
             Conn.IOErrorCB sample_conn (ErrNet "broken pipe");
             Conn.CloseExitChan; Conn.GoCleanup; Conn.GoWaitForCleanup].
Proof.
  split.
  - apply (readLoop_heartbeat sample_env
             (sample_world sample_conn
                [Conn.Frame FrameTypeResponse Conn.heartbeat]) []).
    + simpl. lia.
    + reflexivity.
  - eexists. split.
    + apply (readLoop_heartbeat sample_env_broken_pipe
               (sample_world sample_conn
                  [Conn.Frame FrameTypeResponse Conn.heartbeat]) []).
      * simpl. lia.
      * reflexivity.
    + reflexivity.
Defined.

(** C4 (what the code does). A frame whose type is none of response,
    error and message is reported to the IO-error callback as an unknown
    frame type, but readLoop does not leave its loop: it goes on to read
    the next frame, and the close sequence is not started. *)
Theorem readLoop_unknown_frame_type env (s : Conn.World)
    (frameType : Z) (data : bytes) (rest : list Conn.ReadResult) :
  Conn.stopFlag (Conn.conn s) <> 1 ->
  Conn.incoming s = Conn.Frame frameType data :: rest ->
  frameType <> FrameTypeResponse ->
  frameType <> FrameTypeError ->
  frameType <> FrameTypeMessage ->
  let c := Conn.conn s in
  let s' :=
    {| Conn.conn := c; Conn.incoming := rest; Conn.sent := Conn.sent s;
       Conn.ticks := Conn.ticks s;
       Conn.trace :=
         Conn.trace s
         ++ [Conn.ReadFrom (Conn.r c);
             Conn.IOErrorCB c (ErrUnknownFrameType frameType)] |} in
  Conn.readLoop_iter env s = (Conn.Continue, s')
  /\ forall fuel, Conn.readLoop env (S fuel) s = Conn.readLoop env fuel s'.
Proof.
  intros Hstop Hin Hr He Hm c s'.
  assert (Hiter : Conn.readLoop_iter env s = (Conn.Continue, s')).
  { unfold Conn.readLoop_iter.
    destruct (Z.eqb_spec (Conn.stopFlag (Conn.conn s)) 1) as [|_]; [done|].
    rewrite (ReadUnpackedResponse_cons s _ _ Hin).
    destruct (Z.eqb_spec frameType FrameTypeResponse) as [|_]; [done|].
    destruct (Z.eqb_spec frameType FrameTypeMessage) as [|_]; [done|].
    destruct (Z.eqb_spec frameType FrameTypeError) as [|_]; [done|].
    subst s' c. unfold Conn.emit; cbn. rewrite <- ?app_assoc. reflexivity. }
  split; [exact Hiter|]. intros fuel. apply readLoop_Continue. exact Hiter.
Qed.

Lemma readLoop_unknown_frame_type_witness :
  Conn.readLoop sample_env 3
    (sample_world sample_conn
       [Conn.Frame 3 []; Conn.Frame FrameTypeResponse Conn.OK])
  = Conn.readLoop sample_env 2
      {| Conn.conn := sample_conn;
         Conn.incoming := [Conn.Frame FrameTypeResponse Conn.OK];
         Conn.sent := 0%nat; Conn.ticks := 0%nat;
         Conn.trace := [Conn.ReadFrom (Conn.BufioReader Conn.NetConn);
                        Conn.IOErrorCB sample_conn (ErrUnknownFrameType 3)] |}.
Proof.
  apply (readLoop_unknown_frame_type sample_env
           (sample_world sample_conn
              [Conn.Frame 3 []; Conn.Frame FrameTypeResponse Conn.OK])
           3 [] [Conn.Frame FrameTypeResponse Conn.OK]).
  - simpl. lia.
  - reflexivity.
  - unfold FrameTypeResponse. lia.
  - unfold FrameTypeError. lia.
  - unfold FrameTypeMessage. lia.
Defined.

(** The run at the failing input of C4: after the frame of type 3 the
    loop is still reading, and hands the response that follows to the
    response callback; it ends only when the read deadline passes. *)
Example readLoop_after_unknown_frame_type :
  option_map Conn.trace
    (Conn.readLoop sample_env 3
       (sample_world sample_conn
          [Conn.Frame 3 []; Conn.Frame FrameTypeResponse Conn.OK]))
  = Some [Conn.ReadFrom (Conn.BufioReader Conn.NetConn);
          Conn.IOErrorCB sample_conn (ErrUnknownFrameType 3);
          Conn.ReadFrom (Conn.BufioReader Conn.NetConn);
          Conn.ResponseCB sample_conn Conn.OK;
          Conn.ReadFrom (Conn.BufioReader Conn.NetConn);
          Conn.IOErrorCB sample_conn ErrTimeout;
          Conn.CloseExitChan; Conn.GoCleanup; Conn.GoWaitForCleanup].
Proof. reflexivity. Qed.

(** For comparison, the sibling path: a message frame that does not
    decode is reported to the same callback and ends the loop at once. *)
Example readLoop_after_decode_error :
  option_map Conn.trace
    (Conn.readLoop sample_env 1
       (sample_world sample_conn
          [Conn.Frame FrameTypeMessage [];
           Conn.Frame FrameTypeResponse Conn.OK]))
  = Some [Conn.ReadFrom (Conn.BufioReader Conn.NetConn);
          Conn.IOErrorCB sample_conn EOF;
          Conn.CloseExitChan; Conn.GoCleanup; Conn.GoWaitForCleanup].
Proof. reflexivity. Qed.

(** C9 (amended). On a message frame whose payload decodes, and it does
    as soon as it holds the 26 bytes of timestamp, attempts and id,
    readLoop changes exactly three fields of the connection before it
    calls the message callback: rdyCount is decremented by one,
    messagesInFlight is incremented by one (int64 arithmetic) and
    lastMsgTimestamp is set to the current time; the callback is passed
    the connection so updated, and the message with the connection's
    channels. *)
Theorem readLoop_message_frame env (s : Conn.World) (data : bytes)
    (rest : list Conn.ReadResult) :
  Conn.stopFlag (Conn.conn s) <> 1 ->
  Conn.incoming s = Conn.Frame FrameTypeMessage data :: rest ->
  (26 <= length data)%nat ->
  let c := Conn.conn s in
  let c' :=
    Conn.set_lastMsgTimestamp (Conn.now env (Conn.ticks s))
      (Conn.set_messagesInFlight (AddInt64 (Conn.messagesInFlight c) 1)
         (Conn.set_rdyCount (AddInt64 (Conn.rdyCount c) (-1)) c)) in
  exists msg,
    Message.DecodeMessage data = Ok msg
    /\ Conn.readLoop_iter env s
       = (Conn.Continue,
          {| Conn.conn := c'; Conn.incoming := rest; Conn.sent := Conn.sent s;
             Conn.ticks := S (Conn.ticks s);
             Conn.trace :=
               Conn.trace s ++ [Conn.ReadFrom (Conn.r c);
                                Conn.MessageCB c' (Conn.with_chans c msg)] |})
    /\ Conn.messagesInFlight c' = AddInt64 (Conn.messagesInFlight c) 1
    /\ Conn.rdyCount c' = AddInt64 (Conn.rdyCount c) (-1)
    /\ Conn.lastMsgTimestamp c' = Conn.now env (Conn.ticks s)
    /\ Conn.maxRdyCount c' = Conn.maxRdyCount c
    /\ Conn.lastRdyCount c' = Conn.lastRdyCount c
    /\ Conn.backoffCounter c' = Conn.backoffCounter c
    /\ (Conn.messagesInFlight c < 2 ^ 63 - 1 ->
        - 2 ^ 63 <= Conn.messagesInFlight c ->
        Conn.messagesInFlight c' = Conn.messagesInFlight c + 1)
    /\ (- 2 ^ 63 < Conn.rdyCount c -> Conn.rdyCount c < 2 ^ 63 ->
        Conn.rdyCount c' = Conn.rdyCount c - 1).
Proof.
  intros Hstop Hin Hlen c c'.
  destruct (DecodeMessage_enough data Hlen) as [msg Hmsg].
  exists msg. split; [exact Hmsg|]. split.
  - unfold Conn.readLoop_iter.
    destruct (Z.eqb_spec (Conn.stopFlag (Conn.conn s)) 1) as [|_]; [done|].
    rewrite (ReadUnpackedResponse_cons s _ _ Hin).
    change (FrameTypeMessage =? FrameTypeResponse) with false.
    change (FrameTypeMessage =? FrameTypeMessage) with true.
    cbn [andb]. rewrite Hmsg.
    subst c' c. unfold Conn.emit, Conn.UnixNano, Conn.with_conn; cbn.
    rewrite <- ?app_assoc. reflexivity.
  - repeat split; try reflexivity.
    + intros H1 H2. subst c'. cbn. apply AddInt64_in_range. lia.
    + intros H1 H2. subst c'. cbn. rewrite AddInt64_in_range; lia.
Qed.

Lemma readLoop_message_frame_witness :
  exists msg s',
    Message.DecodeMessage
      (BigEndian_put 8 1414717200000000000 ++ BigEndian_put 2 1
       ++ bytes_of_string "0123456789abcdef" ++ bytes_of_string "append x")
    = Ok msg
    /\ Conn.readLoop_iter sample_env
         (sample_world sample_conn
            [Conn.Frame FrameTypeMessage
               (BigEndian_put 8 1414717200000000000 ++ BigEndian_put 2 1
                ++ bytes_of_string "0123456789abcdef"
                ++ bytes_of_string "append x")])
       = (Conn.Continue, s')
    /\ Conn.messagesInFlight (Conn.conn s') = 1
    /\ Conn.rdyCount (Conn.conn s') = 0
    /\ Conn.lastMsgTimestamp (Conn.conn s') = 1414717200000000000.
Proof.
  destruct (readLoop_message_frame sample_env
              (sample_world sample_conn
                 [Conn.Frame FrameTypeMessage
                    (BigEndian_put 8 1414717200000000000 ++ BigEndian_put 2 1
                     ++ bytes_of_string "0123456789abcdef"
                     ++ bytes_of_string "append x")])
              (BigEndian_put 8 1414717200000000000 ++ BigEndian_put 2 1
               ++ bytes_of_string "0123456789abcdef"
               ++ bytes_of_string "append x") [])
    as (msg & Hmsg & Hiter & _).
  - simpl. lia.
  - reflexivity.
  - vm_compute. lia.
  - exists msg. eexists. split; [exact Hmsg|]. split; [exact Hiter|].
    repeat split; reflexivity.
Defined.

(** C9 as stated fails for a message frame that does not decode: on an
    empty payload no counter changes, the IO-error callback is called
    instead of the message callback, and the loop is left. *)
Lemma readLoop_message_frame_counterexample :
  ~ (forall env (s : Conn.World) (data : bytes) (rest : list Conn.ReadResult),
       Conn.stopFlag (Conn.conn s) <> 1 ->
       Conn.incoming s = Conn.Frame FrameTypeMessage data :: rest ->
       Conn.messagesInFlight (Conn.conn (snd (Conn.readLoop_iter env s)))
       = AddInt64 (Conn.messagesInFlight (Conn.conn s)) 1
       /\ Conn.rdyCount (Conn.conn (snd (Conn.readLoop_iter env s)))
          = AddInt64 (Conn.rdyCount (Conn.conn s)) (-1)).
Proof.
  intros H.
  destruct (H sample_env
              (sample_world sample_conn [Conn.Frame FrameTypeMessage []])
              [] []) as [Hmif _].
  - simpl. lia.
  - reflexivity.
  - vm_compute in Hmif. discriminate Hmif.
Qed.

Example readLoop_short_message_frame :
  Conn.readLoop_iter sample_env
    (sample_world sample_conn [Conn.Frame FrameTypeMessage []])
  = (Conn.Exit,
     {| Conn.conn := sample_conn; Conn.incoming := []; Conn.sent := 0%nat;
        Conn.ticks := 0%nat;
        Conn.trace := [Conn.ReadFrom (Conn.BufioReader Conn.NetConn);
                       Conn.IOErrorCB sample_conn EOF] |}).
Proof. reflexivity. Qed.

(** ** Properties of the handshake *)

Lemma reads_app tr1 tr2 :
  Conn.reads (tr1 ++ tr2) = Conn.reads tr1 ++ Conn.reads tr2.
Proof. apply omap_app. Qed.

Ltac upgrade_cases H s :=
  unfold Conn.ReadUnpackedResponse in H; cbn -[Conn.OK] in H;
  destruct (Conn.incoming s) as [|[ft d|e] rest] eqn:Hin; cbn -[Conn.OK] in H;
  [ | destruct (Z.eqb_spec ft FrameTypeResponse);
      destruct (bool_decide_reflect (d = Conn.OK)); cbn -[Conn.OK] in H | ];
  injection H as <- <-; cbn -[Conn.OK];
  rewrite ?reads_app, ?Hin; cbn -[Conn.OK]; rewrite ?app_nil_r;
  repeat split; try reflexivity; try discriminate; try congruence;
  unfold Conn.OK_frame; try (intros [=]; congruence).

Lemma upgradeTLS_spec env s res s' :
  Conn.tls_Handshake env = None ->
  Conn.upgradeTLS env s = (res, s') ->
  Conn.incoming s' = tail (Conn.incoming s)
  /\ (res = None <-> head (Conn.incoming s) = Some Conn.OK_frame)
  /\ Conn.tlsConn (Conn.conn s') = Some (Conn.TLSClient Conn.NetConn)
  /\ Conn.r (Conn.conn s') = Conn.TLSClient Conn.NetConn
  /\ Conn.w (Conn.conn s') = Conn.TLSClient Conn.NetConn
  /\ Conn.DeflateLevel (Conn.conn s') = Conn.DeflateLevel (Conn.conn s)
  /\ Conn.reads (Conn.trace s')
     = Conn.reads (Conn.trace s) ++ [Conn.TLSClient Conn.NetConn].
Proof.
  intros Hh H. unfold Conn.upgradeTLS in H. rewrite Hh in H.
  upgrade_cases H s.
Qed.

Lemma upgradeDeflate_spec lvl s res s' :
  Conn.upgradeDeflate lvl s = (res, s') ->
  let base := match Conn.tlsConn (Conn.conn s) with
              | Some tls => tls | None => Conn.NetConn end in
  Conn.incoming s' = tail (Conn.incoming s)
  /\ (res = None <-> head (Conn.incoming s) = Some Conn.OK_frame)
  /\ Conn.tlsConn (Conn.conn s') = Conn.tlsConn (Conn.conn s)
  /\ Conn.r (Conn.conn s') = Conn.FlateReader base
  /\ Conn.w (Conn.conn s') = Conn.FlateWriter base lvl
  /\ Conn.reads (Conn.trace s')
     = Conn.reads (Conn.trace s) ++ [Conn.FlateReader base].
Proof.
  intros H base. unfold Conn.upgradeDeflate in H. fold base in H.
  upgrade_cases H s.
Qed.

Lemma upgradeSnappy_spec s res s' :
  Conn.upgradeSnappy s = (res, s') ->
  let base := match Conn.tlsConn (Conn.conn s) with
              | Some tls => tls | None => Conn.NetConn end in
  Conn.incoming s' = tail (Conn.incoming s)
  /\ (res = None <-> head (Conn.incoming s) = Some Conn.OK_frame)
  /\ Conn.tlsConn (Conn.conn s') = Conn.tlsConn (Conn.conn s)
  /\ Conn.r (Conn.conn s') = Conn.SnappyReader base
  /\ Conn.w (Conn.conn s') = Conn.SnappyWriter base
  /\ Conn.reads (Conn.trace s')
     = Conn.reads (Conn.trace s) ++ [Conn.SnappyReader base].
Proof.
  intros H base. unfold Conn.upgradeSnappy in H. fold base in H.
  upgrade_cases H s.
Qed.

Lemma head_tail_take {A} (x : A) (xs l : list A) (k : nat) :
  take (S k) l = x :: xs <-> head l = Some x /\ take k (tail l) = xs.
Proof.
  destruct l as [|y l]; simpl.
  - split; [discriminate | intros [[=] _]].
  - split.
    + intros [= -> H]. auto.
    + intros [[= ->] ->]. reflexivity.
Qed.

Lemma drop_tail {A} (l : list A) (k : nat) : drop (S k) l = drop k (tail l).
Proof. destruct l; simpl; [now rewrite drop_nil | reflexivity]. Qed.

Ltac step_upgrade :=
  match goal with
  | |- context [Conn.upgradeTLS ?e ?st] =>
      let H := fresh "Hup" in
      let res := fresh "res" in
      let s' := fresh "s" in
      destruct (Conn.upgradeTLS e st) as [res s'] eqn:H;
      apply upgradeTLS_spec in H; [|assumption];
      destruct H as (? & ? & ? & ? & ? & ? & ?);
      destruct res; cbn -[Conn.OK]
  | |- context [Conn.upgradeDeflate ?l ?st] =>
      let H := fresh "Hup" in
      let res := fresh "res" in
      let s' := fresh "s" in
      destruct (Conn.upgradeDeflate l st) as [res s'] eqn:H;
      apply upgradeDeflate_spec in H; cbv zeta in H;
      destruct H as (? & ? & ? & ? & ? & ?);
      destruct res; cbn -[Conn.OK]
  | |- context [Conn.upgradeSnappy ?st] =>
      let H := fresh "Hup" in
      let res := fresh "res" in
      let s' := fresh "s" in
      destruct (Conn.upgradeSnappy st) as [res s'] eqn:H;
      apply upgradeSnappy_spec in H; cbv zeta in H;
      destruct H as (? & ? & ? & ? & ? & ?);
      destruct res; cbn -[Conn.OK]
  end.

(** C6. During the handshake, when the server's first response carries
    capabilities, Connect applies the granted upgrades in the order TLS,
    Deflate, Snappy, the compression layer on top of the TLS connection,
    and after each of them reads exactly one more frame through the
    upgraded reader.  Connect succeeds exactly when each of these frames
    is a response with payload "OK"; any other frame, a read error or a
    missing frame makes it fail with an identify (handshake) error. *)
Theorem Connect_upgrades env (s : Conn.World) (payload : bytes)
    (resp : Conn.IdentifyResponse) (rest : list Conn.ReadResult) :
  Conn.tlsConn (Conn.conn s) = None ->
  Conn.dial_result env = None ->
  Conn.magic_result env = None ->
  Conn.Identify_result env = None ->
  Conn.write_result env (Conn.sent s) = None ->
  Conn.incoming s
  = Conn.Frame FrameTypeResponse ("{"%byte :: payload) :: rest ->
  Conn.json_Unmarshal env ("{"%byte :: payload) = inl resp ->
  Conn.tls_Handshake env = None ->
  match Conn.Connect env s with
  | (Ok r, s') =>
    r = Some resp
    /\ take (Conn.granted resp) rest
       = replicate (Conn.granted resp) Conn.OK_frame
    /\ Conn.incoming s' = drop (Conn.granted resp) rest
    /\ Conn.reads (Conn.trace s')
       = Conn.reads (Conn.trace s) ++ Conn.NetConn :: Conn.upgrade_readers resp
    /\ Conn.r (Conn.conn s')
       = Conn.BufioReader (List.last (Conn.upgrade_readers resp) Conn.NetConn)
  | (Err e, s') =>
    (exists cause, e = ErrIdentify cause)
    /\ take (Conn.granted resp) rest
       <> replicate (Conn.granted resp) Conn.OK_frame
  | (Panic _, _) => False
  end.
Proof.
  intros Htls Hdial Hmagic Hid Hsend Hin Hjson Hhs.
  unfold Conn.Connect. rewrite Hdial, Hmagic.
  unfold Conn.identify. rewrite Hid.
  unfold Conn.SendCommand. cbn -[Conn.OK]. rewrite Hsend.
  unfold Conn.ReadUnpackedResponse. cbn -[Conn.OK]. rewrite Hin.
  cbn -[Conn.OK]. rewrite Hjson.
  rewrite bool_decide_eq_true_2 by reflexivity. cbn -[Conn.OK].
  match goal with
  | |- context [Conn.with_conn (Conn.set_maxRdyCount ?m) ?st] =>
      set (s1 := Conn.with_conn (Conn.set_maxRdyCount m) st)
  end.
  assert (Hin1 : Conn.incoming s1 = rest) by reflexivity.
  assert (Htls1 : Conn.tlsConn (Conn.conn s1) = None) by exact Htls.
  assert (Hr1 : Conn.r (Conn.conn s1) = Conn.NetConn) by reflexivity.
  assert (Hrd1 : Conn.reads (Conn.trace s1)
                 = Conn.reads (Conn.trace s) ++ [Conn.NetConn]).
  { subst s1. cbn. rewrite !reads_app. cbn. now rewrite !app_nil_r. }
  clearbody s1.
  unfold Conn.granted, Conn.upgrade_readers, Conn.secured.
  destruct resp as [m tls defl sn]; destruct tls, defl, sn; cbn -[Conn.OK];
    repeat step_upgrade.
  all: first
    [ (* a failed upgrade *)
      split; [eexists; reflexivity|];
      rewrite <- Hin1; rewrite ?head_tail_take;
      repeat match goal with
             | H : Conn.incoming _ = tail _ |- _ => rewrite <- H
             end;
      intros Hall; decompose [and] Hall;
      repeat match goal with
             | H : _ <-> head ?l = Some Conn.OK_frame,
               H' : head ?l = Some Conn.OK_frame |- _ =>
                 apply H in H'; try discriminate H'
             end
    | (* every upgrade went through *)
      split; [reflexivity|];
      rewrite ?drop_tail, <- Hin1; rewrite ?head_tail_take;
      repeat match goal with
             | H : Conn.incoming _ = tail _ |- _ => rewrite <- H
             end;
      change (omap _ ?tr) with (Conn.reads tr); rewrite ?reads_app;
      cbn [Conn.reads omap];
      rewrite ?app_nil_r;
      repeat match goal with
             | H : Conn.reads (Conn.trace _) = _ |- _ => rewrite H
             | H : Conn.tlsConn (Conn.conn _) = _ |- _ => rewrite H
             | H : Conn.r (Conn.conn _) = _ |- _ => rewrite H
             end;
      rewrite <- ?app_assoc;
      repeat split; try reflexivity;
      match goal with
      | H : None = None <-> ?P |- ?P => apply H; reflexivity
      end ].
Qed.

Lemma Connect_upgrades_witness :
  match Conn.Connect sample_env
          (sample_world sample_new_conn
             [Conn.Frame FrameTypeResponse sample_json;
              Conn.OK_frame; Conn.OK_frame]) with
  | (Ok r, s') =>
    r = Some sample_capabilities
    /\ take (Conn.granted sample_capabilities) [Conn.OK_frame; Conn.OK_frame]
       = replicate (Conn.granted sample_capabilities) Conn.OK_frame
    /\ Conn.incoming s'
       = drop (Conn.granted sample_capabilities) [Conn.OK_frame; Conn.OK_frame]
    /\ Conn.reads (Conn.trace s')
       = Conn.reads []
         ++ Conn.NetConn :: Conn.upgrade_readers sample_capabilities
    /\ Conn.r (Conn.conn s')
       = Conn.BufioReader
           (List.last (Conn.upgrade_readers sample_capabilities) Conn.NetConn)
  | (Err e, s') =>
    (exists cause, e = ErrIdentify cause)
    /\ take (Conn.granted sample_capabilities) [Conn.OK_frame; Conn.OK_frame]
       <> replicate (Conn.granted sample_capabilities) Conn.OK_frame
  | (Panic _, _) => False
  end.
Proof.
  apply (Connect_upgrades sample_env
           (sample_world sample_new_conn
              [Conn.Frame FrameTypeResponse sample_json;
               Conn.OK_frame; Conn.OK_frame])
           (bytes_of_string "}") sample_capabilities
           [Conn.OK_frame; Conn.OK_frame]); reflexivity.
Defined.

(** The scenario of the spec: TLS and compression granted, both answered
    with "OK". *)
Example Connect_TLS_then_Deflate :
  let '(r, s') := Conn.Connect sample_env
                    (sample_world sample_new_conn
                       [Conn.Frame FrameTypeResponse sample_json;
                        Conn.OK_frame; Conn.OK_frame]) in
  r = Ok (Some sample_capabilities)
  /\ Conn.r (Conn.conn s')
     = Conn.BufioReader (Conn.FlateReader (Conn.TLSClient Conn.NetConn))
  /\ Conn.w (Conn.conn s') = Conn.FlateWriter (Conn.TLSClient Conn.NetConn) 6
  /\ Conn.trace s'
     = [Conn.Dial; Conn.WriteMagic; Conn.Sent Conn.NetConn IDENTIFY;
        Conn.ReadFrom Conn.NetConn; Conn.TLSHandshake;
        Conn.ReadFrom (Conn.TLSClient Conn.NetConn);
        Conn.ReadFrom (Conn.FlateReader (Conn.TLSClient Conn.NetConn));
        Conn.GoReadLoop; Conn.GoWriteLoop].
Proof. vm_compute. repeat split; reflexivity. Qed.

(** A frame other than "OK" after the Deflate upgrade. *)
Example Connect_Deflate_not_OK :
  fst (Conn.Connect sample_env
         (sample_world sample_new_conn
            [Conn.Frame FrameTypeResponse sample_json; Conn.OK_frame;
             Conn.Frame FrameTypeError (bytes_of_string "E_INVALID")]))
  = Err (ErrIdentify (ErrNew "invalid response from Deflate upgrade")).
Proof. reflexivity. Qed.

(** ** Properties of the Writer *)

Import Writer.

Ltac mrun :=
  unfold bind, ret, modify, get, panic in *;
  cbn -[close popTransaction transactionCleanup connect] in *.

Lemma steady_refl s : steady s s.
Proof. unfold steady. repeat split; auto. Qed.

Lemma steady_trans s1 s2 s3 : steady s1 s2 -> steady s2 s3 -> steady s1 s3.
Proof.
  unfold steady. intros (Ha & Hb & Hc & Hd & H1) (Ha' & Hb' & Hc' & Hd' & H2).
  repeat split; try congruence.
  destruct H1 as [H1|[H1 H1']], H2 as [H2|[H2 H2']]; try (left; congruence);
    right; split; congruence.
Qed.

Lemma finished_app tr1 tr2 :
  finished (tr1 ++ tr2) = finished tr1 ++ finished tr2.
Proof. apply omap_app. Qed.

Lemma popTransaction_nil (frameType : Z) (data : bytes) (s : Sys) :
  transactions (writer s) = [] ->
  popTransaction frameType data s = Panic "index out of range".
Proof. intros H. unfold popTransaction. mrun. rewrite H. reflexivity. Qed.

Lemma popTransaction_cons (frameType : Z) (data : bytes) (s : Sys) t rest :
  transactions (writer s) = t :: rest ->
  exists s' tx,
    popTransaction frameType data s = Ok (tt, s')
    /\ transactions (writer s') = rest
    /\ concurrentWriters (writer s') = concurrentWriters (writer s)
    /\ steady s s'
    /\ finished (trace s') = finished (trace s) ++ [(t, tx)]
    /\ resolved_by (t, tx) (frameType, data)
    /\ heap s' t = tx.
Proof.
  intros H. unfold popTransaction. mrun. rewrite H. mrun.
  eexists _, _. split; [reflexivity|]. cbn.
  rewrite finished_app, !fn_lookup_insert. cbn.
  repeat split; auto.
Qed.

Lemma close_spec (s : Sys) :
  (state (writer s) = StateConnected /\ conn (writer s) = false
   /\ close s = Panic "nil pointer dereference")
  \/ exists s',
       close s = Ok (tt, s')
       /\ transactions (writer s') = transactions (writer s)
       /\ concurrentWriters (writer s') = concurrentWriters (writer s)
       /\ steady s s'
       /\ state (writer s') <> StateConnected
       /\ finished (trace s') = finished (trace s)
       /\ heap s' = heap s /\ next s' = next s.
Proof.
  unfold close. mrun.
  destruct (bool_decide_reflect (state (writer s) = StateConnected)) as [Hc|Hc];
    cbn.
  - destruct (conn (writer s)) eqn:Hconn; cbn.
    + right. eexists. split; [reflexivity|]. cbn.
      rewrite !finished_app. cbn. rewrite !app_nil_r. unfold steady. cbn.
      repeat split; auto.
    + left. auto.
  - right. eexists. split; [reflexivity|].
    repeat split; auto using steady_refl.
Qed.

Lemma router_case_Ok ev s next s1 :
  router_case ev s = Ok (next, s1) ->
  next = (if is_exit ev then Conn.Exit else Conn.Continue)
  /\ steady s s1
  /\ concurrentWriters (writer s1) = concurrentWriters (writer s)
  /\ exists fin,
       finished (trace s1) = finished (trace s) ++ fin
       /\ transactions (writer s) ++ received [ev]
          = map fst fin ++ transactions (writer s1)
       /\ Forall2 resolved_by fin (frames [ev]).
Proof.
  destruct ev as [t sendErr|data|data| |err| |]; unfold router_case.
  - (* RecvTransaction *)
    mrun. destruct (conn (writer s)) eqn:Hconn; cbn -[close]; [|discriminate].
    destruct sendErr as [err|]; cbn -[close].
    + match goal with
      | |- context [close ?st] =>
          destruct (close_spec st)
            as [(_ & Hc & _)|(s' & -> & Hts & Hcw & Hst & _ & Hfin & _)]
      end; [cbn in Hc; congruence|].
      intros [= <- <-]. cbn in Hts, Hcw, Hfin.
      rewrite finished_app, app_nil_r in Hfin.
      refine (conj eq_refl (conj _ (conj Hcw _))).
      * eapply steady_trans; [|exact Hst].
        unfold steady; cbn. repeat split; auto.
      * exists []. rewrite Hfin, Hts, app_nil_r. repeat split; auto.
    + intros [= <- <-]. cbn. rewrite finished_app, app_nil_r.
      refine (conj eq_refl (conj _ (conj eq_refl _))).
      * unfold steady; cbn; repeat split; auto.
      * exists []. rewrite app_nil_r. repeat split; auto.
  - (* RecvResponse *)
    unfold bind.
    destruct (transactions (writer s)) as [|t rest] eqn:Hts.
    + rewrite popTransaction_nil by exact Hts. discriminate.
    + destruct (popTransaction_cons FrameTypeResponse data s t rest Hts)
        as (s' & tx & -> & Hts' & Hcw & Hst & Hfin & Hres & _).
      intros [= <- <-]. refine (conj eq_refl (conj Hst (conj Hcw _))).
      exists [(t, tx)]. rewrite Hts'. cbn. rewrite app_nil_r.
      repeat split; auto.
  - (* RecvError *)
    unfold bind.
    destruct (transactions (writer s)) as [|t rest] eqn:Hts.
    + rewrite popTransaction_nil by exact Hts. discriminate.
    + destruct (popTransaction_cons FrameTypeError data s t rest Hts)
        as (s' & tx & -> & Hts' & Hcw & Hst & Hfin & Hres & _).
      intros [= <- <-]. refine (conj eq_refl (conj Hst (conj Hcw _))).
      exists [(t, tx)]. rewrite Hts'. cbn. rewrite app_nil_r.
      repeat split; auto.
  - (* RecvHeartbeat *)
    intros [= <- <-].
    refine (conj eq_refl (conj (steady_refl _) (conj eq_refl _))).
    exists []. rewrite !app_nil_r. repeat split; auto.
  - (* RecvIOError *)
    unfold bind.
    destruct (close_spec s)
      as [(_ & _ & ->)|(s' & -> & Hts & Hcw & Hst & _ & Hfin & _)];
      [discriminate|].
    intros [= <- <-]. refine (conj eq_refl (conj Hst (conj Hcw _))).
    exists []. rewrite Hfin, Hts, !app_nil_r. repeat split; auto.
  - intros [= <- <-].
    refine (conj eq_refl (conj (steady_refl _) (conj eq_refl _))).
    exists []. rewrite !app_nil_r. repeat split; auto.
  - intros [= <- <-].
    refine (conj eq_refl (conj (steady_refl _) (conj eq_refl _))).
    exists []. rewrite !app_nil_r. repeat split; auto.
Qed.

Lemma router_cons ev evs cevs s :
  router (ev :: evs) cevs s
  = match router_case ev s with
    | Ok (Conn.Continue, s1) => router evs cevs s1
    | Ok (Conn.Exit, s1) =>
      match transactionCleanup cevs s1 with
      | Ok (true, s2) =>
        Ok (Exited, with_writer (fun w => set_wg (wg w - 1) w) s2)
      | Ok (false, s2) => Ok (Cleaning, s2)
      | Err e => Err e
      | Panic reason => Panic reason
      end
    | Err e => Err e
    | Panic reason => Panic reason
    end.
Proof.
  cbn [router]. unfold bind at 1.
  destruct (router_case ev s) as [[[] s1]|e|reason]; try reflexivity.
  unfold bind at 1.
  destruct (transactionCleanup cevs s1) as [[[] s2]|e|reason]; reflexivity.
Qed.

Lemma received_cons ev evs :
  received (ev :: evs) = received [ev] ++ received evs.
Proof. exact (omap_app _ [ev] evs). Qed.

Lemma frames_cons ev evs : frames (ev :: evs) = frames [ev] ++ frames evs.
Proof. exact (omap_app _ [ev] evs). Qed.

(** C1. While the router loops, every response or error frame resolves
    exactly the oldest pending transaction: the transactions on which
    finish() is called, in the order of the calls, followed by the ones
    still pending, are the pending and the received transactions in the
    order they were sent; and the i-th of them is finished with the frame
    type and payload of the i-th frame and a nil error, however response
    and error frames are interleaved with each other and with the
    sends. *)
Theorem router_FIFO (evs : list RouterEvent) (cevs : list CleanupEvent)
    (s s' : Sys) :
  router evs cevs s = Ok (Routing, s') ->
  exists fin : list (loc * WriterTransaction),
    finished (trace s') = finished (trace s) ++ fin
    /\ transactions (writer s) ++ received evs
       = map fst fin ++ transactions (writer s')
    /\ Forall2 resolved_by fin (frames evs).
Proof.
  revert s. induction evs as [|ev evs IH]; intros s.
  - intros [= <-]. exists []. cbn. rewrite !app_nil_r. auto.
  - rewrite router_cons.
    destruct (router_case ev s) as [[[] s1]|e|reason] eqn:Hcase;
      try discriminate.
    + intros Hrun.
      apply router_case_Ok in Hcase as (_ & _ & _ & fin1 & Hf1 & Hq1 & Hr1).
      apply IH in Hrun as (fin2 & Hf2 & Hq2 & Hr2).
      exists (fin1 ++ fin2). split; [|split].
      * rewrite Hf2, Hf1, app_assoc. reflexivity.
      * rewrite received_cons, app_assoc, Hq1, <- app_assoc, Hq2.
        rewrite map_app, app_assoc. reflexivity.
      * rewrite frames_cons. apply Forall2_app; assumption.
    + destruct (transactionCleanup cevs s1) as [[[] s2]|e|reason]; discriminate.
Qed.

Lemma transactionCleanup_range_spec (ts : list loc) (s : Sys) :
  exists s' fin,
    transactionCleanup_range ts s = Ok (tt, s')
    /\ writer s' = writer s
    /\ finished (trace s') = finished (trace s) ++ fin
    /\ map fst fin = ts
    /\ Forall invalidated fin.
Proof.
  revert s. induction ts as [|t ts IH]; intros s.
  - exists s, []. cbn. rewrite app_nil_r. repeat split; auto.
  - cbn [transactionCleanup_range]. mrun.
    match goal with
    | |- context [transactionCleanup_range ts ?st] =>
        destruct (IH st) as (s' & fin & -> & Hw & Hf & Hm & Hi)
    end.
    cbn in Hw, Hf. rewrite finished_app in Hf. cbn in Hf.
    eexists s', (_ :: fin). split; [reflexivity|].
    split; [exact Hw|]. split; [rewrite Hf, <- app_assoc; reflexivity|].
    split; [cbn; rewrite Hm; reflexivity|].
    constructor; [|exact Hi]. unfold invalidated. cbn.
    rewrite fn_lookup_insert. reflexivity.
Qed.

Lemma transactionCleanup_spin_spec (cevs : list CleanupEvent) (s : Sys) :
  exists returned s' fin,
    transactionCleanup_spin cevs s = Ok (returned, s')
    /\ transactions (writer s') = transactions (writer s)
    /\ steady s s'
    /\ finished (trace s') = finished (trace s) ++ fin
    /\ Forall invalidated fin
    /\ if returned : bool
       then concurrentWriters (writer s') = 0
            /\ exists pre post,
                 cevs = pre ++ CleanupDefault :: post
                 /\ map fst fin = drained pre
       else map fst fin = drained cevs.
Proof.
  revert s. induction cevs as [|[t| | |] cevs IH]; intros s.
  - exists false, s, []. cbn. rewrite app_nil_r.
    repeat split; auto using steady_refl.
  - cbn [transactionCleanup_spin]. mrun.
    match goal with
    | |- context [transactionCleanup_spin cevs ?st] =>
        destruct (IH st) as (b & s' & fin & -> & Hts & Hst & Hf & Hi & Hb)
    end.
    cbn in Hts, Hf. rewrite finished_app in Hf. cbn in Hf.
    eexists b, s', (_ :: fin). split; [reflexivity|].
    split; [exact Hts|]. split; [exact Hst|].
    split; [rewrite Hf, <- app_assoc; reflexivity|].
    split.
    { constructor; [|exact Hi]. unfold invalidated. cbn.
      rewrite fn_lookup_insert. reflexivity. }
    destruct b.
    + destruct Hb as (Hz & pre & post & -> & Hm). split; [exact Hz|].
      exists (CleanupRecv t :: pre), post. split; [reflexivity|].
      cbn. rewrite Hm. reflexivity.
    + cbn. rewrite Hb. reflexivity.
  - cbn [transactionCleanup_spin]. mrun.
    destruct (Z.eqb_spec (concurrentWriters (writer s)) 0) as [Hz|Hz].
    + exists true, s, []. rewrite app_nil_r.
      repeat split; auto using steady_refl.
      exists [], cevs. auto.
    + match goal with
      | |- context [transactionCleanup_spin cevs ?st] =>
          destruct (IH st) as (b & s' & fin & -> & Hts & Hst & Hf & Hi & Hb)
      end.
      cbn in Hts, Hf. rewrite finished_app, app_nil_r in Hf.
      exists b, s', fin. split; [reflexivity|].
      split; [exact Hts|]. split; [exact Hst|]. split; [exact Hf|].
      split; [exact Hi|].
      destruct b; [|exact Hb].
      destruct Hb as (Hz' & pre & post & -> & Hm). split; [exact Hz'|].
      exists (CleanupDefault :: pre), post. split; [reflexivity|exact Hm].
  - cbn [transactionCleanup_spin]. mrun.
    match goal with
    | |- context [transactionCleanup_spin cevs ?st] =>
        destruct (IH st) as (b & s' & fin & -> & Hts & Hst & Hf & Hi & Hb)
    end.
    exists b, s', fin. split; [reflexivity|].
    split; [exact Hts|]. split; [exact Hst|]. split; [exact Hf|].
    split; [exact Hi|].
    destruct b; [|exact Hb].
    destruct Hb as (Hz' & pre & post & -> & Hm). split; [exact Hz'|].
    exists (SenderEnter :: pre), post. split; [reflexivity|exact Hm].
  - cbn [transactionCleanup_spin]. mrun.
    match goal with
    | |- context [transactionCleanup_spin cevs ?st] =>
        destruct (IH st) as (b & s' & fin & -> & Hts & Hst & Hf & Hi & Hb)
    end.
    exists b, s', fin. split; [reflexivity|].
    split; [exact Hts|]. split; [exact Hst|]. split; [exact Hf|].
    split; [exact Hi|].
    destruct b; [|exact Hb].
    destruct Hb as (Hz' & pre & post & -> & Hm). split; [exact Hz'|].
    exists (SenderLeave :: pre), post. split; [reflexivity|exact Hm].
Qed.

Lemma transactionCleanup_spec (cevs : list CleanupEvent) (s : Sys) :
  exists returned s' fin1 fin2,
    transactionCleanup cevs s = Ok (returned, s')
    /\ transactions (writer s') = []
    /\ steady s s'
    /\ finished (trace s') = finished (trace s) ++ fin1 ++ fin2
    /\ map fst fin1 = transactions (writer s)
    /\ Forall invalidated (fin1 ++ fin2)
    /\ if returned : bool
       then concurrentWriters (writer s') = 0
            /\ exists pre post,
                 cevs = pre ++ CleanupDefault :: post
                 /\ map fst fin2 = drained pre
       else map fst fin2 = drained cevs.
Proof.
  unfold transactionCleanup. unfold bind, get, modify.
  destruct (transactionCleanup_range_spec (transactions (writer s)) s)
    as (s1 & fin1 & -> & Hw1 & Hf1 & Hm1 & Hi1).
  match goal with
  | |- context [transactionCleanup_spin cevs ?st] =>
      destruct (transactionCleanup_spin_spec cevs st)
        as (b & s' & fin2 & -> & Hts & Hst & Hf2 & Hi2 & Hb)
  end.
  unfold with_writer in Hts, Hf2, Hst. cbn -[finished] in Hts, Hf2.
  exists b, s', fin1, fin2. split; [reflexivity|].
  split; [exact Hts|]. split.
  { eapply steady_trans; [|exact Hst]. unfold steady. cbn. rewrite Hw1.
    repeat split; auto. }
  split; [rewrite Hf2, Hf1, app_assoc; reflexivity|].
  split; [exact Hm1|]. split; [apply Forall_app; auto|exact Hb].
Qed.


Lemma router_case_no_panic ev s :
  conn (writer s) = true ->
  (frames [ev] = [] \/ transactions (writer s) <> []) ->
  exists next s1, router_case ev s = Ok (next, s1).
Proof.
  intros Hconn Hfr.
  destruct ev as [t sendErr|data|data| |err| |]; unfold router_case.
  - mrun. rewrite Hconn. cbn -[close]. destruct sendErr as [err|]; cbn -[close].
    + match goal with
      | |- context [close ?st] =>
          destruct (close_spec st) as [(_ & Hc & _)|(s' & -> & _)]
      end; [cbn in Hc; congruence|]. eauto.
    + eauto.
  - destruct Hfr as [[=]|Hne].
    destruct (transactions (writer s)) as [|t rest] eqn:Hts; [done|].
    destruct (popTransaction_cons FrameTypeResponse data s t rest Hts)
      as (s' & tx & Hpop & _).
    unfold bind. rewrite Hpop. cbn. eauto.
  - destruct Hfr as [[=]|Hne].
    destruct (transactions (writer s)) as [|t rest] eqn:Hts; [done|].
    destruct (popTransaction_cons FrameTypeError data s t rest Hts)
      as (s' & tx & Hpop & _).
    unfold bind. rewrite Hpop. cbn. eauto.
  - cbn. eauto.
  - unfold bind.
    destruct (close_spec s) as [(_ & Hc & _)|(s' & -> & _)]; [congruence|].
    cbn. eauto.
  - cbn. eauto.
  - cbn. eauto.
Qed.

Lemma router_no_panic evs cevs s :
  conn (writer s) = true ->
  answers_sent (length (transactions (writer s))) evs = true ->
  exists st s', router evs cevs s = Ok (st, s').
Proof.
  revert s. induction evs as [|ev evs IH]; intros s Hconn Hproto.
  - cbn. eauto.
  - rewrite router_cons.
    destruct (router_case_no_panic ev s Hconn) as (next & s1 & Hcase).
    { destruct ev; cbn; auto. all: right; intros Hnil; rewrite Hnil in Hproto;
        cbn in Hproto; discriminate. }
    rewrite Hcase.
    pose proof (router_case_Ok _ _ _ _ Hcase)
      as (Hnext & Hst & _ & fin & _ & Hq & Hr).
    destruct next.
    + apply IH.
      * destruct Hst as (-> & _). exact Hconn.
      * apply (f_equal length) in Hq. rewrite !length_app, length_map in Hq.
        apply Forall2_length in Hr.
        destruct ev; cbn in Hproto, Hq, Hr, Hnext; try discriminate.
        -- replace (length (transactions (writer s1)))
             with (S (length (transactions (writer s)))) by lia.
           exact Hproto.
        -- destruct (length (transactions (writer s))) as [|n] eqn:Hlen;
             [discriminate|].
           replace (length (transactions (writer s1))) with n by lia.
           exact Hproto.
        -- destruct (length (transactions (writer s))) as [|n] eqn:Hlen;
             [discriminate|].
           replace (length (transactions (writer s1))) with n by lia.
           exact Hproto.
        -- replace (length (transactions (writer s1)))
             with (length (transactions (writer s))) by lia.
           exact Hproto.
        -- replace (length (transactions (writer s1)))
             with (length (transactions (writer s))) by lia.
           exact Hproto.
    + destruct (transactionCleanup_spec cevs s1) as (b & s2 & ? & ? & -> & _).
      destruct b; eauto.
Qed.

Lemma connect_stopFlag_1 dial (s : Sys) :
  stopFlag (writer s) = 1 -> connect dial s = Ok (Some ErrStopped, s).
Proof. intros H. unfold connect. mrun. rewrite H. reflexivity. Qed.

Lemma connect_not_Init dial (s : Sys) :
  stopFlag (writer s) <> 1 -> state (writer s) <> StateInit ->
  connect dial s = Ok (Some ErrNotConnected, s).
Proof.
  intros Hstop Hst. unfold connect. mrun.
  destruct (Z.eqb_spec (stopFlag (writer s)) 1) as [|_]; [done|].
  rewrite bool_decide_eq_false_2 by exact Hst. reflexivity.
Qed.

Lemma connect_Ok dial (s s' : Sys) r :
  connect dial s = Ok (r, s') ->
  stopFlag (writer s') = stopFlag (writer s)
  /\ (r = None ->
      stopFlag (writer s) <> 1 /\ state (writer s) = StateInit
      /\ state (writer s') = StateConnected)
  /\ (r <> None -> state (writer s') = state (writer s)).
Proof.
  unfold connect. mrun.
  destruct (Z.eqb_spec (stopFlag (writer s)) 1) as [H1|H1].
  { intros [= <- <-]. repeat split; try done. }
  destruct (bool_decide_reflect (state (writer s) = StateInit)) as [Hi|Hi]; cbn.
  - destruct dial as [resp|err|reason]; cbn; [| |discriminate];
      intros [= <- <-]; cbn; repeat split; try done. 
  - intros [= <- <-]. repeat split; try done.
Qed.

(** C8 (amended). A connect attempt on a Writer whose state is not Init
    fails and leaves the Writer as it is: with "stopped" when the stop
    flag is set, with "not connected" otherwise.  A connect that succeeds
    found the state Init and leaves it Connected, so that any further
    connect attempt fails with "not connected" until the state is Init
    again. *)
Theorem connect_guard dial (s : Sys) :
  (state (writer s) <> StateInit ->
   connect dial s
   = Ok (Some (if stopFlag (writer s) =? 1
               then ErrStopped else ErrNotConnected),
         s))
  /\ (forall s',
        connect dial s = Ok (None, s') ->
        state (writer s) = StateInit
        /\ state (writer s') = StateConnected
        /\ forall dial', connect dial' s' = Ok (Some ErrNotConnected, s')).
Proof.
  split.
  - intros Hst. destruct (Z.eqb_spec (stopFlag (writer s)) 1) as [H1|H1].
    + apply connect_stopFlag_1. exact H1.
    + apply connect_not_Init; assumption.
  - intros s' Hc. apply connect_Ok in Hc as (Hsf & Hok & _).
    destruct (Hok eq_refl) as (H1 & Hi & Hc). repeat split; auto.
    intros dial'. apply connect_not_Init; [congruence|].
    rewrite Hc. discriminate.
Qed.

Lemma sendCommandAsync_stopped c d a dial sel (s : Sys) :
  stopped s ->
  sendCommandAsync c d a dial sel s = Ok (Returns (Some ErrStopped), left s).
Proof.
  intros [Hsf Hst]. unfold sendCommandAsync. mrun.
  rewrite bool_decide_eq_false_2 by exact Hst. cbn -[connect].
  rewrite connect_stopFlag_1 by exact Hsf. reflexivity.
Qed.

Lemma sendCommandAsync_Ok c d a dial sel (s s' : Sys) r :
  sendCommandAsync c d a dial sel s = Ok (r, s') ->
  stopFlag (writer s') = stopFlag (writer s)
  /\ (state (writer s) <> StateConnected -> stopFlag (writer s) = 1 ->
      state (writer s') <> StateConnected).
Proof.
  unfold sendCommandAsync. mrun.
  destruct (bool_decide_reflect (state (writer s) = StateConnected)) as [Hc|Hc];
    cbn -[connect].
  - destruct sel;
      [destruct (0 <? wg (writer s)) | destruct (exitChan_closed (writer s))];
      intros [= <- <-]; cbn; split; try done.
  - match goal with
    | |- context [connect dial ?st] =>
        destruct (connect dial st) as [[[err|] s1]|e|reason] eqn:Hconn;
          try discriminate;
          apply connect_Ok in Hconn as (Hsf & Hok & Herr)
    end; cbn in Hsf, Hok, Herr |- *.
    + intros [= <- <-]. cbn. split; [exact Hsf|].
      intros _ _. rewrite Herr by discriminate. exact Hc.
    + destruct (Hok eq_refl) as (H1 & _ & _).
      destruct sel;
        [destruct (0 <? wg (writer s1))
        | destruct (exitChan_closed (writer s1))];
        intros [= <- <-]; cbn; (split; [exact Hsf | intros _ H; contradiction]).
Qed.

(** A goroutine blocked in the select of sendCommandAsync has created its
    transaction and holds the counter of concurrent writers incremented:
    transactionCleanup keeps spinning while it is there. *)
Lemma sendCommandAsync_Blocks c d a dial sel (s s' : Sys) :
  sendCommandAsync c d a dial sel s = Ok (Blocks, s') ->
  concurrentWriters (writer s') = AddInt32 (concurrentWriters (writer s)) 1
  /\ next s' = S (next s)
  /\ heap s' (next s)
     = {| cmd := c; doneChan := d; FrameType := -1; Data := [];
          Error := None; Args := a |}.
Proof.
  unfold sendCommandAsync, connect. mrun.
  destruct (bool_decide (state (writer s) = StateConnected)); cbn.
  - destruct sel;
      [destruct (0 <? wg (writer s)) | destruct (exitChan_closed (writer s))];
      intros [= <-]; cbn; rewrite fn_lookup_insert; auto.
  - destruct (stopFlag (writer s) =? 1); cbn; [discriminate|].
    destruct (bool_decide (state (writer s) = StateInit)); cbn;
      [|discriminate].
    destruct dial as [resp|err|reason]; cbn; try discriminate.
    destruct sel;
      [destruct (0 <? wg (writer s) + 1) | destruct (exitChan_closed (writer s))];
      intros [= <-]; cbn; rewrite fn_lookup_insert; auto.
Qed.

Lemma transactionCleanup_spin_waits (cevs : list CleanupEvent) (s : Sys) :
  concurrentWriters (writer s) <> 0 ->
  transactionCleanup_spin (CleanupDefault :: cevs) s
  = transactionCleanup_spin cevs (emit Sleep s).
Proof.
  intros H. cbn [transactionCleanup_spin]. unfold bind, get, modify.
  destruct (Z.eqb_spec (concurrentWriters (writer s)) 0); [done|reflexivity].
Qed.

Lemma steady_stopped s s' : steady s s' -> stopped s -> stopped s'.
Proof.
  intros (_ & Hsf & _ & _ & Hst) [H1 H2]. split; [congruence|].
  destruct Hst as [->|[_ ->]]; [exact H2|discriminate].
Qed.

Lemma router_Ok evs cevs (s s' : Sys) st :
  router evs cevs s = Ok (st, s') ->
  stopFlag (writer s') = stopFlag (writer s)
  /\ (stopped s -> stopped s').
Proof.
  revert s. induction evs as [|ev evs IH]; intros s.
  - intros [= <- <-]. auto.
  - rewrite router_cons.
    destruct (router_case ev s) as [[[] s1]|e|reason] eqn:Hcase;
      try discriminate;
      apply router_case_Ok in Hcase as (_ & Hst & _).
    + intros Hrun. apply IH in Hrun as [Hsf Hstop].
      destruct Hst as (? & Hsf1 & ?) eqn:E. split; [congruence|].
      intros H. apply Hstop. eapply steady_stopped; [|exact H].
      unfold steady. auto.
    + destruct (transactionCleanup_spec cevs s1)
        as (b & s2 & ? & ? & -> & _ & Hst2 & _).
      pose proof (steady_trans _ _ _ Hst Hst2) as Hst3.
      destruct b; intros [= <- <-].
      * split; [cbn; destruct Hst3 as (_ & -> & _); reflexivity|].
        intros H. apply (steady_stopped _ _ Hst3) in H. exact H.
      * split; [destruct Hst3 as (_ & -> & _); reflexivity|].
        apply steady_stopped. exact Hst3.
Qed.

Lemma Stop_Ok (s s' : Sys) b :
  Stop s = Ok (b, s') ->
  (stopFlag (writer s) = 0 -> stopped s')
  /\ (stopFlag (writer s) <> 0 -> s' = s).
Proof.
  unfold Stop. mrun.
  destruct (Z.eqb_spec (stopFlag (writer s)) 0) as [H0|H0]; cbn -[close].
  - match goal with
    | |- context [close ?st] =>
        destruct (close_spec st)
          as [(_ & _ & ->)|(s1 & -> & _ & _ & Hst & Hnc & _)]
    end; [discriminate|].
    intros [= <- <-]. split; [|done]. intros _. split; [|exact Hnc].
    destruct Hst as (_ & -> & _). reflexivity.
  - intros [= <- <-]. split; [done|reflexivity].
Qed.

Lemma sendCommand_Ok c dial sel (s s' : Sys) r :
  sendCommand c dial sel s = Ok (r, s') ->
  stopFlag (writer s') = stopFlag (writer s)
  /\ (stopped s -> stopped s').
Proof.
  unfold sendCommand. unfold bind at 1. unfold make_chan. unfold bind at 1.
  match goal with
  | |- context [sendCommandAsync c ?d ?a dial sel ?st] =>
      destruct (sendCommandAsync c d a dial sel st)
        as [[r1 s1]|e|reason] eqn:Has;
        try discriminate;
        apply sendCommandAsync_Ok in Has as [Hsf Hst]
  end. cbn in Hsf, Hst.
  assert (Hgoal : stopFlag (writer s1) = stopFlag (writer s)
                  /\ (stopped s -> stopped s1)).
  { split; [exact Hsf|]. intros [H1 H2]. split; [congruence|auto]. }
  destruct r1 as [[err|]|]; mrun; intros [= <- <-]; exact Hgoal.
Qed.

Lemma close_func1_Ok (s s' : Sys) b :
  close_func1 s = Ok (b, s') ->
  stopFlag (writer s') = stopFlag (writer s)
  /\ (stopped s -> stopped s').
Proof.
  unfold close_func1. mrun. destruct (resetters s) as [|n].
  - intros [= <- <-]. auto.
  - destruct (wg (writer s) =? 0); intros [= <- <-]; cbn; [|auto].
    split; [reflexivity|]. intros [H1 _]. split; [exact H1|discriminate].
Qed.

(** Once stopped, always stopped; and a Writer is stopped as soon as its
    stopFlag is set. *)
Lemma step_stopped (s s' : Sys) :
  step s s' ->
  (stopped s -> stopped s')
  /\ (stopFlag (writer s) = 0 -> stopFlag (writer s') = 0 \/ stopped s').
Proof.
  intros Hstep. destruct Hstep.
  - apply sendCommandAsync_Ok in H as [Hsf Hst]. split.
    + intros [H1 H2]. split; [congruence|auto].
    + intros H0. left. congruence.
  - apply sendCommand_Ok in H as [Hsf Hst]. split; [exact Hst|].
    intros H0. left. congruence.
  - split; [intros H; exact H | intros H; left; exact H].
  - apply Stop_Ok in H as [H0 Hn]. split.
    + intros [H1 H2]. rewrite Hn by lia. split; assumption.
    + intros Hz. right. auto.
  - apply router_Ok in H as [Hsf Hst]. split; [exact Hst|].
    intros H0. left. congruence.
  - apply close_func1_Ok in H as [Hsf Hst]. split; [exact Hst|].
    intros H0. left. congruence.
Qed.

Lemma rtc_step_stopped (s s' : Sys) : rtc step s s' -> stopped s -> stopped s'.
Proof.
  induction 1 as [|s1 s2 s3 Hstep _ IH]; [auto|].
  intros H. apply IH. apply (step_stopped _ _ Hstep). exact H.
Qed.

Lemma rtc_step_stopFlag (s s' : Sys) :
  rtc step s s' ->
  stopFlag (writer s) = 0 \/ stopped s ->
  stopFlag (writer s') = 0 \/ stopped s'.
Proof.
  induction 1 as [|s1 s2 s3 Hstep _ IH]; [auto|].
  intros Hinit. apply IH. destruct (step_stopped _ _ Hstep) as [Hs Hz].
  destruct Hinit as [H0|Hst]; auto.
Qed.

Lemma reachable_stopFlag (s : Sys) :
  reachable s -> stopFlag (writer s) = 0 \/ stopped s.
Proof.
  intros H. apply (rtc_step_stopFlag _ _ H). left. reflexivity.
Qed.

(** C5. On a Writer reached by any run, once Stop() has set the stop flag
    and closed the connection, and whatever happens afterwards (the router
    exits, which is when Stop() returns; further calls; the state going
    back to Init), every PublishAsync, MultiPublishAsync, Publish and
    MultiPublish of a batch that encodes returns the "stopped" error,
    under every choice of the scheduler: the call does not block, creates
    no transaction and hands nothing to the router. *)
Theorem publish_after_Stop
    (MultiPublish_cmd : string -> list bytes -> outcome Command)
    (s0 s1 s2 : Sys) (b : bool) :
  reachable s0 ->
  Stop s0 = Ok (b, s1) ->
  rtc step s1 s2 ->
  forall topic body bodies cmd_ doneChan_ args dial sel,
    MultiPublish_cmd topic bodies = Ok cmd_ ->
    PublishAsync topic body doneChan_ args dial sel s2
    = Ok (Returns (Some ErrStopped), left s2)
    /\ MultiPublishAsync MultiPublish_cmd topic bodies doneChan_ args dial sel
         s2
       = Ok (Returns (Some ErrStopped), left s2)
    /\ (exists s3,
          Publish topic body dial sel s2
          = Ok (Returns (-1, [], Some ErrStopped), s3)
          /\ transactions (writer s3) = transactions (writer s2)
          /\ next s3 = next s2
          /\ trace s3 = trace s2 ++ [CloseDoneChan (chans s2)])
    /\ (exists s3,
          MultiPublish MultiPublish_cmd topic bodies dial sel s2
          = Ok (Returns (-1, [], Some ErrStopped), s3)
          /\ transactions (writer s3) = transactions (writer s2)
          /\ next s3 = next s2
          /\ trace s3 = trace s2 ++ [CloseDoneChan (chans s2)]).
Proof.
  intros Hreach HStop Hrun topic body bodies cmd_ doneChan_ args dial sel Hcmd.
  assert (Hstopped : stopped s2).
  { apply (rtc_step_stopped _ _ Hrun).
    apply Stop_Ok in HStop as [H0 Hn].
    destruct (reachable_stopFlag _ Hreach) as [Hz|Hst]; [auto|].
    rewrite Hn; [exact Hst|]. destruct Hst as [-> _]. lia. }
  assert (Hsync : forall c, exists s3,
            sendCommand c dial sel s2
            = Ok (Returns (-1, [], Some ErrStopped), s3)
            /\ transactions (writer s3) = transactions (writer s2)
            /\ next s3 = next s2
            /\ trace s3 = trace s2 ++ [CloseDoneChan (chans s2)]).
  { intros c. unfold sendCommand. unfold bind at 1. unfold make_chan.
    unfold bind at 1.
    rewrite sendCommandAsync_stopped by exact Hstopped.
    eexists. split; [reflexivity|]. cbn. auto. }
  unfold PublishAsync, MultiPublishAsync, Publish, MultiPublish.
  rewrite Hcmd. rewrite !sendCommandAsync_stopped by exact Hstopped.
  split; [reflexivity|]. split; [reflexivity|]. split; apply Hsync.
Qed.

(** C10. popTransaction takes the first pending transaction without a
    guard: with none pending it panics with an index out of range, and so
    does the router when a response or error frame reaches it then.  On a
    connected Writer, when every frame answers a command sent before it,
    the router never panics. *)
Theorem popTransaction_precondition :
  (forall (frameType : Z) (data : bytes) (s : Sys),
     transactions (writer s) = [] ->
     popTransaction frameType data s = Panic "index out of range")
  /\ (forall (data : bytes) evs cevs (s : Sys),
        transactions (writer s) = [] ->
        router (RecvResponse data :: evs) cevs s = Panic "index out of range"
        /\ router (RecvError data :: evs) cevs s = Panic "index out of range")
  /\ (forall evs cevs (s : Sys),
        conn (writer s) = true ->
        answers_sent (length (transactions (writer s))) evs = true ->
        exists st s', router evs cevs s = Ok (st, s')).
Proof.
  split; [exact popTransaction_nil|]. split; [|exact router_no_panic].
  intros data evs cevs s Hnil.
  rewrite !router_cons. unfold router_case, bind.
  rewrite !popTransaction_nil by exact Hnil. split; reflexivity.
Qed.

(** ** The properties on sample runs *)

Lemma router_FIFO_witness :
  exists fin : list (loc * WriterTransaction),
    finished (trace (run (router sample_events []) sample_writer_3))
    = finished (trace sample_writer_3) ++ fin
    /\ transactions (writer sample_writer_3) ++ received sample_events
       = map fst fin
         ++ transactions
              (writer (run (router sample_events []) sample_writer_3))
    /\ Forall2 resolved_by fin (frames sample_events).
Proof.
  apply (router_FIFO sample_events [] sample_writer_3
           (run (router sample_events []) sample_writer_3)).
  vm_compute. reflexivity.
Defined.

(** The sample run of C1, spelled out: the error frame resolves the first
    transaction, the response frame the second, the third stays pending. *)
Example router_FIFO_sample :
  map (fun fin =>
         (fst fin, FrameType (snd fin), Data (snd fin), Error (snd fin)))
      (finished (trace (run (router sample_events []) sample_writer_3)))
  = [(0%nat, FrameTypeError, bytes_of_string "E_BAD_TOPIC", None);
     (1%nat, FrameTypeResponse, bytes_of_string "OK", None)]
  /\ transactions (writer (run (router sample_events []) sample_writer_3))
     = [2%nat].
Proof. vm_compute. split; reflexivity. Qed.


(** The sample run of C2, spelled out: four transactions, four calls of
    finish(), the last two with the "not connected" error. *)
Example router_exit_cleanup_sample :
  map (fun fin => (fst fin, Error (snd fin)))
      (finished
         (trace (run (router sample_shutdown sample_cleanup) sample_writer_4)))
  = [(0%nat, None); (1%nat, None); (2%nat, Some ErrNotConnected);
     (3%nat, Some ErrNotConnected)].
Proof. vm_compute. reflexivity. Qed.

Lemma popTransaction_precondition_witness :
  popTransaction FrameTypeResponse Conn.OK sample_writer_3
  = Panic "index out of range"
  /\ exists st s', router sample_events [] sample_writer_3 = Ok (st, s').
Proof.
  split.
  - apply (proj1 popTransaction_precondition). reflexivity.
  - apply (proj2 (proj2 popTransaction_precondition)); reflexivity.
Defined.

Lemma sample_writer_1_reachable : reachable sample_writer_1.
Proof.
  unfold reachable. eapply rtc_l; [|apply rtc_refl].
  apply (step_sendCommandAsync (PUB "events" (bytes_of_string "append a"))
           (Some 7%nat) [] (Ok None) CaseSend (Returns None)).
  vm_compute. reflexivity.
Qed.

Lemma sample_stopped_reachable : reachable sample_stopped.
Proof.
  unfold reachable. eapply rtc_r; [exact sample_writer_1_reachable|].
  apply (step_Stop false). vm_compute. reflexivity.
Qed.

Lemma publish_after_Stop_witness :
  PublishAsync "events" (bytes_of_string "append e") (Some 7%nat) []
    (Ok None) CaseSend sample_stopped
  = Ok (Returns (Some ErrStopped), left sample_stopped)
  /\ MultiPublishAsync sample_MultiPublish "events"
       [bytes_of_string "append e"; bytes_of_string "append f"]
       (Some 7%nat) [] (Ok None) CaseSend sample_stopped
     = Ok (Returns (Some ErrStopped), left sample_stopped)
  /\ (exists s3,
        Publish "events" (bytes_of_string "append e") (Ok None) CaseSend
          sample_stopped
        = Ok (Returns (-1, [], Some ErrStopped), s3)
        /\ transactions (writer s3) = transactions (writer sample_stopped)
        /\ next s3 = next sample_stopped
        /\ trace s3
           = trace sample_stopped ++ [CloseDoneChan (chans sample_stopped)])
  /\ (exists s3,
        MultiPublish sample_MultiPublish "events"
          [bytes_of_string "append e"; bytes_of_string "append f"]
          (Ok None) CaseSend sample_stopped
        = Ok (Returns (-1, [], Some ErrStopped), s3)
        /\ transactions (writer s3) = transactions (writer sample_stopped)
        /\ next s3 = next sample_stopped
        /\ trace s3
           = trace sample_stopped ++ [CloseDoneChan (chans sample_stopped)]).
Proof.
  refine (publish_after_Stop sample_MultiPublish
            sample_writer_1 sample_stopped sample_stopped false
            sample_writer_1_reachable _ _
            "events" (bytes_of_string "append e")
            [bytes_of_string "append e"; bytes_of_string "append f"]
            (MPUB "events"
               [bytes_of_string "append e"; bytes_of_string "append f"])
            (Some 7%nat) [] (Ok None) CaseSend _).
  - vm_compute. reflexivity.
  - apply rtc_refl.
  - reflexivity.
Defined.

Lemma connect_guard_witness :
  connect (Ok None) sample_writer_1
  = Ok (Some ErrNotConnected, sample_writer_1)
  /\ connect (Ok None) sample_stopped = Ok (Some ErrStopped, sample_stopped)
  /\ state (writer (run (connect (Ok None)) initial)) = StateConnected.
Proof.
  split; [|split].
  - apply (proj1 (connect_guard (Ok None) sample_writer_1)).
    vm_compute. discriminate.
  - apply (proj1 (connect_guard (Ok None) sample_stopped)).
    vm_compute. discriminate.
  - apply (proj2 (connect_guard (Ok None) initial)
             (run (connect (Ok None)) initial)).
    vm_compute. reflexivity.
Defined.

(** C8 as stated fails on a stopped Writer: after a publish and Stop()
    the state is Disconnected, and a connect attempt fails with "stopped",
    not with "not connected". *)
Lemma connect_guard_counterexample :
  ~ (forall dial (s : Sys),
       reachable s ->
       state (writer s) <> StateInit ->
       connect dial s = Ok (Some ErrNotConnected, s)).
Proof.
  intros H.
  specialize (H (Ok None) sample_stopped sample_stopped_reachable).
  rewrite connect_stopFlag_1 in H by reflexivity.
  assert (Hne : state (writer sample_stopped) <> StateInit)
    by (vm_compute; discriminate).
  specialize (H Hne). discriminate H.
Qed.

(** The scenario of the spec: a synchronous publish whose command is
    answered by a response frame with payload "OK" returns the response
    frame type, "OK" and a nil error. *)
Example Publish_OK :
  let s1 :=
    run (Publish "events" (bytes_of_string "append a") (Ok None) CaseSend)
        initial in
  let s2 :=
    run (router [RecvTransaction 0%nat None; RecvResponse Conn.OK] []) s1 in
  finished (trace s2)
  = [(0%nat, {| cmd := PUB "events" (bytes_of_string "append a");
                doneChan := Some 0%nat; FrameType := FrameTypeResponse;
                Data := Conn.OK; Error := None; Args := [] |})]
  /\ option_map fst
       (match sendCommand_done 0%nat s2 with Ok r => Some r | _ => None end)
     = Some (FrameTypeResponse, Conn.OK, None).
Proof. vm_compute. split; reflexivity. Qed.

(** ** More on the codec *)

Lemma byte_of_Z_of_byte (b : byte) : byte_of_Z (Z_of_byte b) = b.
Proof.
  unfold byte_of_Z. pose proof (Z_of_byte_range b) as Hb.
  rewrite Z.mod_small by lia. unfold Z_of_byte.
  rewrite N2Z.id, Byte.of_to_N. reflexivity.
Qed.

Lemma byte_of_Z_mod (z : Z) : byte_of_Z (z mod 256) = byte_of_Z z.
Proof. unfold byte_of_Z. rewrite Z.mod_mod by lia. reflexivity. Qed.

Lemma BigEndian_put_mod (n m : nat) (v : Z) :
  (n <= m)%nat ->
  BigEndian_put n (v mod 2 ^ (8 * Z.of_nat m)) = BigEndian_put n v.
Proof.
  intros Hn. induction n as [|k IH]; [reflexivity|].
  cbn [BigEndian_put]. rewrite IH by lia. f_equal.
  rewrite <- (byte_of_Z_mod (Z.shiftr (v mod _) _)),
    <- (byte_of_Z_mod (Z.shiftr v _)).
  f_equal. change 256 with (2 ^ 8).
  apply Z.bits_inj'. intros i Hi.
  destruct (Z.ltb_spec i 8).
  - rewrite !Z.mod_pow2_bits_low, !Z.shiftr_spec by lia.
    rewrite Z.mod_pow2_bits_low by lia. reflexivity.
  - rewrite !Z.mod_pow2_bits_high by lia. reflexivity.
Qed.

Lemma BigEndian_fold_range (bs : bytes) (acc : Z) :
  fold_left (fun acc b => Z.lor (Z.shiftl acc 8) (Z_of_byte b)) bs acc
  = acc * 2 ^ (8 * Z.of_nat (length bs)) + BigEndian_uint bs
  /\ 0 <= BigEndian_uint bs < 2 ^ (8 * Z.of_nat (length bs)).
Proof.
  unfold BigEndian_uint. revert acc.
  induction bs as [|b bs IH]; intros acc.
  - cbn. lia.
  - cbn [fold_left length].
    destruct (IH (Z.lor (Z.shiftl acc 8) (Z_of_byte b))) as [-> _].
    destruct (IH (Z.lor (Z.shiftl 0 8) (Z_of_byte b))) as [-> Hr].
    pose proof (Z_of_byte_range b) as Hb.
    rewrite !lor_shiftl_byte by exact Hb.
    replace (8 * Z.of_nat (S (length bs))) with (8 * Z.of_nat (length bs) + 8)
      by lia.
    rewrite Z.pow_add_r by lia. change (2 ^ 8) with 256.
    split; [ring | nia].
Qed.

Lemma BigEndian_put_uint (bs : bytes) :
  BigEndian_put (length bs) (BigEndian_uint bs) = bs.
Proof.
  induction bs as [|b bs IH]; [reflexivity|].
  cbn [length BigEndian_put].
  assert (BigEndian_uint (b :: bs)
          = Z_of_byte b * 2 ^ (8 * Z.of_nat (length bs)) + BigEndian_uint bs)
    as Hcons.
  { unfold BigEndian_uint at 1. cbn [fold_left].
    destruct (BigEndian_fold_range bs (Z.lor (Z.shiftl 0 8) (Z_of_byte b)))
      as [-> _].
    rewrite lor_shiftl_byte by apply Z_of_byte_range. reflexivity. }
  destruct (BigEndian_fold_range bs 0) as [_ Hr].
  assert (0 < 2 ^ (8 * Z.of_nat (length bs))) as Hp
    by (apply Z.pow_pos_nonneg; lia).
  f_equal.
  - rewrite Hcons, Z.shiftr_div_pow2 by lia.
    rewrite Z.div_add_l by lia. rewrite Z.div_small by lia.
    rewrite Z.add_0_r. apply byte_of_Z_of_byte.
  - rewrite <- (BigEndian_put_mod (length bs) (length bs)) by lia.
    rewrite Hcons, Z.add_comm, Z.mod_add by lia.
    rewrite Z.mod_small by lia. exact IH.
Qed.

Lemma to_signed_range (w u : Z) :
  0 < w -> 0 <= u < 2 ^ w ->
  - 2 ^ (w - 1) <= to_signed w u < 2 ^ (w - 1) /\ to_signed w u mod 2 ^ w = u.
Proof.
  intros Hw Hu. unfold to_signed.
  assert (Hpow : 2 ^ w = 2 * 2 ^ (w - 1)).
  { replace w with (w - 1 + 1) at 1 by lia. rewrite Z.pow_add_r by lia. lia. }
  destruct (Z.ltb_spec u (2 ^ (w - 1))).
  - split; [lia|]. apply Z.mod_small. lia.
  - split; [lia|]. symmetry. apply (Z.mod_unique_pos _ _ (-1)); lia.
Qed.

Lemma DecodeMessage_fields (data : bytes) :
  (26 <= length data)%nat ->
  Message.DecodeMessage data
  = Ok {| Message.Id := take 16 (drop 10 data);
          Message.Body := drop 26 data;
          Message.Timestamp := to_signed 64 (BigEndian_uint (take 8 data));
          Message.Attempts := BigEndian_uint (take 2 (drop 8 data));
          Message.exitChan := None; Message.cmdChan := None;
          Message.responseChan := None |}.
Proof.
  intros Hlen.
  unfold Message.DecodeMessage, binary_Read, Message.MsgIdLength.
  rewrite io_ReadFull_enough by lia.
  rewrite io_ReadFull_enough by (rewrite length_drop; lia).
  rewrite io_ReadFull_enough by (rewrite !length_drop; lia).
  rewrite !drop_drop. reflexivity.
Qed.

Lemma DecodeMessage_short (data : bytes) :
  (length data < 26)%nat ->
  Message.DecodeMessage data
  = if decide (length data = 0 \/ length data = 8 \/ length data = 10)%nat
    then Err EOF
    else Err ErrUnexpectedEOF.
Proof.
  intros Hlen.
  unfold Message.DecodeMessage, binary_Read, Message.MsgIdLength.
  unfold io_ReadFull.
  repeat (case_decide; try lia; try reflexivity; cbn -[take drop];
          rewrite ?length_drop in * ).
Qed.

(** X1. DecodeMessage succeeds exactly on inputs of at least 26 bytes: the
    timestamp is the first 8 bytes read as a signed big-endian integer,
    the attempts the next 2 bytes, the id the next 16 and the body all
    the rest.  A shorter input gives io.EOF when it ends at a field
    boundary (0, 8 or 10 bytes) and io.ErrUnexpectedEOF otherwise. *)
Theorem DecodeMessage_by_length (data : bytes) :
  Message.DecodeMessage data
  = if decide (26 <= length data)%nat then
      Ok {| Message.Id := take 16 (drop 10 data);
            Message.Body := drop 26 data;
            Message.Timestamp := to_signed 64 (BigEndian_uint (take 8 data));
            Message.Attempts := BigEndian_uint (take 2 (drop 8 data));
            Message.exitChan := None; Message.cmdChan := None;
            Message.responseChan := None |}
    else if decide (length data = 0 \/ length data = 8 \/ length data = 10)%nat
    then Err EOF
    else Err ErrUnexpectedEOF.
Proof.
  case_decide as Hlen.
  - by apply DecodeMessage_fields.
  - apply DecodeMessage_short. lia.
Qed.

(** X2. Whatever DecodeMessage decodes, EncodeBytes encodes back to the
    same bytes, and the decoded message has a 16-byte id, a timestamp in
    the range of int64 and attempts in the range of uint16. *)
Theorem EncodeBytes_DecodeMessage (data : bytes) (m : Message.Message) :
  Message.DecodeMessage data = Ok m ->
  Message.EncodeBytes m = Ok data /\ Message.wf m.
Proof.
  destruct (decide (26 <= length data)%nat) as [Hlen|Hlen].
  2:{ rewrite DecodeMessage_short by lia. case_decide; discriminate. }
  rewrite DecodeMessage_fields by exact Hlen.
  intros [= <-]. rewrite EncodeBytes_layout.
  cbn [Message.Timestamp Message.Attempts Message.Id Message.Body].
  destruct (BigEndian_fold_range (take 8 data) 0) as [_ Hts].
  destruct (BigEndian_fold_range (take 2 (drop 8 data)) 0) as [_ Hat].
  rewrite length_take in Hts. rewrite length_take, length_drop in Hat.
  replace (8 `min` length data)%nat with 8%nat in Hts by lia.
  replace (2 `min` (length data - 8))%nat with 2%nat in Hat by lia.
  destruct (to_signed_range 64 (BigEndian_uint (take 8 data)))
    as [Hsr Hsm]; [lia | exact Hts |].
  split.
  - f_equal.
    rewrite <- (BigEndian_put_mod 8 8) by lia.
    change (8 * Z.of_nat 8) with 64. rewrite Hsm.
    pose proof (BigEndian_put_uint (take 8 data)) as H8.
    pose proof (BigEndian_put_uint (take 2 (drop 8 data))) as H2.
    rewrite length_take in H8. rewrite length_take, length_drop in H2.
    replace (8 `min` length data)%nat with 8%nat in H8 by lia.
    replace (2 `min` (length data - 8))%nat with 2%nat in H2 by lia.
    rewrite H8, H2.
    rewrite <- (take_drop 8 data) at 5. f_equal.
    rewrite <- (take_drop 2 (drop 8 data)) at 2. f_equal.
    rewrite drop_drop.
    rewrite <- (take_drop 16 (drop (8 + 2) data)) at 1. f_equal.
    rewrite drop_drop. reflexivity.
  - unfold Message.wf, Message.MsgIdLength. cbn.
    rewrite length_take, length_drop.
    split; [lia | split; [lia | exact Hat]].
Qed.

Lemma EncodeBytes_DecodeMessage_witness :
  Message.EncodeBytes sample_message = Ok sample_data
  /\ Message.wf sample_message.
Proof.
  apply (EncodeBytes_DecodeMessage sample_data sample_message).
  vm_compute. reflexivity.
Defined.

(** ** More on readLoop *)

Lemma int64_range (x : Z) : - 2 ^ 63 <= int64 x < 2 ^ 63.
Proof.
  unfold int64.
  destruct (to_signed_range 64 (x mod 2 ^ 64)) as [H _]; [lia | | exact H].
  apply Z.mod_pos_bound. lia.
Qed.

Lemma int64_in_range (x : Z) : - 2 ^ 63 <= x < 2 ^ 63 -> int64 x = x.
Proof. intros H. unfold int64. apply to_signed_mod; lia. Qed.

Lemma int64_mod (x : Z) : int64 x mod 2 ^ 64 = x mod 2 ^ 64.
Proof.
  unfold int64.
  destruct (to_signed_range 64 (x mod 2 ^ 64)) as [_ H]; [lia | | exact H].
  apply Z.mod_pos_bound. lia.
Qed.

Lemma int64_add (a b : Z) : int64 (int64 a + b) = int64 (a + b).
Proof.
  unfold int64 at 1 3. f_equal.
  rewrite <- Zplus_mod_idemp_l, int64_mod, Zplus_mod_idemp_l. reflexivity.
Qed.

Lemma int64_sub (a b : Z) : int64 (int64 a - b) = int64 (a - b).
Proof. unfold Z.sub. apply int64_add. Qed.

Lemma iter_AddInt64 (n : nat) (delta v : Z) :
  - 2 ^ 63 <= v < 2 ^ 63 ->
  Nat.iter n (fun v => AddInt64 v delta) v = int64 (v + Z.of_nat n * delta).
Proof.
  intros Hv. induction n as [|n IH].
  - cbn. rewrite Z.add_0_r. symmetry. apply int64_in_range, Hv.
  - rewrite Nat.iter_succ, IH. unfold AddInt64. rewrite int64_add.
    f_equal. lia.
Qed.

Lemma delivered_app tr1 tr2 :
  Conn.delivered (tr1 ++ tr2) = Conn.delivered tr1 ++ Conn.delivered tr2.
Proof. apply omap_app. Qed.

Lemma exitChan_closes_app tr1 tr2 :
  Conn.exitChan_closes (tr1 ++ tr2)
  = (Conn.exitChan_closes tr1 + Conn.exitChan_closes tr2)%nat.
Proof. unfold Conn.exitChan_closes. rewrite omap_app, length_app. done. Qed.

(** What one iteration of readLoop changes. *)
Lemma readLoop_iter_frame env (s s' : Conn.World) next :
  Conn.readLoop_iter env s = (next, s') ->
  exists tr, Conn.readLoop_kept s s' tr.
Proof.
  unfold Conn.readLoop_iter, Conn.readLoop_kept.
  destruct (Conn.stopFlag (Conn.conn s) =? 1).
  { intros [= <- <-]. exists []. rewrite app_nil_r. cbn. tauto. }
  unfold Conn.ReadUnpackedResponse, Conn.SendCommand, Conn.UnixNano, Conn.emit,
    Conn.with_conn.
  cbn.
  destruct (Conn.incoming s) as [|[frameType data|err] rest]; cbn;
  repeat (match goal with
          | |- context [if ?b then _ else _] => destruct b
          | |- context [match Message.DecodeMessage ?d with _ => _ end] =>
              destruct (Message.DecodeMessage d)
          | |- context [match Conn.write_result ?e ?k with _ => _ end] =>
              destruct (Conn.write_result e k)
          end; cbn);
    intros [= <- <-]; cbn; rewrite <- ?app_assoc; cbn;
    eexists; (split; [reflexivity|]); cbn; tauto.
Qed.

(** What the iterations of readLoop change, up to its [exit:] label. *)
Lemma readLoop_frame env (fuel : nat) (s s' : Conn.World) :
  Conn.readLoop env fuel s = Some s' ->
  exists s1 tr, s' = Conn.readLoop_exit s1 /\ Conn.readLoop_kept s s1 tr.
Proof.
  revert s. induction fuel as [|fuel IH]; intros s; [discriminate|].
  cbn [Conn.readLoop].
  destruct (Conn.readLoop_iter env s) as [next s1] eqn:Hit.
  destruct (readLoop_iter_frame _ _ _ _ Hit)
    as (tr & Htr & Hcl & Hl & Hx & Hsf & Hst & Hwg & Hec & Hmif & Hrdy).
  destruct next.
  - intros Hrun. apply IH in Hrun as
      (s2 & tr2 & -> & Htr2 & Hcl2 & Hl2 & Hx2 & Hsf2 & Hst2 & Hwg2 & Hec2
         & Hmif2
         & Hrdy2).
    exists s2, (tr ++ tr2). split; [reflexivity|]. unfold Conn.readLoop_kept.
    rewrite Htr2, Htr, <- app_assoc, exitChan_closes_app, Hcl, Hcl2.
    rewrite Hl2, Hx2, Hsf2, Hst2, Hwg2, Hec2, Hmif2, Hrdy2, Hmif, Hrdy.
    rewrite delivered_app, length_app, (Nat.add_comm (length _)), !Nat.iter_add.
    tauto.
  - intros [= <-]. exists s1, tr. unfold Conn.readLoop_kept. tauto.
Qed.

(** What the orchestrated close changes. *)
Lemma close_frame (s : Conn.World) :
  Conn.trace (Conn.close s)
  = Conn.trace s
    ++ (if Conn.stopper (Conn.conn s) then []
        else [Conn.CloseExitChan; Conn.GoCleanup; Conn.GoWaitForCleanup])
  /\ Conn.stopper (Conn.conn (Conn.close s)) = true
  /\ Conn.exitChan_closed (Conn.conn (Conn.close s))
     = (if Conn.stopper (Conn.conn s)
        then Conn.exitChan_closed (Conn.conn s) else true)
  /\ Conn.wg (Conn.conn (Conn.close s))
     = (if Conn.stopper (Conn.conn s)
        then Conn.wg (Conn.conn s) else Conn.wg (Conn.conn s) + 1)
  /\ Conn.messagesInFlight (Conn.conn (Conn.close s))
     = Conn.messagesInFlight (Conn.conn s)
  /\ Conn.rdyCount (Conn.conn (Conn.close s)) = Conn.rdyCount (Conn.conn s)
  /\ Conn.lastRdyCount (Conn.conn (Conn.close s))
     = Conn.lastRdyCount (Conn.conn s)
  /\ Conn.maxRdyCount (Conn.conn (Conn.close s))
     = Conn.maxRdyCount (Conn.conn s)
  /\ Conn.stopFlag (Conn.conn (Conn.close s)) = Conn.stopFlag (Conn.conn s)
  /\ Conn.readLoopRunning (Conn.conn (Conn.close s))
     = Conn.readLoopRunning (Conn.conn s)
  /\ Conn.netConn (Conn.conn (Conn.close s)) = Conn.netConn (Conn.conn s)
  /\ Conn.sent (Conn.close s) = Conn.sent s
  /\ Conn.incoming (Conn.close s) = Conn.incoming s.
Proof.
  unfold Conn.close.
  destruct (Conn.stopper (Conn.conn s)) eqn:Hst.
  - rewrite app_nil_r. repeat (split; [first [reflexivity | exact Hst]|]).
    reflexivity.
  - split.
    { cbn [Conn.trace Conn.emit Conn.with_conn]. rewrite <- !app_assoc.
      reflexivity. }
    repeat (split; [reflexivity|]). reflexivity.
Qed.

(** What readLoop does after its [exit:] label. *)
Lemma readLoop_exit_frame (s1 : Conn.World) :
  exists tr,
    Conn.trace (Conn.readLoop_exit s1) = Conn.trace s1 ++ tr
    /\ Conn.delivered tr = []
    /\ Conn.messagesInFlight (Conn.conn (Conn.readLoop_exit s1))
       = Conn.messagesInFlight (Conn.conn s1)
    /\ Conn.rdyCount (Conn.conn (Conn.readLoop_exit s1))
       = Conn.rdyCount (Conn.conn s1)
    /\ Conn.lastRdyCount (Conn.conn (Conn.readLoop_exit s1))
       = Conn.lastRdyCount (Conn.conn s1)
    /\ Conn.maxRdyCount (Conn.conn (Conn.readLoop_exit s1))
       = Conn.maxRdyCount (Conn.conn s1)
    /\ Conn.stopFlag (Conn.conn (Conn.readLoop_exit s1))
       = Conn.stopFlag (Conn.conn s1)
    /\ Conn.readLoopRunning (Conn.conn (Conn.readLoop_exit s1)) = 0
    /\ if (Conn.messagesInFlight (Conn.conn s1) =? 0)
          && negb (Conn.stopper (Conn.conn s1))
       then tr = [Conn.CloseExitChan; Conn.GoCleanup; Conn.GoWaitForCleanup]
            /\ Conn.stopper (Conn.conn (Conn.readLoop_exit s1)) = true
            /\ Conn.exitChan_closed (Conn.conn (Conn.readLoop_exit s1)) = true
            /\ Conn.wg (Conn.conn (Conn.readLoop_exit s1))
               = Conn.wg (Conn.conn s1)
       else tr = []
            /\ Conn.stopper (Conn.conn (Conn.readLoop_exit s1))
               = Conn.stopper (Conn.conn s1)
            /\ Conn.exitChan_closed (Conn.conn (Conn.readLoop_exit s1))
               = Conn.exitChan_closed (Conn.conn s1)
            /\ Conn.wg (Conn.conn (Conn.readLoop_exit s1))
               = Conn.wg (Conn.conn s1) - 1.
Proof.
  unfold Conn.readLoop_exit.
  change (Conn.messagesInFlight
            (Conn.conn (Conn.with_conn (Conn.set_readLoopRunning 0) s1)))
    with (Conn.messagesInFlight (Conn.conn s1)).
  destruct (Conn.messagesInFlight (Conn.conn s1) =? 0).
  - set (s2 := Conn.with_conn (Conn.set_readLoopRunning 0) s1).
    destruct (close_frame s2)
      as (Htr & Hst & Hec & Hwg & Hm & Hr & Hl & Hx & Hsf & Hrun & _).
    change (Conn.stopper (Conn.conn s2)) with (Conn.stopper (Conn.conn s1))
      in *.
    eexists. split; [exact Htr|].
    change (Conn.conn (Conn.with_conn ?f ?s)) with (f (Conn.conn s)).
    cbv beta.
    change (Conn.messagesInFlight (Conn.set_wg ?v ?c))
      with (Conn.messagesInFlight c).
    change (Conn.rdyCount (Conn.set_wg ?v ?c)) with (Conn.rdyCount c).
    change (Conn.lastRdyCount (Conn.set_wg ?v ?c)) with (Conn.lastRdyCount c).
    change (Conn.maxRdyCount (Conn.set_wg ?v ?c)) with (Conn.maxRdyCount c).
    change (Conn.stopFlag (Conn.set_wg ?v ?c)) with (Conn.stopFlag c).
    change (Conn.readLoopRunning (Conn.set_wg ?v ?c))
      with (Conn.readLoopRunning c).
    change (Conn.stopper (Conn.set_wg ?v ?c)) with (Conn.stopper c).
    change (Conn.exitChan_closed (Conn.set_wg ?v ?c))
      with (Conn.exitChan_closed c).
    change (Conn.wg (Conn.set_wg ?v ?c)) with v.
    rewrite Hst, Hec, Hwg, Hm, Hr, Hl, Hx, Hsf, Hrun.
    destruct (Conn.stopper (Conn.conn s1)); cbn [andb negb];
      repeat (split; [reflexivity|]); try reflexivity.
    change (Conn.wg (Conn.conn s2)) with (Conn.wg (Conn.conn s1)). lia.
  - exists []. rewrite app_nil_r. cbn [andb]. repeat split.
Qed.

(** X3. readLoop returns, and when it does messagesInFlight has grown by
    the number of messages it handed to the message callback, and rdyCount
    has shrunk by as much: their sum is what it was (all in the wrap-around
    arithmetic of int64). *)
Theorem readLoop_in_flight env (s : Conn.World) :
  - 2 ^ 63 <= Conn.messagesInFlight (Conn.conn s) < 2 ^ 63 ->
  - 2 ^ 63 <= Conn.rdyCount (Conn.conn s) < 2 ^ 63 ->
  exists s' tr,
    Conn.readLoop env (S (length (Conn.incoming s))) s = Some s'
    /\ Conn.trace s' = Conn.trace s ++ tr
    /\ Conn.messagesInFlight (Conn.conn s')
       = int64 (Conn.messagesInFlight (Conn.conn s)
                + Z.of_nat (length (Conn.delivered tr)))
    /\ int64 (Conn.messagesInFlight (Conn.conn s')
              + Conn.rdyCount (Conn.conn s'))
       = int64 (Conn.messagesInFlight (Conn.conn s)
                + Conn.rdyCount (Conn.conn s)).
Proof.
  intros Hm Hr. destruct (readLoop_terminates env s) as [s' Hrun].
  exists s'.
  destruct (readLoop_frame _ _ _ _ Hrun)
    as (s1 & tr & -> & Htr & _ & _ & _ & _ & _ & _ & _ & Hmif & Hrdy).
  destruct (readLoop_exit_frame s1) as (tr' & Htr' & Hd & -> & -> & _).
  exists (tr ++ tr'). split; [exact Hrun|].
  rewrite Htr', Htr, <- app_assoc, delivered_app, Hd, app_nil_r, Hmif, Hrdy.
  rewrite !iter_AddInt64 by assumption.
  split; [reflexivity | split; [f_equal; lia|]].
  rewrite int64_add, Z.add_comm, int64_add. f_equal. lia.
Qed.

Lemma readLoop_in_flight_witness :
  exists s' tr,
    Conn.readLoop sample_env 3 (sample_world sample_conn sample_frames)
    = Some s'
    /\ Conn.trace s' = [] ++ tr
    /\ Conn.messagesInFlight (Conn.conn s')
       = int64 (0 + Z.of_nat (length (Conn.delivered tr)))
    /\ int64 (Conn.messagesInFlight (Conn.conn s')
              + Conn.rdyCount (Conn.conn s'))
       = int64 (0 + 1).
Proof.
  apply (readLoop_in_flight sample_env
           (sample_world sample_conn sample_frames)); simpl; lia.
Defined.

(** X4. After SetRDY(rdy) and a run of readLoop, RDY() is rdy less the
    number of messages readLoop delivered, LastRDY() is rdy, and MaxRDY()
    is unchanged. *)
Theorem SetRDY_readLoop env (rdy : Z) (s : Conn.World) :
  - 2 ^ 63 <= rdy < 2 ^ 63 ->
  - 2 ^ 63 <= Conn.messagesInFlight (Conn.conn s) < 2 ^ 63 ->
  exists s' tr,
    Conn.readLoop env (S (length (Conn.incoming s)))
      (Conn.with_conn (Conn.SetRDY rdy) s) = Some s'
    /\ Conn.trace s' = Conn.trace s ++ tr
    /\ Conn.RDY (Conn.conn s')
       = int64 (rdy - Z.of_nat (length (Conn.delivered tr)))
    /\ Conn.LastRDY (Conn.conn s') = rdy
    /\ Conn.MaxRDY (Conn.conn s') = Conn.MaxRDY (Conn.conn s).
Proof.
  intros Hr Hm.
  destruct (readLoop_terminates env (Conn.with_conn (Conn.SetRDY rdy) s))
    as [s' Hrun].
  change (Conn.incoming (Conn.with_conn (Conn.SetRDY rdy) s))
    with (Conn.incoming s) in Hrun.
  exists s'.
  destruct (readLoop_frame _ _ _ _ Hrun)
    as (s1 & tr & -> & Htr & _ & Hl & Hx & _ & _ & _ & _ & _ & Hrdy).
  destruct (readLoop_exit_frame s1)
    as (tr' & Htr' & Hd & _ & Hr' & Hl' & Hx' & _).
  exists (tr ++ tr'). split; [exact Hrun|].
  unfold Conn.RDY, Conn.LastRDY, Conn.MaxRDY.
  rewrite Htr', Htr, <- app_assoc, delivered_app, Hd, app_nil_r.
  rewrite Hr', Hl', Hx', Hrdy, Hl, Hx. cbn.
  rewrite iter_AddInt64 by assumption.
  split; [reflexivity | split; [f_equal; lia | tauto]].
Qed.

Lemma SetRDY_readLoop_witness :
  exists s' tr,
    Conn.readLoop sample_env 3
      (Conn.with_conn (Conn.SetRDY 5)
         (sample_world sample_conn sample_frames)) = Some s'
    /\ Conn.trace s' = [] ++ tr
    /\ Conn.RDY (Conn.conn s')
       = int64 (5 - Z.of_nat (length (Conn.delivered tr)))
    /\ Conn.LastRDY (Conn.conn s') = 5
    /\ Conn.MaxRDY (Conn.conn s') = 2500.
Proof.
  apply (SetRDY_readLoop sample_env 5
           (sample_world sample_conn sample_frames)); simpl; lia.
Defined.

(** X5. On a connection whose close has not started, readLoop returns
    with readLoopRunning 0.  With no message in flight it has started the
    close as its last act: exitChan is closed, cleanup and waitForCleanup
    are started, and the wait group is where it was (one goroutine done,
    one added).  With messages in flight it has started nothing and has
    left the wait group one lower. *)
Theorem readLoop_exit_close env (s : Conn.World) :
  Conn.stopper (Conn.conn s) = false ->
  exists s',
    Conn.readLoop env (S (length (Conn.incoming s))) s = Some s'
    /\ Conn.readLoopRunning (Conn.conn s') = 0
    /\ if Conn.messagesInFlight (Conn.conn s') =? 0
       then Conn.stopper (Conn.conn s') = true
            /\ Conn.exitChan_closed (Conn.conn s') = true
            /\ Conn.wg (Conn.conn s') = Conn.wg (Conn.conn s)
            /\ exists tr,
                 Conn.trace s'
                 = Conn.trace s ++ tr
                   ++ [Conn.CloseExitChan; Conn.GoCleanup;
                       Conn.GoWaitForCleanup]
                 /\ Conn.exitChan_closes tr = 0%nat
       else Conn.stopper (Conn.conn s') = false
            /\ Conn.exitChan_closed (Conn.conn s')
               = Conn.exitChan_closed (Conn.conn s)
            /\ Conn.wg (Conn.conn s') = Conn.wg (Conn.conn s) - 1
            /\ Conn.exitChan_closes (Conn.trace s')
               = Conn.exitChan_closes (Conn.trace s).
Proof.
  intros Hst. destruct (readLoop_terminates env s) as [s' Hrun].
  exists s'. split; [exact Hrun|].
  destruct (readLoop_frame _ _ _ _ Hrun)
    as (s1 & tr & -> & Htr & Hcl & _ & _ & _ & Hst1 & Hwg & Hec & _ & _).
  destruct (readLoop_exit_frame s1)
    as (tr' & Htr' & _ & Hmif' & _ & _ & _ & _ & Hrun' & Hif).
  rewrite Hst in Hst1. rewrite Hst1 in Hif. rewrite Hmif', Htr', Htr.
  split; [exact Hrun'|].
  destruct (Conn.messagesInFlight (Conn.conn s1) =? 0); cbn [andb negb] in Hif.
  - destruct Hif as (-> & -> & -> & ->).
    repeat (split; [first [reflexivity | assumption]|]).
    exists tr. rewrite <- app_assoc. split; [reflexivity | exact Hcl].
  - destruct Hif as (-> & -> & -> & ->).
    rewrite app_nil_r, exitChan_closes_app, Hcl.
    repeat (split; [first [reflexivity | assumption | lia]|]). lia.
Qed.

Lemma readLoop_exit_close_witness :
  exists s',
    Conn.readLoop sample_env 1 (sample_world sample_conn []) = Some s'
    /\ Conn.readLoopRunning (Conn.conn s') = 0
    /\ if Conn.messagesInFlight (Conn.conn s') =? 0
       then Conn.stopper (Conn.conn s') = true
            /\ Conn.exitChan_closed (Conn.conn s') = true
            /\ Conn.wg (Conn.conn s') = 2
            /\ exists tr,
                 Conn.trace s'
                 = [] ++ tr
                   ++ [Conn.CloseExitChan; Conn.GoCleanup;
                       Conn.GoWaitForCleanup]
                 /\ Conn.exitChan_closes tr = 0%nat
       else Conn.stopper (Conn.conn s') = false
            /\ Conn.exitChan_closed (Conn.conn s') = false
            /\ Conn.wg (Conn.conn s') = 2 - 1
            /\ Conn.exitChan_closes (Conn.trace s') = 0%nat.
Proof.
  apply (readLoop_exit_close sample_env (sample_world sample_conn [])).
  reflexivity.
Defined.

(** X6. After Stop(), readLoop leaves at its next iteration: it reads no
    further frame, delivers no further message, and returns with
    IsStopping() true and readLoopRunning 0. *)
Theorem Stop_ends_readLoop env (fuel : nat) (s : Conn.World) :
  let stopped := Conn.with_conn Conn.Stop s in
  Conn.readLoop env (S fuel) stopped = Some (Conn.readLoop_exit stopped)
  /\ Conn.incoming (Conn.readLoop_exit stopped) = Conn.incoming s
  /\ Conn.reads (Conn.trace (Conn.readLoop_exit stopped))
     = Conn.reads (Conn.trace s)
  /\ Conn.delivered (Conn.trace (Conn.readLoop_exit stopped))
     = Conn.delivered (Conn.trace s)
  /\ Conn.IsStopping (Conn.conn (Conn.readLoop_exit stopped)) = true
  /\ Conn.readLoopRunning (Conn.conn (Conn.readLoop_exit stopped)) = 0.
Proof.
  cbn zeta. split; [reflexivity|].
  set (stopped := Conn.with_conn Conn.Stop s).
  destruct (readLoop_exit_frame stopped)
    as (tr & Htr & Hd & _ & _ & _ & _ & Hsf & Hrun & Hif).
  rewrite Htr, reads_app, delivered_app, Hd, app_nil_r.
  unfold Conn.IsStopping. rewrite Hsf, Hrun.
  assert (Conn.reads tr = []) as ->.
  { destruct (_ && _); destruct Hif as [-> _]; reflexivity. }
  rewrite app_nil_r.
  split; [|repeat (split; [reflexivity|]); reflexivity].
  unfold Conn.readLoop_exit.
  change (Conn.incoming (Conn.with_conn ?f ?s)) with (Conn.incoming s).
  destruct (_ =? 0); [|reflexivity].
  transitivity (Conn.incoming (Conn.with_conn (Conn.set_readLoopRunning 0)
                                 stopped)); [apply close_frame | reflexivity].
Qed.

(** ** Properties of writeLoop and cleanup *)

Lemma commands_app tr1 tr2 :
  Conn.commands (tr1 ++ tr2) = Conn.commands tr1 ++ Conn.commands tr2.
Proof. apply omap_app. Qed.

Ltac conn_fields :=
  cbn [Conn.conn Conn.trace Conn.sent Conn.incoming Conn.ticks Conn.world
       Conn.callbacks Conn.drainReady_closed
       Conn.with_conn Conn.emit Conn.Stop
       Conn.set_messagesInFlight Conn.set_stopFlag Conn.set_readLoopRunning
       Conn.set_wg
       Conn.messagesInFlight Conn.rdyCount Conn.lastRdyCount Conn.maxRdyCount
       Conn.stopFlag Conn.stopper Conn.wg Conn.readLoopRunning
       Conn.exitChan_closed Conn.netConn fst snd] in *.

Ltac loop_case :=
  unfold Conn.writeLoop_case, Conn.cleanup_case, Conn.SendCommand,
    Conn.with_world, Conn.call, Conn.set_drainReady_closed;
  cbn -[Conn.close Conn.with_conn Conn.emit AddInt64];
  cbn [Conn.sent Conn.emit Conn.with_conn];
  repeat (match goal with
          | |- context [match Conn.write_result ?e ?k with _ => _ end] =>
              destruct (Conn.write_result e k) eqn:?
          | |- context [if ?b then _ else _] =>
              lazymatch b with
              | context [Conn.close] => fail
              | _ => destruct b eqn:?
              end
          end; cbn -[Conn.close Conn.with_conn Conn.emit AddInt64]).

Ltac use_close :=
  repeat match goal with
         | |- context [Conn.close ?s] =>
           let Htr := fresh "Htr" in
           let Hst := fresh "Hst" in
           let Hec := fresh "Hec" in
           let Hwg := fresh "Hwg" in
           let Hm := fresh "Hm" in
           let Hr := fresh "Hr" in
           let Hl := fresh "Hl" in
           let Hx := fresh "Hx" in
           let Hsf := fresh "Hsf" in
           let Hrun := fresh "Hrun" in
           let Hnc := fresh "Hnc" in
           let Hsent := fresh "Hsent" in
           let Hinc := fresh "Hinc" in
           destruct (close_frame s)
             as (Htr & Hst & Hec & Hwg & Hm & Hr & Hl & Hx & Hsf & Hrun & Hnc
                 & Hsent & Hinc);
           rewrite ?Htr, ?Hst, ?Hec, ?Hwg, ?Hm, ?Hr, ?Hl, ?Hx, ?Hsf, ?Hrun,
             ?Hnc, ?Hsent, ?Hinc;
           clear Htr Hst Hec Hwg Hm Hr Hl Hx Hsf Hrun Hnc Hsent Hinc;
           try (generalize dependent (Conn.close s); intros)
         end.

(** What one iteration of writeLoop writes. *)
Lemma writeLoop_case_commands env ev p :
  Conn.commands (Conn.trace (Conn.world (snd (Conn.writeLoop_case env ev p))))
  = Conn.commands (Conn.trace (Conn.world p))
    ++ from_option (fun cmd => [cmd]) [] (Conn.owed ev)
  /\ (fst (Conn.writeLoop_case env ev p) = Conn.Exit
      <-> ev = Conn.RecvExitChan).
Proof.
  destruct ev; loop_case; use_close;
    cbn [Conn.trace Conn.emit Conn.with_conn];
    rewrite <- ?app_assoc, ?commands_app; cbn [Conn.commands omap app];
    repeat match goal with
           | |- context [if ?b then _ else _] => destruct b
           end;
    cbn [Conn.commands omap app]; rewrite ?app_nil_r;
    (split; [reflexivity | split; congruence]).
Qed.

Lemma writeLoop_exit_trace p :
  Conn.trace (Conn.world (Conn.writeLoop_exit p)) = Conn.trace (Conn.world p).
Proof. reflexivity. Qed.

(** X7. writeLoop writes to the connection one command for every command
    and every finished message it receives before exitChan, in the order
    it receives them (FIN or REQ for a finished message), whether or not
    the writes succeed; and it returns exactly when it has received from
    exitChan. *)
Theorem writeLoop_commands env (evs : list Conn.WriteEvent) (p : Conn.Pump) :
  Conn.commands (Conn.trace (Conn.world (snd (Conn.writeLoop env evs p))))
  = Conn.commands (Conn.trace (Conn.world p))
    ++ omap Conn.owed (Conn.handled evs)
  /\ (fst (Conn.writeLoop env evs p) = Conn.Exit
      <-> Conn.RecvExitChan ∈ evs).
Proof.
  revert p. induction evs as [|ev evs IH]; intros p.
  - cbn. rewrite app_nil_r. split; [reflexivity|].
    split; [discriminate | by intros ?%elem_of_nil].
  - cbn [Conn.writeLoop].
    destruct (writeLoop_case_commands env ev p) as [Hc Hx].
    destruct (Conn.writeLoop_case env ev p) as [[] p1]; cbn [fst snd] in *.
    + destruct (IH p1) as [-> IHx]. rewrite Hc, <- app_assoc.
      assert (ev <> Conn.RecvExitChan) as Hne by (intros ?; by apply Hx in H).
      split.
      * f_equal. destruct ev; try done.
      * rewrite IHx, elem_of_cons. split; [by right | intros [?|?]; done].
    + assert (ev = Conn.RecvExitChan) as -> by (by apply Hx).
      rewrite writeLoop_exit_trace, Hc. split; [reflexivity|].
      split; [intros _; left | reflexivity].
Qed.



(** What one iteration of writeLoop does to the counters. *)
Lemma writeLoop_case_counters env ev p :
  let p' := snd (Conn.writeLoop_case env ev p) in
  let c := Conn.conn (Conn.world p) in
  let c' := Conn.conn (Conn.world p') in
  Conn.messagesInFlight c'
  = match ev with
    | Conn.RecvFinishedMessage _ => AddInt64 (Conn.messagesInFlight c) (-1)
    | Conn.Delivered => AddInt64 (Conn.messagesInFlight c) 1
    | _ => Conn.messagesInFlight c
    end
  /\ Conn.stopFlag c'
     = match ev with Conn.Stopped => 1 | _ => Conn.stopFlag c end
  /\ Conn.sent (Conn.world p')
     = (Conn.sent (Conn.world p)
        + length (from_option (fun cmd => [cmd]) [] (Conn.owed ev)))%nat
  /\ Conn.readLoopRunning c' = Conn.readLoopRunning c
  /\ Conn.drainReady_closed p'
     = match ev with
       | Conn.RecvExitChan => true
       | _ => Conn.drainReady_closed p
       end.
Proof.
  destruct ev; loop_case; use_close; conn_fields;
    cbn [length from_option Conn.owed]; rewrite ?Nat.add_0_r;
    (split; [|split; [|split; [|split]]]); first [reflexivity | lia].
Qed.

(** When one iteration of writeLoop calls close(), and MessageProcessedCB. *)
Lemma writeLoop_case_stopper env ev p :
  let p' := snd (Conn.writeLoop_case env ev p) in
  let c := Conn.conn (Conn.world p) in
  let c' := Conn.conn (Conn.world p') in
  let failed :=
    match Conn.owed ev, Conn.write_result env (Conn.sent (Conn.world p)) with
    | Some _, Some _ => true
    | _, _ => false
    end in
  Conn.stopper c'
  = Conn.stopper c || failed
    || match ev with
       | Conn.RecvFinishedMessage _ =>
         (Conn.messagesInFlight c' =? 0) && (Conn.stopFlag c =? 1)
       | _ => false
       end
  /\ Conn.processed (Conn.callbacks p')
     = Conn.processed (Conn.callbacks p)
       ++ match ev with
          | Conn.RecvFinishedMessage finishedMsg =>
            if failed then [] else [finishedMsg]
          | _ => []
          end.
Proof.
  unfold Conn.processed.
  destruct ev; loop_case; use_close; conn_fields;
    rewrite ?omap_app; cbn [omap app Conn.owed];
    rewrite ?app_nil_r, ?orb_false_r, ?orb_true_r;
    repeat match goal with
           | H : Conn.write_result _ _ = _ |- _ => rewrite ?H; clear H
           | H : (_ && _) = _ |- _ => rewrite ?H; clear H
           end;
    rewrite ?app_nil_r, ?orb_false_r, ?orb_true_r;
    (split; reflexivity).
Qed.

(** An iteration of writeLoop closes exitChan through close() only. *)
Lemma writeLoop_case_closed_once env ev p :
  Conn.closed_once (Conn.world p) ->
  Conn.closed_once (Conn.world (snd (Conn.writeLoop_case env ev p))).
Proof.
  unfold Conn.closed_once, Conn.exitChan_closes. intros [Hn Hc].
  destruct ev; loop_case; use_close; conn_fields;
    rewrite <- ?app_assoc, ?omap_app, ?length_app;
    try (split; assumption);
    destruct (Conn.stopper (Conn.conn (Conn.world p)));
    cbn [omap length app]; rewrite ?Hn, ?Hc;
    (split; first [reflexivity | lia | assumption]).
Qed.

Lemma writeLoop_cons env ev evs p :
  Conn.writeLoop env (ev :: evs) p
  = match ev with
    | Conn.RecvExitChan =>
      (Conn.Exit, Conn.writeLoop_exit (snd (Conn.writeLoop_case env ev p)))
    | _ => Conn.writeLoop env evs (snd (Conn.writeLoop_case env ev p))
    end.
Proof.
  cbn [Conn.writeLoop].
  destruct (writeLoop_case_commands env ev p) as [_ Hx].
  destruct (Conn.writeLoop_case env ev p) as [[] p1]; cbn [fst snd] in *.
  - destruct ev; try reflexivity.
    by destruct Hx as [_ Hx]; specialize (Hx eq_refl).
  - destruct Hx as [Hx _]. by rewrite (Hx eq_refl).
Qed.

Lemma writeLoop_exit_frame p :
  Conn.messagesInFlight (Conn.conn (Conn.world (Conn.writeLoop_exit p)))
  = Conn.messagesInFlight (Conn.conn (Conn.world p))
  /\ Conn.stopper (Conn.conn (Conn.world (Conn.writeLoop_exit p)))
     = Conn.stopper (Conn.conn (Conn.world p))
  /\ Conn.callbacks (Conn.writeLoop_exit p) = Conn.callbacks p
  /\ Conn.drainReady_closed (Conn.writeLoop_exit p) = Conn.drainReady_closed p
  /\ Conn.wg (Conn.conn (Conn.world (Conn.writeLoop_exit p)))
     = Conn.wg (Conn.conn (Conn.world p)) - 1
  /\ (Conn.closed_once (Conn.world p)
      -> Conn.closed_once (Conn.world (Conn.writeLoop_exit p))).
Proof. repeat (split; [reflexivity|]). intros H. exact H. Qed.

(** X8. After writeLoop has handled its events, messagesInFlight is what
    it was, less the finished messages writeLoop received, plus the
    messages readLoop delivered meanwhile: every finished message is
    counted, also when the FIN or REQ for it cannot be written. *)
Theorem writeLoop_in_flight env (evs : list Conn.WriteEvent) (p : Conn.Pump) :
  - 2 ^ 63 <= Conn.messagesInFlight (Conn.conn (Conn.world p)) < 2 ^ 63 ->
  Conn.messagesInFlight
    (Conn.conn (Conn.world (snd (Conn.writeLoop env evs p))))
  = int64 (Conn.messagesInFlight (Conn.conn (Conn.world p))
           - Z.of_nat (length (Conn.finished_messages (Conn.handled evs)))
           + Z.of_nat (Conn.deliveries (Conn.handled evs))).
Proof.
  revert p. induction evs as [|ev evs IH]; intros p Hm.
  - cbn. rewrite Z.sub_0_r, Z.add_0_r. symmetry. by apply int64_in_range.
  - rewrite writeLoop_cons.
    destruct (writeLoop_case_counters env ev p) as (Hmif & _).
    cbv zeta in Hmif.
    assert (- 2 ^ 63
            <= Conn.messagesInFlight
                 (Conn.conn (Conn.world (snd (Conn.writeLoop_case env ev p))))
            < 2 ^ 63) as Hm1.
    { rewrite Hmif. destruct ev; first [exact Hm | apply int64_range]. }
    destruct ev; try rewrite (IH _ Hm1), Hmif;
      unfold Conn.deliveries, Conn.finished_messages, AddInt64;
      cbn [Conn.handled omap list_omap length snd].
    + destruct (writeLoop_exit_frame
                  (snd (Conn.writeLoop_case env Conn.RecvExitChan p)))
        as [-> _].
      rewrite Hmif, Z.sub_0_r, Z.add_0_r. symmetry. by apply int64_in_range.
    + reflexivity.
    + rewrite Nat2Z.inj_succ.
      match goal with
      | |- int64 (int64 ?a - ?n + ?d) = _ =>
          replace (int64 a - n + d) with (int64 a + (- n + d)) by lia
      end.
      rewrite int64_add. f_equal. lia.
    + rewrite Nat2Z.inj_succ.
      match goal with
      | |- int64 (int64 ?a - ?n + ?d) = _ =>
          replace (int64 a - n + d) with (int64 a + (- n + d)) by lia
      end.
      rewrite int64_add. f_equal. lia.
    + reflexivity.
Qed.

Lemma writeLoop_in_flight_witness :
  Conn.messagesInFlight
    (Conn.conn
       (Conn.world
          (snd (Conn.writeLoop sample_env_broken_pipe sample_write_events
                  (sample_pump 2)))))
  = int64 (2
           - Z.of_nat (length (Conn.finished_messages
                                 (Conn.handled sample_write_events)))
           + Z.of_nat (Conn.deliveries (Conn.handled sample_write_events))).
Proof.
  apply (writeLoop_in_flight sample_env_broken_pipe sample_write_events
           (sample_pump 2)).
  simpl. lia.
Defined.

(** X9. The finished messages writeLoop passes to MessageProcessedCB are
    finished messages it received, in the order received; when no write
    fails they are all of them. *)
Theorem writeLoop_processed env (evs : list Conn.WriteEvent) (p : Conn.Pump) :
  exists reported,
    Conn.processed (Conn.callbacks (snd (Conn.writeLoop env evs p)))
    = Conn.processed (Conn.callbacks p) ++ reported
    /\ sublist reported (Conn.finished_messages (Conn.handled evs))
    /\ ((forall k, Conn.write_result env k = None) ->
        reported = Conn.finished_messages (Conn.handled evs)).
Proof.
  revert p. induction evs as [|ev evs IH]; intros p.
  - exists []. rewrite app_nil_r. split; [reflexivity|].
    split; [constructor|done].
  - rewrite writeLoop_cons.
    destruct (writeLoop_case_stopper env ev p) as [_ Hcb]. cbv zeta in Hcb.
    destruct (IH (snd (Conn.writeLoop_case env ev p)))
      as (reported & Hrep & Hsub & Hall).
    unfold Conn.finished_messages in *.
    destruct ev; cbn [Conn.handled omap list_omap snd];
      try (exists reported; rewrite Hrep, Hcb, app_nil_r; tauto).
    + exists []. rewrite app_nil_r.
      destruct (writeLoop_exit_frame
                  (snd (Conn.writeLoop_case env Conn.RecvExitChan p)))
        as (_ & _ & -> & _).
      rewrite Hcb, app_nil_r. split; [reflexivity|]. split; [constructor|done].
    + rewrite Hrep, Hcb. cbn [Conn.owed].
      destruct (Conn.write_result env (Conn.sent (Conn.world p))) eqn:Hw.
      * exists reported. rewrite app_nil_r. split; [reflexivity|].
        split; [by apply sublist_cons|]. intros Hok. rewrite Hok in Hw. done.
      * exists (finishedMsg :: reported). rewrite <- app_assoc.
        split; [reflexivity|]. split; [by apply sublist_skip|].
        intros Hok. f_equal. by apply Hall.
Qed.

Lemma writeLoop_stopper_mono env (evs : list Conn.WriteEvent) (p : Conn.Pump) :
  Conn.stopper (Conn.conn (Conn.world p)) = true ->
  Conn.stopper (Conn.conn (Conn.world (snd (Conn.writeLoop env evs p)))) = true.
Proof.
  revert p. induction evs as [|ev evs IH]; intros p Hst; [exact Hst|].
  rewrite writeLoop_cons.
  destruct (writeLoop_case_stopper env ev p) as [Hs _]. cbv zeta in Hs.
  rewrite Hst in Hs. cbn [orb] in Hs.
  destruct ev; try (apply IH; exact Hs).
  cbn [snd].
  destruct (writeLoop_exit_frame
              (snd (Conn.writeLoop_case env Conn.RecvExitChan p)))
    as (_ & -> & _).
  exact Hs.
Qed.

Lemma writeLoop_exit_sent p :
  Conn.sent (Conn.world (Conn.writeLoop_exit p)) = Conn.sent (Conn.world p).
Proof. reflexivity. Qed.

(** X10. A write that fails during writeLoop starts the close of the
    connection: after the loop the sync.Once of close() has fired. *)
Theorem writeLoop_failed_write env (evs : list Conn.WriteEvent) (p : Conn.Pump)
    (k : nat) :
  (Conn.sent (Conn.world p) <= k
   < Conn.sent (Conn.world (snd (Conn.writeLoop env evs p))))%nat ->
  Conn.write_result env k <> None ->
  Conn.stopper (Conn.conn (Conn.world (snd (Conn.writeLoop env evs p)))) = true.
Proof.
  revert p. induction evs as [|ev evs IH]; intros p Hk Hw.
  - cbn in Hk. lia.
  - rewrite writeLoop_cons in *.
    destruct (writeLoop_case_stopper env ev p) as [Hs _].
    destruct (writeLoop_case_counters env ev p) as (_ & _ & Hsent & _).
    cbv zeta in Hs, Hsent.
    set (p1 := snd (Conn.writeLoop_case env ev p)) in *.
    destruct (decide (Conn.sent (Conn.world p1) <= k)%nat) as [Hle|Hlt].
    + destruct ev; try (apply IH; [lia | exact Hw]).
      cbn [snd] in Hk. rewrite writeLoop_exit_sent in Hk. lia.
    + assert (Conn.stopper (Conn.conn (Conn.world p1)) = true) as Hst.
      { rewrite Hs.
        destruct (Conn.owed ev) eqn:Ho; cbn [from_option length] in Hsent;
          [|lia].
        replace (Conn.sent (Conn.world p)) with k by lia.
        destruct (Conn.write_result env k); [|done].
        by rewrite orb_true_r. }
      destruct ev; try (by apply writeLoop_stopper_mono).
      cbn [snd].
      destruct (writeLoop_exit_frame p1) as (_ & -> & _). exact Hst.
Qed.

Lemma writeLoop_failed_write_witness :
  Conn.stopper
    (Conn.conn
       (Conn.world
          (snd (Conn.writeLoop sample_env_broken_pipe sample_write_events
                  (sample_pump 2))))) = true.
Proof.
  apply (writeLoop_failed_write sample_env_broken_pipe sample_write_events
           (sample_pump 2) 0%nat).
  - vm_compute. lia.
  - vm_compute. discriminate.
Defined.

Lemma writeLoop_no_finished env (evs : list Conn.WriteEvent) (p : Conn.Pump) :
  (forall k, Conn.write_result env k = None) ->
  Conn.finished_messages evs = [] ->
  Conn.stopper (Conn.conn (Conn.world (snd (Conn.writeLoop env evs p))))
  = Conn.stopper (Conn.conn (Conn.world p)).
Proof.
  intros Hok. revert p. induction evs as [|ev evs IH]; intros p Hnone;
    [reflexivity|].
  rewrite writeLoop_cons.
  destruct (writeLoop_case_stopper env ev p) as [Hs _]. cbv zeta in Hs.
  rewrite Hok in Hs.
  destruct ev; try discriminate Hnone;
    try (rewrite IH by exact Hnone; rewrite Hs;
         cbn [Conn.owed]; by rewrite ?orb_false_r).
  cbn [snd].
  destruct (writeLoop_exit_frame
              (snd (Conn.writeLoop_case env Conn.RecvExitChan p)))
    as (_ & -> & _).
  rewrite Hs. cbn [Conn.owed]. by rewrite !orb_false_r.
Qed.

(** X11. The graceful stop: on a stopping connection with healthy writes
    and messages in flight, writeLoop starts the close exactly when the
    finished messages it has received are all the messages in flight. *)
Theorem writeLoop_graceful_stop env (evs : list Conn.WriteEvent)
    (p : Conn.Pump) :
  (forall k, Conn.write_result env k = None) ->
  Conn.stopFlag (Conn.conn (Conn.world p)) = 1 ->
  Conn.stopper (Conn.conn (Conn.world p)) = false ->
  0 < Conn.messagesInFlight (Conn.conn (Conn.world p)) < 2 ^ 63 ->
  Conn.handled evs = evs ->
  Conn.deliveries evs = 0%nat ->
  Z.of_nat (length (Conn.finished_messages evs))
  <= Conn.messagesInFlight (Conn.conn (Conn.world p)) ->
  Conn.stopper (Conn.conn (Conn.world (snd (Conn.writeLoop env evs p))))
  = bool_decide (Z.of_nat (length (Conn.finished_messages evs))
                 = Conn.messagesInFlight (Conn.conn (Conn.world p))).
Proof.
  intros Hok. revert p.
  induction evs as [|ev evs IH]; intros p Hsf Hst Hm Hh Hd Hn.
  - cbn. rewrite Hst. rewrite bool_decide_eq_false_2; [reflexivity | lia].
  - rewrite writeLoop_cons.
    destruct (writeLoop_case_stopper env ev p) as [Hs _].
    destruct (writeLoop_case_counters env ev p) as (Hmif & Hsf1 & _).
    cbv zeta in Hs, Hmif, Hsf1. rewrite Hok, Hst in Hs.
    unfold Conn.deliveries, Conn.finished_messages in *.
    destruct ev; cbn [Conn.handled omap list_omap length] in *;
      try discriminate; cbn [Conn.owed orb] in Hs.
    + rewrite IH; rewrite ?Hmif, ?Hsf1; try assumption; congruence.
    + rewrite AddInt64_in_range in Hmif by lia.
      rewrite Hmif, Hsf in Hs. cbn [Z.eqb Pos.eqb andb] in Hs.
      rewrite andb_true_r in Hs.
      destruct (Z.eqb_spec (Conn.messagesInFlight (Conn.conn (Conn.world p)) + -1) 0)
        as [Hz|Hnz].
      * rewrite writeLoop_stopper_mono by exact Hs.
        rewrite bool_decide_eq_true_2; [reflexivity | lia].
      * rewrite IH; rewrite ?Hmif, ?Hsf1; try assumption; try congruence;
          try lia.
        apply bool_decide_ext. lia.
    + rewrite IH; rewrite ?Hmif, ?Hsf1; try assumption; congruence.
Qed.

Lemma writeLoop_graceful_stop_witness :
  Conn.stopper
    (Conn.conn
       (Conn.world
          (snd (Conn.writeLoop sample_env
                  [Conn.RecvFinishedMessage (sample_finished true);
                   Conn.RecvFinishedMessage (sample_finished false)]
                  (Conn.with_world (Conn.with_conn Conn.Stop)
                     (sample_pump 2))))))
  = bool_decide
      (Z.of_nat
         (length (Conn.finished_messages
                    [Conn.RecvFinishedMessage (sample_finished true);
                     Conn.RecvFinishedMessage (sample_finished false)]))
       = 2).
Proof.
  apply (writeLoop_graceful_stop sample_env
           [Conn.RecvFinishedMessage (sample_finished true);
            Conn.RecvFinishedMessage (sample_finished false)]
           (Conn.with_world (Conn.with_conn Conn.Stop) (sample_pump 2))).
  - intros k. reflexivity.
  - reflexivity.
  - reflexivity.
  - simpl. lia.
  - reflexivity.
  - reflexivity.
  - simpl. lia.
Defined.

Lemma writeLoop_closed_once env (evs : list Conn.WriteEvent) (p : Conn.Pump) :
  Conn.closed_once (Conn.world p) ->
  Conn.closed_once (Conn.world (snd (Conn.writeLoop env evs p))).
Proof.
  revert p. induction evs as [|ev evs IH]; intros p Honce; [exact Honce|].
  rewrite writeLoop_cons.
  pose proof (writeLoop_case_closed_once env ev p Honce) as H1.
  destruct ev; try (apply IH; exact H1). exact H1.
Qed.

(** X12. exitChan is closed at most once: on a connection where it was
    closed once if close() has run and never otherwise, this is still so
    after readLoop and after writeLoop, however often they call
    close(). *)
Theorem exitChan_closed_once env (s : Conn.World) :
  Conn.closed_once s ->
  (forall fuel s', Conn.readLoop env fuel s = Some s' -> Conn.closed_once s')
  /\ (forall evs p,
        Conn.world p = s ->
        Conn.closed_once (Conn.world (snd (Conn.writeLoop env evs p)))).
Proof.
  intros Honce. split.
  - intros fuel s' Hrun.
    destruct (readLoop_frame _ _ _ _ Hrun)
      as (s1 & tr & -> & Htr & Hcl & _ & _ & _ & Hst1 & _ & Hec & _ & _).
    destruct (readLoop_exit_frame s1)
      as (tr' & Htr' & _ & _ & _ & _ & _ & _ & _ & Hif).
    destruct Honce as [Hn Hc]. unfold Conn.closed_once.
    rewrite Htr', Htr, !exitChan_closes_app, Hcl, Hn.
    destruct (_ && _) eqn:Hb.
    + destruct Hif as (-> & -> & -> & _).
      apply andb_true_iff in Hb as [_ Hb]. rewrite Hst1 in Hb.
      destruct (Conn.stopper (Conn.conn s)); [discriminate|].
      split; reflexivity.
    + destruct Hif as (-> & -> & -> & _). rewrite Hst1, Hec.
      split; [cbn; lia | exact Hc].
  - intros evs p <-. by apply writeLoop_closed_once.
Qed.

Lemma exitChan_closed_once_witness :
  (forall fuel s',
     Conn.readLoop sample_env fuel (sample_world sample_conn sample_frames)
     = Some s' ->
     Conn.closed_once s')
  /\ (forall evs p,
        Conn.world p = sample_world sample_conn sample_frames ->
        Conn.closed_once
          (Conn.world (snd (Conn.writeLoop sample_env evs p)))).
Proof.
  apply (exitChan_closed_once sample_env
           (sample_world sample_conn sample_frames)).
  split; reflexivity.
Defined.

(** What one iteration of cleanup changes, and when it leaves the loop. *)
Lemma cleanup_case_frame ev p :
  let next := fst (Conn.cleanup_case ev p) in
  let p' := snd (Conn.cleanup_case ev p) in
  let c := Conn.conn (Conn.world p) in
  let c' := Conn.conn (Conn.world p') in
  Conn.trace (Conn.world p') = Conn.trace (Conn.world p)
  /\ Conn.sent (Conn.world p') = Conn.sent (Conn.world p)
  /\ Conn.callbacks p' = Conn.callbacks p
  /\ Conn.wg c' = Conn.wg c
  /\ Conn.stopper c' = Conn.stopper c
  /\ Conn.exitChan_closed c' = Conn.exitChan_closed c
  /\ Conn.messagesInFlight c'
     = match ev with
       | Conn.DrainFinishedMessage => AddInt64 (Conn.messagesInFlight c) (-1)
       | Conn.DrainDelivered => AddInt64 (Conn.messagesInFlight c) 1
       | _ => Conn.messagesInFlight c
       end
  /\ Conn.readLoopRunning c'
     = match ev with
       | Conn.DrainReadLoopExits => 0
       | _ => Conn.readLoopRunning c
       end
  /\ next
     = match ev with
       | Conn.DrainFinishedMessage | Conn.DrainTick =>
         if (0 <? Conn.messagesInFlight c') || (Conn.readLoopRunning c' =? 1)
         then Conn.Continue else Conn.Exit
       | _ => Conn.Continue
       end.
Proof.
  destruct ev; unfold Conn.cleanup_case, Conn.with_world;
    cbn -[AddInt64 Z.ltb Z.eqb];
    repeat (match goal with
            | |- context [if 0 <? ?x then _ else _] => destruct (0 <? x) eqn:?
            | |- context [if ?x =? 1 then _ else _] => destruct (x =? 1) eqn:?
            end; cbn -[AddInt64 Z.ltb Z.eqb] in * );
    repeat match goal with
           | H : (_ <? _) = _ |- _ => rewrite ?H; clear H
           | H : (_ =? _) = _ |- _ => rewrite ?H; clear H
           end;
    repeat (split; [reflexivity|]); reflexivity.
Qed.

Lemma cleanup_drain_cons ev evs p :
  Conn.cleanup_drain (ev :: evs) p
  = match fst (Conn.cleanup_case ev p) with
    | Conn.Exit =>
      (Conn.Returned, Conn.cleanup_exit (snd (Conn.cleanup_case ev p)))
    | Conn.Continue => Conn.cleanup_drain evs (snd (Conn.cleanup_case ev p))
    end.
Proof.
  cbn [Conn.cleanup_drain]. by destruct (Conn.cleanup_case ev p) as [[] ?].
Qed.

Lemma cleanup_drain_returned evs p p' :
  Conn.cleanup_drain evs p = (Conn.Returned, p') ->
  Conn.messagesInFlight (Conn.conn (Conn.world p')) <= 0
  /\ Conn.readLoopRunning (Conn.conn (Conn.world p')) <> 1
  /\ Conn.wg (Conn.conn (Conn.world p'))
     = Conn.wg (Conn.conn (Conn.world p)) - 1
  /\ Conn.trace (Conn.world p') = Conn.trace (Conn.world p)
  /\ Conn.sent (Conn.world p') = Conn.sent (Conn.world p)
  /\ Conn.callbacks p' = Conn.callbacks p
  /\ Conn.stopper (Conn.conn (Conn.world p'))
     = Conn.stopper (Conn.conn (Conn.world p)).
Proof.
  revert p. induction evs as [|ev evs IH]; intros p; [discriminate|].
  rewrite cleanup_drain_cons.
  destruct (cleanup_case_frame ev p)
    as (Htr & Hsent & Hcb & Hwg & Hst & _ & Hmif & Hrun & Hnext).
  cbv zeta in *.
  destruct (fst (Conn.cleanup_case ev p)).
  - intros H. apply IH in H as (? & ? & ? & ? & ? & ? & ?).
    repeat split; try assumption; congruence.
  - intros [= <-].
    set (p1 := snd (Conn.cleanup_case ev p)) in *.
    change (Conn.conn (Conn.world (Conn.cleanup_exit p1)))
      with (Conn.set_wg (Conn.wg (Conn.conn (Conn.world p1)) - 1)
              (Conn.conn (Conn.world p1))).
    change (Conn.trace (Conn.world (Conn.cleanup_exit p1)))
      with (Conn.trace (Conn.world p1)).
    change (Conn.sent (Conn.world (Conn.cleanup_exit p1)))
      with (Conn.sent (Conn.world p1)).
    change (Conn.callbacks (Conn.cleanup_exit p1)) with (Conn.callbacks p1).
    conn_fields.
    assert ((0 <? Conn.messagesInFlight (Conn.conn (Conn.world p1)))
            || (Conn.readLoopRunning (Conn.conn (Conn.world p1)) =? 1) = false)
      as Hb.
    { destruct ev; try discriminate Hnext;
        by destruct (_ || _). }
    apply orb_false_iff in Hb as [Hb1 Hb2].
    apply Z.ltb_ge in Hb1. apply Z.eqb_neq in Hb2.
    repeat split; try assumption; congruence.
Qed.

(** X13. cleanup returns only after drainReady is closed, with no message
    in flight and readLoop no longer running; it writes nothing to the
    connection and calls no callback, and leaves the wait group one
    lower. *)
Theorem cleanup_returns_drained (evs : list Conn.DrainEvent)
    (p p' : Conn.Pump) :
  Conn.cleanup evs p = (Conn.Returned, p') ->
  Conn.drainReady_closed p = true
  /\ Conn.messagesInFlight (Conn.conn (Conn.world p')) <= 0
  /\ Conn.readLoopRunning (Conn.conn (Conn.world p')) <> 1
  /\ Conn.wg (Conn.conn (Conn.world p'))
     = Conn.wg (Conn.conn (Conn.world p)) - 1
  /\ Conn.trace (Conn.world p') = Conn.trace (Conn.world p)
  /\ Conn.sent (Conn.world p') = Conn.sent (Conn.world p)
  /\ Conn.callbacks p' = Conn.callbacks p.
Proof.
  unfold Conn.cleanup. destruct (Conn.drainReady_closed p); [|discriminate].
  intros H. apply cleanup_drain_returned in H as (? & ? & ? & ? & ? & ? & ?).
  repeat split; assumption.
Qed.

Lemma cleanup_returns_drained_witness :
  let p := sample_draining 1 2 in
  let p' := snd (Conn.cleanup sample_drain_events p) in
  Conn.drainReady_closed p = true
  /\ Conn.messagesInFlight (Conn.conn (Conn.world p')) <= 0
  /\ Conn.readLoopRunning (Conn.conn (Conn.world p')) <> 1
  /\ Conn.wg (Conn.conn (Conn.world p'))
     = Conn.wg (Conn.conn (Conn.world p)) - 1
  /\ Conn.trace (Conn.world p') = Conn.trace (Conn.world p)
  /\ Conn.sent (Conn.world p') = Conn.sent (Conn.world p)
  /\ Conn.callbacks p' = Conn.callbacks p.
Proof.
  apply (cleanup_returns_drained sample_drain_events (sample_draining 1 2)
           (snd (Conn.cleanup sample_drain_events (sample_draining 1 2)))).
  vm_compute. reflexivity.
Defined.

(** X14. Once drainReady is closed and readLoop has exited, and while no
    other goroutine touches the counter, cleanup returns exactly when it
    has taken a turn of its select and has received as many finished
    messages as were in flight. *)
Theorem cleanup_drains_in_flight (evs : list Conn.DrainEvent) (p : Conn.Pump) :
  Conn.drainReady_closed p = true ->
  Conn.readLoopRunning (Conn.conn (Conn.world p)) <> 1 ->
  0 <= Conn.messagesInFlight (Conn.conn (Conn.world p)) < 2 ^ 63 ->
  Conn.quiet evs = true ->
  fst (Conn.cleanup evs p) = Conn.Returned
  <-> evs <> []
      /\ Conn.messagesInFlight (Conn.conn (Conn.world p))
         <= Z.of_nat (Conn.drained evs).
Proof.
  unfold Conn.cleanup. intros -> Hrun Hm Hq. revert p Hrun Hm.
  induction evs as [|ev evs IH]; intros p Hrun Hm.
  - cbn. split; [discriminate | intros [? _]; done].
  - rewrite cleanup_drain_cons.
    destruct (cleanup_case_frame ev p)
      as (_ & _ & _ & _ & _ & _ & Hmif & Hrun1 & Hnext).
    cbv zeta in *. cbn [Conn.quiet forallb] in Hq.
    apply andb_true_iff in Hq as [Hev Hq].
    unfold Conn.drained in *.
    destruct ev; try discriminate Hev; cbn [omap list_omap length];
      rewrite Hnext, Hmif, Hrun1;
      rewrite (proj2 (Z.eqb_neq _ _) Hrun), orb_false_r.
    + rewrite AddInt64_in_range by lia.
      destruct (Z.ltb_spec 0 (Conn.messagesInFlight (Conn.conn (Conn.world p)) + -1)).
      * rewrite IH; [| exact Hq | by rewrite Hrun1
                     | rewrite Hmif, AddInt64_in_range by lia; lia].
        rewrite Hmif, AddInt64_in_range by lia.
        split.
        -- intros [_ ?]. split; [done | lia].
        -- intros [_ ?]. split; [|lia]. intros ->. cbn in *. lia.
      * cbn [fst]. split; [intros _ | done]. split; [done | lia].
    + destruct (Z.ltb_spec 0 (Conn.messagesInFlight (Conn.conn (Conn.world p)))).
      * rewrite IH; [| exact Hq | by rewrite Hrun1 | by rewrite Hmif].
        rewrite Hmif.
        split.
        -- intros [_ ?]. split; [done | lia].
        -- intros [_ ?]. split; [|lia]. intros ->. cbn in *. lia.
      * cbn [fst]. split; [intros _ | done]. split; [done | lia].
Qed.

Lemma cleanup_drains_in_flight_witness :
  fst (Conn.cleanup [Conn.DrainFinishedMessage; Conn.DrainTick]
         (sample_draining 0 2)) = Conn.Returned
  <-> [Conn.DrainFinishedMessage; Conn.DrainTick] <> []
      /\ 2 <= Z.of_nat
                (Conn.drained [Conn.DrainFinishedMessage; Conn.DrainTick]).
Proof.
  apply (cleanup_drains_in_flight [Conn.DrainFinishedMessage; Conn.DrainTick]
           (sample_draining 0 2)).
  - reflexivity.
  - vm_compute. discriminate.
  - simpl. lia.
  - reflexivity.
Defined.

(** ** More on the handshake *)

Lemma started_app tr1 tr2 :
  Conn.started (tr1 ++ tr2) = Conn.started tr1 ++ Conn.started tr2.
Proof. apply omap_app. Qed.

Lemma handshake_kept_refl s : Conn.handshake_kept s s.
Proof.
  split; [exists []; by rewrite app_nil_r|]. repeat split.
Qed.

Lemma handshake_kept_trans s1 s2 s3 :
  Conn.handshake_kept s1 s2 -> Conn.handshake_kept s2 s3 ->
  Conn.handshake_kept s1 s3.
Proof.
  intros ((tr1 & Ht1 & Hs1) & ? & ? & ? & ? & ? & ? & ?)
         ((tr2 & Ht2 & Hs2) & ? & ? & ? & ? & ? & ? & ?).
  split.
  - exists (tr1 ++ tr2). rewrite Ht2, Ht1, <- app_assoc, started_app, Hs1, Hs2.
    done.
  - repeat split; congruence.
Qed.

Lemma ReadUnpackedResponse_kept s :
  Conn.handshake_kept s (snd (Conn.ReadUnpackedResponse s)).
Proof.
  unfold Conn.ReadUnpackedResponse.
  destruct (Conn.incoming (Conn.emit _ s)); cbn [snd];
    (split; [eexists; split; [reflexivity | reflexivity]|]); repeat split.
Qed.

Lemma SendCommand_kept env cmd s :
  Conn.handshake_kept s (snd (Conn.SendCommand env cmd s)).
Proof.
  unfold Conn.SendCommand. cbn [snd].
  (split; [eexists; split; [reflexivity | reflexivity]|]); repeat split.
Qed.

Lemma upgradeTLS_kept env s :
  Conn.handshake_kept s (snd (Conn.upgradeTLS env s)).
Proof.
  unfold Conn.upgradeTLS.
  destruct (Conn.tls_Handshake env).
  - cbn [snd]. (split; [eexists; split; [reflexivity | reflexivity]|]);
      repeat split.
  - match goal with
    | |- context [Conn.ReadUnpackedResponse ?x] =>
        pose proof (ReadUnpackedResponse_kept x) as Hk;
        destruct (Conn.ReadUnpackedResponse x) as [[ft d|e] s1]
    end; cbn [snd] in *.
    + eapply handshake_kept_trans; [|destruct (_ || _); exact Hk].
      (split; [eexists; split; [reflexivity | reflexivity]|]); repeat split.
    + eapply handshake_kept_trans; [|exact Hk].
      (split; [eexists; split; [reflexivity | reflexivity]|]); repeat split.
Qed.

Ltac kept_by_refl :=
  (split;
   [first [ eexists; split; [reflexivity | reflexivity]
          | exists []; rewrite app_nil_r; split; reflexivity ]|]);
  repeat split.

Lemma upgradeDeflate_kept lvl s :
  Conn.handshake_kept s (snd (Conn.upgradeDeflate lvl s)).
Proof.
  unfold Conn.upgradeDeflate.
  match goal with
  | |- context [Conn.ReadUnpackedResponse ?x] =>
      pose proof (ReadUnpackedResponse_kept x) as Hk;
      destruct (Conn.ReadUnpackedResponse x) as [[ft d|e] s1]
  end; cbn [snd] in *;
    (eapply handshake_kept_trans; [|try destruct (_ || _); exact Hk]);
    kept_by_refl.
Qed.

Lemma upgradeSnappy_kept s :
  Conn.handshake_kept s (snd (Conn.upgradeSnappy s)).
Proof.
  unfold Conn.upgradeSnappy.
  match goal with
  | |- context [Conn.ReadUnpackedResponse ?x] =>
      pose proof (ReadUnpackedResponse_kept x) as Hk;
      destruct (Conn.ReadUnpackedResponse x) as [[ft d|e] s1]
  end; cbn [snd] in *;
    (eapply handshake_kept_trans; [|try destruct (_ || _); exact Hk]);
    kept_by_refl.
Qed.

Lemma identify_kept env s : Conn.handshake_kept s (snd (Conn.identify env s)).
Proof.
  unfold Conn.identify.
  destruct (Conn.Identify_result env); [apply handshake_kept_refl|].
  pose proof (SendCommand_kept env IDENTIFY s) as Hk1.
  destruct (Conn.SendCommand env IDENTIFY s) as [[err|] s1]; [exact Hk1|].
  cbn [snd] in Hk1.
  pose proof (ReadUnpackedResponse_kept s1) as Hk2.
  destruct (Conn.ReadUnpackedResponse s1) as [[ft data|err] s2];
    cbn [snd] in Hk2;
    pose proof (handshake_kept_trans _ _ _ Hk1 Hk2) as Hk; [|exact Hk].
  clear Hk1 Hk2.
  destruct (ft =? FrameTypeError); [exact Hk|].
  destruct data as [|data0 data]; [exact Hk|].
  destruct (negb _); [exact Hk|].
  destruct (Conn.json_Unmarshal env _) as [resp|err]; [|exact Hk].
  set (s3 := Conn.with_conn (Conn.set_maxRdyCount (Conn.MaxRdyCount resp)) s2).
  assert (Conn.handshake_kept s s3) as Hk3.
  { eapply handshake_kept_trans; [exact Hk|]. kept_by_refl. }
  clearbody s3. clear Hk.
  assert (exists s4,
            (if Conn.TLSv1 resp then Conn.upgradeTLS env s3 else (None, s3))
            = (fst (if Conn.TLSv1 resp then Conn.upgradeTLS env s3
                    else (None, s3)), s4)
            /\ Conn.handshake_kept s s4) as (s4 & -> & Hk4).
  { destruct (Conn.TLSv1 resp).
    - exists (snd (Conn.upgradeTLS env s3)).
      split; [by destruct (Conn.upgradeTLS env s3)|].
      eapply handshake_kept_trans; [exact Hk3 | apply upgradeTLS_kept].
    - exists s3. split; [reflexivity | exact Hk3]. }
  destruct (fst _); [exact Hk4|]. clear Hk3.
  assert (exists s5,
            (if Conn.Deflate resp
             then Conn.upgradeDeflate (Conn.DeflateLevel (Conn.conn s4)) s4
             else (None, s4))
            = (fst (if Conn.Deflate resp
                    then Conn.upgradeDeflate
                           (Conn.DeflateLevel (Conn.conn s4)) s4
                    else (None, s4)), s5)
            /\ Conn.handshake_kept s s5) as (s5 & -> & Hk5).
  { destruct (Conn.Deflate resp).
    - exists (snd (Conn.upgradeDeflate (Conn.DeflateLevel (Conn.conn s4)) s4)).
      split; [by destruct (Conn.upgradeDeflate _ s4)|].
      eapply handshake_kept_trans; [exact Hk4 | apply upgradeDeflate_kept].
    - exists s4. split; [reflexivity | exact Hk4]. }
  destruct (fst _); [exact Hk5|]. clear Hk4.
  assert (exists s6,
            (if Conn.Snappy resp then Conn.upgradeSnappy s5 else (None, s5))
            = (fst (if Conn.Snappy resp then Conn.upgradeSnappy s5
                    else (None, s5)), s6)
            /\ Conn.handshake_kept s s6) as (s6 & -> & Hk6).
  { destruct (Conn.Snappy resp).
    - exists (snd (Conn.upgradeSnappy s5)).
      split; [by destruct (Conn.upgradeSnappy s5)|].
      eapply handshake_kept_trans; [exact Hk5 | apply upgradeSnappy_kept].
    - exists s5. split; [reflexivity | exact Hk5]. }
  destruct (fst _); [exact Hk6|].
  cbn [snd]. eapply handshake_kept_trans; [exact Hk6|]. kept_by_refl.
Qed.

(** X15. Connect starts readLoop and writeLoop, in this order and counted
    in the wait group, exactly when it returns without error; when the
    dial, the magic or the handshake fails it starts no goroutine and
    leaves the wait group and readLoopRunning as they were.  In no case
    does it touch the stop flag, the sync.Once of close() or the counters
    of messages in flight and of RDY. *)
Theorem Connect_starts_loops env (s : Conn.World) :
  let res := fst (Conn.Connect env s) in
  let s' := snd (Conn.Connect env s) in
  Conn.stopper (Conn.conn s') = Conn.stopper (Conn.conn s)
  /\ Conn.stopFlag (Conn.conn s') = Conn.stopFlag (Conn.conn s)
  /\ Conn.messagesInFlight (Conn.conn s') = Conn.messagesInFlight (Conn.conn s)
  /\ Conn.rdyCount (Conn.conn s') = Conn.rdyCount (Conn.conn s)
  /\ match res with
     | Ok _ =>
       Conn.started (Conn.trace s')
       = Conn.started (Conn.trace s) ++ [Conn.GoReadLoop; Conn.GoWriteLoop]
       /\ Conn.wg (Conn.conn s') = Conn.wg (Conn.conn s) + 2
       /\ Conn.readLoopRunning (Conn.conn s') = 1
       /\ Conn.netConn (Conn.conn s') = true
     | _ =>
       Conn.started (Conn.trace s') = Conn.started (Conn.trace s)
       /\ Conn.wg (Conn.conn s') = Conn.wg (Conn.conn s)
       /\ Conn.readLoopRunning (Conn.conn s')
          = Conn.readLoopRunning (Conn.conn s)
     end.
Proof.
  cbv zeta. unfold Conn.Connect.
  destruct (Conn.dial_result env).
  { cbn [fst snd Conn.emit Conn.trace]. rewrite started_app, app_nil_r.
    repeat split. }
  destruct (Conn.magic_result env).
  { cbn [fst snd]. unfold Conn.Close.
    match goal with |- context [if ?b then _ else _] => change b with true end.
    cbv iota. cbn [Conn.emit Conn.trace Conn.with_conn].
    rewrite !started_app, !app_nil_r. repeat split. }
  match goal with
  | |- context [Conn.identify env ?x] =>
      pose proof (identify_kept env x) as Hk;
      set (s1 := x) in *;
      assert (Conn.started (Conn.trace s1) = Conn.started (Conn.trace s)) as Ht
  end.
  { unfold s1. cbn [Conn.emit Conn.trace Conn.with_conn].
    rewrite !started_app, !app_nil_r. reflexivity. }
  assert (Conn.netConn (Conn.conn s1) = true) as Hn by reflexivity.
  assert (Conn.wg (Conn.conn s1) = Conn.wg (Conn.conn s)
          /\ Conn.readLoopRunning (Conn.conn s1)
             = Conn.readLoopRunning (Conn.conn s)
          /\ Conn.stopper (Conn.conn s1) = Conn.stopper (Conn.conn s)
          /\ Conn.stopFlag (Conn.conn s1) = Conn.stopFlag (Conn.conn s)
          /\ Conn.messagesInFlight (Conn.conn s1)
             = Conn.messagesInFlight (Conn.conn s)
          /\ Conn.rdyCount (Conn.conn s1) = Conn.rdyCount (Conn.conn s))
    as (Hwg & Hrun & Hst & Hsf & Hm & Hr) by (repeat split).
  clearbody s1.
  destruct (Conn.identify env s1) as [[resp|err|reason] s2]; cbn [fst snd] in *;
    destruct Hk as ((tr & Htr & Hs) & Hwg2 & Hrun2 & Hst2 & Hsf2 & Hn2 & Hm2
                    & Hr2).
  - cbn [Conn.emit Conn.trace Conn.with_conn Conn.conn].
    rewrite <- app_assoc, started_app, Htr, started_app, Hs, app_nil_r, Ht.
    split; [transitivity (Conn.stopper (Conn.conn s2));
            [reflexivity|congruence]|].
    split; [transitivity (Conn.stopFlag (Conn.conn s2));
            [reflexivity|congruence]|].
    split; [transitivity (Conn.messagesInFlight (Conn.conn s2));
            [reflexivity|congruence]|].
    split; [transitivity (Conn.rdyCount (Conn.conn s2));
            [reflexivity|congruence]|].
    split; [reflexivity|].
    split; [transitivity (Conn.wg (Conn.conn s2) + 2);
            [reflexivity|congruence]|].
    split; [reflexivity|].
    transitivity (Conn.netConn (Conn.conn s2)); [reflexivity|congruence].
  - rewrite Htr, started_app, Hs, app_nil_r, Ht. repeat split; congruence.
  - rewrite Htr, started_app, Hs, app_nil_r, Ht. repeat split; congruence.
Qed.

(** X16. What the first response to IDENTIFY decides, on a network where
    the dial and the writes succeed: an error frame makes Connect return
    ErrIdentify with its payload; an empty payload makes it panic (index
    out of range); a payload that does not start with "{" makes it return
    nil capabilities with nothing negotiated: reader and writer stay the
    plain connection, maxRdyCount is unchanged, and IDENTIFY is the only
    command written. *)
Theorem Connect_first_response env (s : Conn.World) (frameType : Z)
    (data : bytes) (rest : list Conn.ReadResult) :
  Conn.dial_result env = None ->
  Conn.magic_result env = None ->
  Conn.Identify_result env = None ->
  Conn.write_result env (Conn.sent s) = None ->
  Conn.incoming s = Conn.Frame frameType data :: rest ->
  let res := fst (Conn.Connect env s) in
  let s' := snd (Conn.Connect env s) in
  if frameType =? FrameTypeError then res = Err (ErrIdentifyData data)
  else
    match data with
    | [] => res = Panic "index out of range"
    | data0 :: _ =>
      data0 <> "{"%byte ->
      res = Ok None
      /\ Conn.incoming s' = rest
      /\ Conn.r (Conn.conn s') = Conn.NetConn
      /\ Conn.w (Conn.conn s') = Conn.NetConn
      /\ Conn.maxRdyCount (Conn.conn s') = Conn.maxRdyCount (Conn.conn s)
      /\ Conn.commands (Conn.trace s')
         = Conn.commands (Conn.trace s) ++ [IDENTIFY]
    end.
Proof.
  intros Hd Hmg Hi Hw Hin. cbv zeta.
  unfold Conn.Connect. rewrite Hd, Hmg.
  unfold Conn.identify. rewrite Hi.
  unfold Conn.SendCommand.
  cbn [Conn.sent Conn.emit Conn.with_conn]. rewrite Hw.
  unfold Conn.ReadUnpackedResponse.
  cbn [Conn.incoming Conn.emit Conn.with_conn]. rewrite Hin.
  destruct (frameType =? FrameTypeError); [reflexivity|].
  destruct data as [|data0 data]; [reflexivity|].
  intros Hne. rewrite bool_decide_eq_false_2 by exact Hne.
  cbn [negb fst snd].
  repeat (split; [reflexivity|]).
  cbn [Conn.trace Conn.emit Conn.with_conn].
  rewrite <- !app_assoc, commands_app. reflexivity.
Qed.

Lemma Connect_first_response_witness :
  let s := sample_world sample_new_conn [Conn.OK_frame] in
  let res := fst (Conn.Connect sample_env s) in
  let s' := snd (Conn.Connect sample_env s) in
  res = Ok None
  /\ Conn.incoming s' = []
  /\ Conn.r (Conn.conn s') = Conn.NetConn
  /\ Conn.w (Conn.conn s') = Conn.NetConn
  /\ Conn.maxRdyCount (Conn.conn s') = Conn.maxRdyCount (Conn.conn s)
  /\ Conn.commands (Conn.trace s') = Conn.commands (Conn.trace s) ++ [IDENTIFY].
Proof.
  refine (Connect_first_response sample_env
            (sample_world sample_new_conn [Conn.OK_frame])
            FrameTypeResponse Conn.OK [] _ _ _ _ _ _); try reflexivity.
  discriminate.
Defined.

(** ** The closing sequence *)

Lemma writeLoop_case_wg env ev p :
  let p' := snd (Conn.writeLoop_case env ev p) in
  Conn.wg (Conn.conn (Conn.world p'))
  = Conn.wg (Conn.conn (Conn.world p))
    + (if negb (Conn.stopper (Conn.conn (Conn.world p)))
          && Conn.stopper (Conn.conn (Conn.world p'))
       then 1 else 0)
  /\ Conn.netConn (Conn.conn (Conn.world p'))
     = Conn.netConn (Conn.conn (Conn.world p))
  /\ (Conn.stopper (Conn.conn (Conn.world p)) = true ->
      Conn.stopper (Conn.conn (Conn.world p')) = true).
Proof.
  destruct ev; loop_case;
    repeat match goal with
           | |- context [Conn.close ?s] =>
             let Hst := fresh "Hst" in
             let Hwg := fresh "Hwg" in
             let Hnc := fresh "Hnc" in
             destruct (close_frame s)
               as (_ & Hst & _ & Hwg & _ & _ & _ & _ & _ & _ & Hnc & _);
             rewrite ?Hst, ?Hwg, ?Hnc; clear Hst Hwg Hnc;
             try (generalize dependent (Conn.close s); intros)
           end;
    conn_fields;
    destruct (Conn.stopper (Conn.conn (Conn.world p))); cbn [negb andb];
    (split; [lia | split; [reflexivity | done]]).
Qed.

Lemma writeLoop_wg env (evs : list Conn.WriteEvent) (p : Conn.Pump) :
  let p' := snd (Conn.writeLoop env evs p) in
  Conn.wg (Conn.conn (Conn.world p'))
  = Conn.wg (Conn.conn (Conn.world p))
    + (if negb (Conn.stopper (Conn.conn (Conn.world p)))
          && Conn.stopper (Conn.conn (Conn.world p'))
       then 1 else 0)
    - (match fst (Conn.writeLoop env evs p) with
       | Conn.Exit => 1
       | Conn.Continue => 0
       end)
  /\ Conn.netConn (Conn.conn (Conn.world p'))
     = Conn.netConn (Conn.conn (Conn.world p))
  /\ (fst (Conn.writeLoop env evs p) = Conn.Exit ->
      Conn.drainReady_closed p' = true).
Proof.
  cbv zeta. revert p. induction evs as [|ev evs IH]; intros p.
  - cbn. destruct (Conn.stopper _); cbn; (split; [lia | split; done]).
  - rewrite writeLoop_cons.
    destruct (writeLoop_case_wg env ev p) as (Hwg & Hnc & Hmono).
    destruct (writeLoop_case_counters env ev p) as (_ & _ & _ & _ & Hdr).
    cbv zeta in *.
    set (p1 := snd (Conn.writeLoop_case env ev p)) in *.
    destruct ev;
      try (destruct (IH p1) as (IHwg & IHnc & IHdr);
           split; [|split; [congruence | exact IHdr]];
           rewrite IHwg, Hwg;
           pose proof (writeLoop_stopper_mono env evs p1) as Hm1;
           destruct (Conn.stopper (Conn.conn (Conn.world p))),
                    (Conn.stopper (Conn.conn (Conn.world p1))),
                    (Conn.stopper
                       (Conn.conn (Conn.world (snd (Conn.writeLoop env evs p1)))));
           cbn [negb andb]; try lia;
           try (specialize (Hmono eq_refl); discriminate);
           try (specialize (Hm1 eq_refl); discriminate)).
    cbn [fst snd].
    destruct (writeLoop_exit_frame p1) as (_ & Hst & _ & Hd & Hwg1 & _).
    rewrite Hst, Hwg1, Hd, Hdr.
    split; [|split; [exact Hnc | reflexivity]].
    rewrite Hwg. reflexivity.
Qed.

(** X17. The closing sequence of a connection whose readLoop and
    writeLoop are running: waitForCleanup stays blocked after readLoop has
    returned and after writeLoop has returned, and proceeds once cleanup
    has returned; it then closes the TCP connection, if there is one, and
    calls CloseCB last, with no message in flight and readLoop not
    running. *)
Theorem close_sequence env (fuel : nat) (s s1 : Conn.World)
    (evs : list Conn.WriteEvent) (devs : list Conn.DrainEvent)
    (p2 p3 : Conn.Pump) :
  let p1 := {| Conn.world := s1; Conn.drainReady_closed := false;
               Conn.callbacks := [] |} in
  Conn.wg (Conn.conn s) = 2 ->
  Conn.stopper (Conn.conn s) = false ->
  Conn.readLoop env fuel s = Some s1 ->
  Conn.writeLoop env evs p1 = (Conn.Exit, p2) ->
  Conn.stopper (Conn.conn (Conn.world p2)) = true ->
  Conn.cleanup devs p2 = (Conn.Returned, p3) ->
  Conn.waitForCleanup p1 = None
  /\ Conn.waitForCleanup p2 = None
  /\ exists p4,
       Conn.waitForCleanup p3 = Some p4
       /\ Conn.trace (Conn.world p4)
          = Conn.trace (Conn.world p2)
            ++ (if Conn.netConn (Conn.conn (Conn.world p3))
                then [Conn.NetClose] else [])
       /\ Conn.callbacks p4
          = Conn.callbacks p2 ++ [Conn.CloseCB (Conn.conn (Conn.world p3))]
       /\ Conn.messagesInFlight (Conn.conn (Conn.world p4)) <= 0
       /\ Conn.readLoopRunning (Conn.conn (Conn.world p4)) <> 1.
Proof.
  intros p1 Hwg Hst Hread Hwrite Hst2 Hclean.
  destruct (readLoop_frame _ _ _ _ Hread)
    as (s0 & tr & -> & _ & _ & _ & _ & _ & Hst0 & Hwg0 & _).
  destruct (readLoop_exit_frame s0)
    as (tr' & _ & _ & _ & _ & _ & _ & _ & _ & Hif).
  rewrite Hst in Hst0. rewrite Hst0, Hwg0, Hwg in Hif.
  rewrite andb_true_r in Hif.
  assert (Conn.wg (Conn.conn (Conn.world p1))
          = (if Conn.stopper (Conn.conn (Conn.world p1)) then 2 else 1))
    as Hwg1.
  { unfold p1. cbn [Conn.world].
    destruct (_ =? 0); destruct Hif as (_ & -> & _ & ->); reflexivity. }
  clear Hif.
  destruct (writeLoop_wg env evs p1) as (Hwg2 & _ & Hdr). cbv zeta in *.
  rewrite Hwrite in *. cbn [fst snd] in *. rewrite Hst2, Hwg1 in Hwg2.
  assert (Conn.wg (Conn.conn (Conn.world p2)) = 1) as Hwg2'.
  { rewrite Hwg2.
    destruct (Conn.stopper (Conn.conn (Conn.world p1))); cbn [negb andb]; lia. }
  unfold Conn.cleanup in Hclean.
  destruct (Conn.drainReady_closed p2); [|discriminate].
  apply cleanup_drain_returned in Hclean
    as (Hm & Hrun & Hwg3 & Htr & _ & Hcb & _).
  rewrite Hwg2' in Hwg3.
  unfold Conn.waitForCleanup. rewrite Hwg1, Hwg2', Hwg3.
  split; [by destruct (Conn.stopper (Conn.conn (Conn.world p1)))|].
  split; [reflexivity|].
  cbn [Z.eqb Z.sub Z.add Z.opp Z.pos_sub]. eexists. split; [reflexivity|].
  unfold Conn.call, Conn.with_world, Conn.Close.
  cbn [Conn.callbacks Conn.world].
  rewrite Hcb, <- Htr.
  destruct (Conn.netConn (Conn.conn (Conn.world p3)));
    cbn [Conn.emit Conn.trace Conn.conn]; rewrite ?app_nil_r;
    repeat split; assumption.
Qed.

Lemma close_sequence_witness :
  let p1 := {| Conn.world := sample_closing;
               Conn.drainReady_closed := false; Conn.callbacks := [] |} in
  let p2 := snd (Conn.writeLoop sample_env [Conn.RecvExitChan] p1) in
  let p3 := snd (Conn.cleanup [Conn.DrainTick] p2) in
  Conn.waitForCleanup p1 = None
  /\ Conn.waitForCleanup p2 = None
  /\ exists p4,
       Conn.waitForCleanup p3 = Some p4
       /\ Conn.trace (Conn.world p4)
          = Conn.trace (Conn.world p2)
            ++ (if Conn.netConn (Conn.conn (Conn.world p3))
                then [Conn.NetClose] else [])
       /\ Conn.callbacks p4
          = Conn.callbacks p2 ++ [Conn.CloseCB (Conn.conn (Conn.world p3))]
       /\ Conn.messagesInFlight (Conn.conn (Conn.world p4)) <= 0
       /\ Conn.readLoopRunning (Conn.conn (Conn.world p4)) <> 1.
Proof.
  apply (close_sequence sample_env 1 (sample_world sample_conn [])
           sample_closing [Conn.RecvExitChan] [Conn.DrainTick]);
    vm_compute; reflexivity.
Defined.

(** X18. Requeue and Touch of a message delivered by a connection reach
    the writeLoop of that connection: Requeue sends on its
    finishedMessages, and writeLoop then writes REQ with the id and the
    delay and counts one message less in flight; Touch sends on its
    cmdChan, and writeLoop then writes TOUCH with the id and leaves the
    count as it is. *)
Theorem Requeue_Touch_writeLoop env (c : Conn.Conn) (m : Message.Message)
    (timeoutMs : Z) (p : Conn.Pump) :
  let msg := Conn.with_chans c m in
  let requeued := snd (Message_Requeue msg timeoutMs) in
  let touched := snd (Message_Touch msg) in
  let p1 :=
    snd (Conn.writeLoop_case env (Conn.RecvFinishedMessage requeued) p) in
  let p2 := snd (Conn.writeLoop_case env (Conn.RecvCmd touched) p) in
  fst (Message_Requeue msg timeoutMs) = Some (Conn.finishedMessages c)
  /\ fst (Message_Touch msg) = Some (Conn.cmdChan c)
  /\ Conn.commands (Conn.trace (Conn.world p1))
     = Conn.commands (Conn.trace (Conn.world p))
       ++ [REQ (Message.Id m) timeoutMs]
  /\ Conn.messagesInFlight (Conn.conn (Conn.world p1))
     = AddInt64 (Conn.messagesInFlight (Conn.conn (Conn.world p))) (-1)
  /\ Conn.commands (Conn.trace (Conn.world p2))
     = Conn.commands (Conn.trace (Conn.world p)) ++ [TOUCH (Message.Id m)]
  /\ Conn.messagesInFlight (Conn.conn (Conn.world p2))
     = Conn.messagesInFlight (Conn.conn (Conn.world p)).
Proof.
  cbv zeta. split; [reflexivity|]. split; [reflexivity|].
  cbn [Message_Requeue Message_Touch snd].
  destruct (writeLoop_case_commands env
              (Conn.RecvFinishedMessage
                 {| Id := Message.Id (Conn.with_chans c m);
                    RequeueDelayMs := timeoutMs; Success := false |}) p)
    as [-> _].
  destruct (writeLoop_case_counters env
              (Conn.RecvFinishedMessage
                 {| Id := Message.Id (Conn.with_chans c m);
                    RequeueDelayMs := timeoutMs; Success := false |}) p)
    as [-> _].
  destruct (writeLoop_case_commands env
              (Conn.RecvCmd (TOUCH (Message.Id (Conn.with_chans c m)))) p)
    as [-> _].
  destruct (writeLoop_case_counters env
              (Conn.RecvCmd (TOUCH (Message.Id (Conn.with_chans c m)))) p)
    as [-> _].
  repeat split.
Qed.

(** ** More on the Writer *)











Lemma AddInt32_balanced (v : Z) :
  - 2 ^ 31 <= v < 2 ^ 31 -> AddInt32 (AddInt32 v 1) (-1) = v.
Proof.
  intros Hv. unfold AddInt32, int32 at 1.
  assert (int32 (v + 1) mod 2 ^ 32 = (v + 1) mod 2 ^ 32) as Hmod.
  { unfold int32.
    destruct (to_signed_range 32 ((v + 1) mod 2 ^ 32)) as [_ H];
      [lia | | exact H].
    apply Z.mod_pos_bound. lia. }
  rewrite <- Zplus_mod_idemp_l, Hmod, Zplus_mod_idemp_l.
  replace (v + 1 + -1) with v by lia.
  apply to_signed_mod; lia.
Qed.

(** X20. sendCommandAsync counts itself in concurrentWriters exactly while
    it runs: when it has returned, with or without error, the counter is
    what it was before the call; while it is blocked in its select the
    counter is one higher. *)
Theorem sendCommandAsync_concurrentWriters c d a dial sel (s s' : Sys) r :
  - 2 ^ 31 <= concurrentWriters (writer s) < 2 ^ 31 ->
  sendCommandAsync c d a dial sel s = Ok (r, s') ->
  concurrentWriters (writer s')
  = match r with
    | Returns _ => concurrentWriters (writer s)
    | Blocks => AddInt32 (concurrentWriters (writer s)) 1
    end.
Proof.
  intros Hcw. unfold sendCommandAsync. mrun.
  destruct (bool_decide (state (writer s) = StateConnected)); cbn -[connect].
  - destruct sel;
      [destruct (0 <? wg (writer s)) | destruct (exitChan_closed (writer s))];
      intros [= <- <-]; cbn; rewrite ?AddInt32_balanced by exact Hcw;
      reflexivity.
  - unfold connect. mrun.
    destruct (stopFlag (writer s) =? 1); cbn.
    { intros [= <- <-]. cbn. by apply AddInt32_balanced. }
    destruct (bool_decide (state (writer s) = StateInit)); cbn.
    2: { intros [= <- <-]. cbn. by apply AddInt32_balanced. }
    destruct dial as [resp|err|reason]; cbn; try discriminate.
    + destruct sel;
        [destruct (0 <? wg (writer s) + 1)
        | destruct (exitChan_closed (writer s))];
        intros [= <- <-]; cbn; rewrite ?AddInt32_balanced by exact Hcw;
        reflexivity.
    + intros [= <- <-]. cbn. by apply AddInt32_balanced.
Qed.

Lemma sendCommandAsync_concurrentWriters_witness :
  concurrentWriters (writer sample_writer_4)
  = AddInt32 (concurrentWriters (writer sample_writer_3)) 1.
Proof.
  apply (sendCommandAsync_concurrentWriters
           (PUB "events" (bytes_of_string "append d")) (Some 7%nat) []
           (Ok None) CaseExit sample_writer_3 sample_writer_4 Blocks).
  - vm_compute. split; [discriminate | reflexivity].
  - vm_compute. reflexivity.
Defined.

(** X21. A publish on a Writer that is not yet connected and cannot dial
    returns the error of the dial and leaves the Writer as it was, in
    StateInit: the connection is closed again, no router is started, no
    transaction is queued, and a later connect that can dial succeeds. *)
Theorem sendCommandAsync_dial_error c d a err sel (s : Sys) :
  - 2 ^ 31 <= concurrentWriters (writer s) < 2 ^ 31 ->
  state (writer s) = StateInit ->
  stopFlag (writer s) <> 1 ->
  exists s',
    sendCommandAsync c d a (Err err) sel s = Ok (Returns (Some err), s')
    /\ writer s' = writer s
    /\ next s' = next s
    /\ trace s' = trace s ++ [ConnConnect; ConnClose]
    /\ forall resp,
         exists s'',
           connect (Ok resp) s' = Ok (None, s'')
           /\ state (writer s'') = StateConnected
           /\ trace s'' = trace s' ++ [ConnConnect; GoRouter].
Proof.
  intros Hcw Hst Hsf. unfold sendCommandAsync, connect. mrun.
  rewrite Hst.
  rewrite (bool_decide_eq_false_2 (StateInit = StateConnected)) by discriminate.
  cbn.
  destruct (Z.eqb_spec (stopFlag (writer s)) 1) as [?|_]; [contradiction|].
  cbn. rewrite Hst. cbn.
  eexists. split; [reflexivity|]. cbn.
  rewrite AddInt32_balanced by exact Hcw. rewrite <- app_assoc. cbn.
  split.
  { destruct (writer s) eqn:Hw. cbn in *. subst. reflexivity. }
  split; [reflexivity|]. split; [reflexivity|].
  intros resp.
  destruct (Z.eqb_spec (stopFlag (writer s)) 1) as [?|_]; [contradiction|].
  eexists. split; [reflexivity|]. cbn. rewrite <- !app_assoc.
  split; reflexivity.
Qed.

Lemma sendCommandAsync_dial_error_witness :
  exists s',
    sendCommandAsync (PUB "events" (bytes_of_string "append a"))
      (Some 7%nat) [] (Err (ErrNet "connection refused")) CaseSend initial
    = Ok (Returns (Some (ErrNet "connection refused")), s')
    /\ writer s' = writer initial
    /\ next s' = next initial
    /\ trace s' = trace initial ++ [ConnConnect; ConnClose]
    /\ forall resp,
         exists s'',
           connect (Ok resp) s' = Ok (None, s'')
           /\ state (writer s'') = StateConnected
           /\ trace s'' = trace s' ++ [ConnConnect; GoRouter].
Proof.
  apply (sendCommandAsync_dial_error
           (PUB "events" (bytes_of_string "append a")) (Some 7%nat) []
           (ErrNet "connection refused") CaseSend initial).
  - vm_compute. split; [discriminate | reflexivity].
  - reflexivity.
  - vm_compute. discriminate.
Defined.

(** The goroutines of close() through the router. *)
Lemma transactionCleanup_range_resetters (ts : list loc) (s s' : Sys) :
  transactionCleanup_range ts s = Ok (tt, s') -> resetters s' = resetters s.
Proof.
  revert s. induction ts as [|t ts IH]; intros s.
  - intros [= <-]. reflexivity.
  - cbn [transactionCleanup_range]. mrun. intros H. apply IH in H. exact H.
Qed.

Lemma transactionCleanup_spin_resetters (cevs : list CleanupEvent)
    (s s' : Sys) b :
  transactionCleanup_spin cevs s = Ok (b, s') -> resetters s' = resetters s.
Proof.
  revert s. induction cevs as [|[t| | |] cevs IH]; intros s;
    cbn [transactionCleanup_spin]; mrun.
  - intros [= <- <-]. reflexivity.
  - intros H. apply IH in H. exact H.
  - destruct (concurrentWriters (writer s) =? 0).
    + intros [= <- <-]. reflexivity.
    + intros H. apply IH in H. exact H.
  - intros H. apply IH in H. exact H.
  - intros H. apply IH in H. exact H.
Qed.

Lemma transactionCleanup_resetters (cevs : list CleanupEvent) (s s' : Sys) b :
  transactionCleanup cevs s = Ok (b, s') -> resetters s' = resetters s.
Proof.
  unfold transactionCleanup. unfold bind, get, modify.
  destruct (transactionCleanup_range (transactions (writer s)) s)
    as [[[] s1]|e|reason] eqn:Hr; try discriminate.
  apply transactionCleanup_range_resetters in Hr.
  intros H. apply transactionCleanup_spin_resetters in H. cbn in H. congruence.
Qed.

Lemma close_resetters (s s' : Sys) :
  close s = Ok (tt, s') ->
  state (writer s') <> StateConnected
  /\ resetters s'
     = (if bool_decide (state (writer s) = StateConnected)
        then S (resetters s) else resetters s).
Proof.
  unfold close. mrun.
  destruct (bool_decide_reflect (state (writer s) = StateConnected)); cbn.
  - destruct (conn (writer s)); cbn; [|discriminate].
    intros [= <-]. cbn. split; [discriminate | reflexivity].
  - intros [= <-]. split; [assumption | reflexivity].
Qed.

Lemma router_case_resetters ev (s s1 : Sys) next :
  router_case ev s = Ok (next, s1) ->
  resetters s1
  = (if bool_decide (state (writer s) = StateConnected
                     /\ state (writer s1) <> StateConnected)
     then S (resetters s) else resetters s).
Proof.
  assert (forall st st' : Sys,
            close st = Ok (tt, st') ->
            resetters st'
            = (if bool_decide (state (writer st) = StateConnected
                               /\ state (writer st') <> StateConnected)
               then S (resetters st) else resetters st)) as Hclose.
  { intros st st' Hc. apply close_resetters in Hc as [Hn ->].
    rewrite (bool_decide_ext (state (writer st) = StateConnected)
               (state (writer st) = StateConnected
                /\ state (writer st') <> StateConnected)); [reflexivity | tauto]. }
  assert (forall st : Sys,
            resetters st
            = (if bool_decide (state (writer st) = StateConnected
                               /\ state (writer st) <> StateConnected)
               then S (resetters st) else resetters st)) as Hsame.
  { intros st. rewrite bool_decide_eq_false_2; [reflexivity | tauto]. }
  destruct ev; unfold router_case; mrun.
  - destruct (conn (writer s)); cbn -[close]; [|discriminate].
    destruct sendErr; cbn -[close].
    + match goal with
      | |- context [close ?st] =>
          destruct (close st) as [[[] s2]|e1|reason] eqn:Hc; try discriminate;
            apply Hclose in Hc
      end.
      intros [= <- <-]. exact Hc.
    + intros [= <- <-]. apply (Hsame s).
  - unfold popTransaction. mrun.
    destruct (transactions (writer s)); cbn; [discriminate|].
    intros [= <- <-]. apply (Hsame s).
  - unfold popTransaction. mrun.
    destruct (transactions (writer s)); cbn; [discriminate|].
    intros [= <- <-]. apply (Hsame s).
  - intros [= <- <-]. apply Hsame.
  - destruct (close s) as [[[] s2]|e1|reason] eqn:Hc; try discriminate.
    intros [= <- <-]. by apply Hclose.
  - intros [= <- <-]. apply Hsame.
  - intros [= <- <-]. apply Hsame.
Qed.

Lemma transactionCleanup_range_state (ts : list loc) (s s' : Sys) :
  transactionCleanup_range ts s = Ok (tt, s') ->
  state (writer s') = state (writer s).
Proof.
  revert s. induction ts as [|t ts IH]; intros s.
  - intros [= <-]. reflexivity.
  - cbn [transactionCleanup_range]. mrun. intros H. apply IH in H. exact H.
Qed.

Lemma transactionCleanup_spin_state (cevs : list CleanupEvent) (s s' : Sys) b :
  transactionCleanup_spin cevs s = Ok (b, s') ->
  state (writer s') = state (writer s).
Proof.
  revert s. induction cevs as [|[t| | |] cevs IH]; intros s;
    cbn [transactionCleanup_spin]; mrun.
  - intros [= <- <-]. reflexivity.
  - intros H. apply IH in H. exact H.
  - destruct (concurrentWriters (writer s) =? 0).
    + intros [= <- <-]. reflexivity.
    + intros H. apply IH in H. exact H.
  - intros H. apply IH in H. exact H.
  - intros H. apply IH in H. exact H.
Qed.

Lemma transactionCleanup_state (cevs : list CleanupEvent) (s s' : Sys) b :
  transactionCleanup cevs s = Ok (b, s') ->
  state (writer s') = state (writer s).
Proof.
  unfold transactionCleanup. unfold bind, get, modify.
  destruct (transactionCleanup_range (transactions (writer s)) s)
    as [[[] s1]|e|reason] eqn:Hr; try discriminate.
  apply transactionCleanup_range_state in Hr.
  intros H. apply transactionCleanup_spin_state in H. cbn in H. congruence.
Qed.

(** What a run of the router does to the state, to the wait group and to
    the goroutines of close(). *)
Lemma router_resetters evs cevs (s s' : Sys) st :
  router evs cevs s = Ok (st, s') ->
  resetters s'
  = (if bool_decide (state (writer s) = StateConnected
                     /\ state (writer s') <> StateConnected)
     then S (resetters s) else resetters s)
  /\ wg (writer s')
     = wg (writer s) - (match st with Exited => 1 | _ => 0 end)
  /\ (state (writer s') = state (writer s)
      \/ (state (writer s) = StateConnected
          /\ state (writer s') = StateDisconnected))
  /\ stopFlag (writer s') = stopFlag (writer s)
  /\ conn (writer s') = conn (writer s).
Proof.
  revert s. induction evs as [|ev evs IH]; intros s.
  - intros [= <- <-]. rewrite bool_decide_eq_false_2 by tauto.
    repeat split; auto. lia.
  - rewrite router_cons.
    destruct (router_case ev s) as [[[] s1]|e|reason] eqn:Hcase;
      try discriminate;
      pose proof (router_case_resetters _ _ _ _ Hcase) as Hr1;
      apply router_case_Ok in Hcase as (_ & Hst & _);
      destruct Hst as (Hc1 & Hsf1 & He1 & Hwg1 & Hs1).
    + intros Hrun. apply IH in Hrun as (Hr2 & Hwg & Hs2 & Hsf & Hc).
      split.
      { rewrite Hr2, Hr1.
        destruct (state (writer s)), (state (writer s1)), (state (writer s'));
          repeat case_bool_decide; try reflexivity; exfalso;
          destruct Hs1 as [Hs1|[Hs1 Hs1']], Hs2 as [Hs2|[Hs2 Hs2']];
          intuition congruence. }
      split; [lia|]. split; [|split; congruence].
      destruct Hs1 as [Hs1|[Hs1 Hs1']], Hs2 as [Hs2|[Hs2 Hs2']];
        first [left; congruence | right; split; congruence].
    + destruct (transactionCleanup cevs s1) as [[b s2]|e|reason] eqn:Hclean;
        try discriminate.
      pose proof (transactionCleanup_resetters _ _ _ _ Hclean) as Hr2.
      pose proof (transactionCleanup_state _ _ _ _ Hclean) as Hs2.
      destruct (transactionCleanup_spec cevs s1)
        as (b' & s2' & ? & ? & Heq & _ & Hst2 & _).
      rewrite Hclean in Heq. injection Heq as <- <-.
      destruct Hst2 as (Hc2 & Hsf2 & He2 & Hwg2 & _).
      assert (resetters s2
              = (if bool_decide (state (writer s) = StateConnected
                                 /\ state (writer s2) <> StateConnected)
                 then S (resetters s) else resetters s)) as Hr.
      { rewrite Hr2, Hr1, Hs2. reflexivity. }
      destruct b; intros [= <- <-]; cbn;
        (split; [exact Hr|]); (split; [lia|]);
        (split; [rewrite Hs2; exact Hs1 | split; congruence]).
Qed.

(** X22. After the router of a connected Writer has exited because the
    connection was lost, the Writer is not connected and every connect
    fails with ErrNotConnected until the goroutine started by close() has
    run; that goroutine puts the Writer back in StateInit, and the next
    connect that can dial succeeds and starts a new router. *)
Theorem reconnect_after_close evs cevs (s s1 : Sys) :
  state (writer s) = StateConnected ->
  stopFlag (writer s) <> 1 ->
  wg (writer s) = 1 ->
  resetters s = 0%nat ->
  router evs cevs s = Ok (Exited, s1) ->
  state (writer s1) <> StateConnected ->
  (forall dial, connect dial s1 = Ok (Some ErrNotConnected, s1))
  /\ exists s2,
       close_func1 s1 = Ok (true, s2)
       /\ state (writer s2) = StateInit
       /\ forall resp,
            exists s3,
              connect (Ok resp) s2 = Ok (None, s3)
              /\ state (writer s3) = StateConnected
              /\ conn (writer s3) = true
              /\ wg (writer s3) = 1
              /\ trace s3 = trace s1 ++ [ConnConnect; GoRouter].
Proof.
  intros Hst Hsf Hwg Hres Hrun Hnc.
  destruct (router_resetters _ _ _ _ _ Hrun) as (Hr1 & Hwg1 & Hs1 & Hsf1 & _).
  rewrite bool_decide_eq_true_2 in Hr1 by tauto.
  rewrite Hres in Hr1. rewrite Hwg in Hwg1.
  destruct Hs1 as [Hs1|[_ Hs1]]; [congruence|].
  split.
  - intros dial. apply connect_not_Init; [congruence|].
    rewrite Hs1. discriminate.
  - unfold close_func1. mrun. rewrite Hr1, Hwg1. cbn.
    eexists. split; [reflexivity|]. split; [reflexivity|].
    intros resp. unfold connect. mrun.
    destruct (Z.eqb_spec (stopFlag (writer s1)) 1) as [?|_]; [congruence|].
    cbn. eexists. split; [reflexivity|]. cbn.
    rewrite Hwg1, <- app_assoc. repeat split.
Qed.

Lemma reconnect_after_close_witness :
  (forall dial,
     connect dial sample_disconnected
     = Ok (Some ErrNotConnected, sample_disconnected))
  /\ exists s2,
       close_func1 sample_disconnected = Ok (true, s2)
       /\ state (writer s2) = StateInit
       /\ forall resp,
            exists s3,
              connect (Ok resp) s2 = Ok (None, s3)
              /\ state (writer s3) = StateConnected
              /\ conn (writer s3) = true
              /\ wg (writer s3) = 1
              /\ trace s3
                 = trace sample_disconnected ++ [ConnConnect; GoRouter].
Proof.
  apply (reconnect_after_close [RecvIOError EOF; RecvClose] [CleanupDefault]
           sample_writer_1 sample_disconnected).
  - reflexivity.
  - vm_compute. discriminate.
  - reflexivity.
  - reflexivity.
  - vm_compute. reflexivity.
  - vm_compute. discriminate.
Defined.

(** ** Properties of util and lookupd *)

Lemma StringUnion_found_elem_of (s : list string) (a : string) :
  Util.StringUnion_found s a = true <-> a ∈ s.
Proof.
  induction s as [|x s IH]; cbn.
  - split; [done | by intros ?%elem_of_nil].
  - case_bool_decide; subst.
    + split; [intros _; left | done].
    + rewrite IH, elem_of_cons. split; [auto | intros [?|?]; done].
Qed.

Lemma StringAdd_range_spec (rest s : list string) (a : string) :
  Util.StringAdd_range rest s a
  = if Util.StringUnion_found rest a then s else s ++ [a].
Proof.
  induction rest as [|x rest IH]; cbn; [done|].
  by case_bool_decide.
Qed.

(** X23. StringUnion(s, a) is StringAdd applied to s with the entries of a,
    one after the other from the first. *)
Theorem StringUnion_foldl_StringAdd (s a : list string) :
  Util.StringUnion s a = foldl Util.StringAdd s a.
Proof.
  revert s; induction a as [|x a IH]; intros s; cbn; [done|].
  rewrite IH. unfold Util.StringAdd. rewrite StringAdd_range_spec.
  by destruct (Util.StringUnion_found s x).
Qed.


Lemma StringUnion_elem_of (s a : list string) (x : string) :
  x ∈ Util.StringUnion s a <-> x ∈ s \/ x ∈ a.
Proof.
  revert s; induction a as [|e a IH]; intros s; cbn.
  - split; [by left | by intros [?|?%elem_of_nil]].
  - rewrite IH, elem_of_cons.
    destruct (Util.StringUnion_found s e) eqn:Hf; cbn.
    + apply StringUnion_found_elem_of in Hf.
      split; [tauto | intros [?|[->|?]]; tauto].
    + rewrite elem_of_app, list_elem_of_singleton. tauto.
Qed.

Lemma StringUnion_NoDup (s a : list string) :
  NoDup s -> NoDup (Util.StringUnion s a).
Proof.
  revert s; induction a as [|e a IH]; intros s Hs; cbn; [done|].
  destruct (Util.StringUnion_found s e) eqn:Hf; cbn; [by apply IH|].
  apply IH, NoDup_app. split; [done|]. split; [|apply NoDup_singleton].
  intros x Hx ->%list_elem_of_singleton.
  apply StringUnion_found_elem_of in Hx. congruence.
Qed.

(** Go's order on strings is a total order. *)
Lemma ascii_compare_trans_le (a b c : Ascii.ascii) :
  Ascii.compare a b <> Gt -> Ascii.compare b c <> Gt ->
  Ascii.compare a c <> Gt.
Proof.
  unfold Ascii.compare. rewrite !N.compare_le_iff.
  intros H1 H2.
  change (N.le (Ascii.N_of_ascii a) (Ascii.N_of_ascii c)).
  etrans; [exact H1 | exact H2].
Qed.

Lemma string_compare_trans_le (s1 s2 s3 : string) :
  String.compare s1 s2 <> Gt -> String.compare s2 s3 <> Gt ->
  String.compare s1 s3 <> Gt.
Proof.
  revert s2 s3; induction s1 as [|a s1 IH]; intros [|b s2] [|c s3]; cbn;
    try congruence.
  destruct (Ascii.compare a b) eqn:Hab; [| |congruence].
  - apply Ascii.compare_eq_iff in Hab as ->.
    destruct (Ascii.compare b c); [apply IH | congruence | congruence].
  - intros _. destruct (Ascii.compare b c) eqn:Hbc; [| |congruence].
    + apply Ascii.compare_eq_iff in Hbc as <-. rewrite Hab. congruence.
    + intros _.
      assert (Ascii.compare a c = Lt) as ->; [|congruence].
      unfold Ascii.compare in *. rewrite N.compare_lt_iff in *. lia.
Qed.

Global Instance string_le_trans : Transitive Lookupd.string_le.
Proof.
  intros s1 s2 s3. unfold Lookupd.string_le, String.leb. intros H1 H2.
  pose proof (string_compare_trans_le s1 s2 s3) as H.
  destruct (String.compare s1 s2); try done;
    destruct (String.compare s2 s3); try done;
    destruct (String.compare s1 s3); try done; exfalso; apply H; congruence.
Qed.

Global Instance string_le_total : Total Lookupd.string_le.
Proof. intros s1 s2. apply String.leb_total. Qed.

Global Instance string_le_antisymm : AntiSymm (=) Lookupd.string_le.
Proof. intros s1 s2. apply String.leb_antisym. Qed.

Section Lookups.

Variable ApiRequest : string -> list string + error.

Lemma GetLookupdTopics_shared (schedule : list string) (success : bool)
    (allTopics : list string) :
  let shared :=
    foldl (fun shared addr =>
             Lookupd.GetLookupdTopics_func1 ApiRequest
               ("http://" +:+ addr +:+ "/topics") shared)
          (success, allTopics) schedule in
  (fst shared = true <->
     success = true \/
     exists addr topics, addr ∈ schedule /\
       ApiRequest ("http://" +:+ addr +:+ "/topics") = inl topics)
  /\ (NoDup allTopics -> NoDup (snd shared))
  /\ forall x, x ∈ snd shared <->
       x ∈ allTopics \/
       exists addr topics, addr ∈ schedule /\
         ApiRequest ("http://" +:+ addr +:+ "/topics") = inl topics
         /\ x ∈ topics.
Proof.
  revert success allTopics.
  induction schedule as [|addr schedule IH]; intros success allTopics; cbn.
  - split; [|split; [done|]].
    + split; [by left | intros [?|(? & ? & ?%elem_of_nil & _)]; done].
    + intros x. split; [by left | intros [?|(? & ? & ?%elem_of_nil & _)]; done].
  - unfold Lookupd.GetLookupdTopics_func1 at 2 4 6.
    destruct (ApiRequest ("http://" +:+ addr +:+ "/topics"))
      as [topics|err] eqn:Hreq; cbn.
    + destruct (IH true (Util.StringUnion allTopics topics))
        as (Hs & Hnd & Hin).
      split; [|split].
      * rewrite Hs. split; [|by left]. intros _. right.
        exists addr, topics. split; [left | done].
      * intros ?. by apply Hnd, StringUnion_NoDup.
      * intros x. rewrite Hin, StringUnion_elem_of. split.
        -- intros [[?|?]|(addr' & topics' & ? & ? & ?)]; [by left | |].
           ++ right. exists addr, topics. split; [left | done].
           ++ right. exists addr', topics'. split; [by right | done].
        -- intros [?|(addr' & topics' & [->|?]%elem_of_cons & Hreq' & ?)].
           ++ by left; left.
           ++ left; right. congruence.
           ++ right. by exists addr', topics'.
    + destruct (IH success allTopics) as (Hs & Hnd & Hin).
      split; [|split; [done|]].
      * rewrite Hs. split.
        -- intros [?|(addr' & topics' & ? & ?)]; [by left|].
           right. exists addr', topics'. split; [by right | done].
        -- intros [?|(addr' & topics' & [->|?]%elem_of_cons & Hreq')];
             [by left | congruence |].
           right. by exists addr', topics'.
      * intros x. rewrite Hin. split.
        -- intros [?|(addr' & topics' & ? & ? & ?)]; [by left|].
           right. exists addr', topics'. split; [by right | done].
        -- intros [?|(addr' & topics' & [->|?]%elem_of_cons & Hreq' & ?)];
             [by left | congruence |].
           right. by exists addr', topics'.
Qed.

Lemma GetLookupdTopics_answers (schedule : list string) :
  match Lookupd.GetLookupdTopics ApiRequest schedule with
  | Ok allTopics =>
    (exists addr topics, addr ∈ schedule /\
       ApiRequest ("http://" +:+ addr +:+ "/topics") = inl topics)
    /\ Sorted Lookupd.string_le allTopics
    /\ NoDup allTopics
    /\ forall x, x ∈ allTopics <->
         exists addr topics, addr ∈ schedule /\
           ApiRequest ("http://" +:+ addr +:+ "/topics") = inl topics
           /\ x ∈ topics
  | Err err =>
    err = ErrNew "unable to query any lookupd"
    /\ forall addr, addr ∈ schedule ->
         exists err, ApiRequest ("http://" +:+ addr +:+ "/topics") = inr err
  | Panic _ => False
  end.
Proof.
  unfold Lookupd.GetLookupdTopics.
  pose proof (GetLookupdTopics_shared schedule false []) as H. cbn zeta in H.
  destruct (foldl _ _ schedule) as [success allTopics].
  destruct H as (Hs & Hnd & Hin). cbn in *.
  destruct success; cbn.
  - split; [|split; [|split]].
    + destruct Hs as [[?|?] _]; done.
    + apply Sorted_merge_sort, _.
    + unfold Lookupd.sort_Strings. rewrite merge_sort_Permutation.
      apply Hnd. constructor.
    + intros x. unfold Lookupd.sort_Strings.
      rewrite merge_sort_Permutation, Hin.
      split; [intros [?%elem_of_nil|?]; done | by right].
  - split; [done|]. intros addr Haddr.
    destruct (ApiRequest ("http://" +:+ addr +:+ "/topics"))
      as [topics|err] eqn:Hreq; [|by exists err].
    assert (false = true); [|done]. apply Hs. right. by exists addr, topics.
Qed.

(** X25. Where every lookupd answers a query the same way each time:
    GetLookupdTopics fails, with "unable to query any lookupd", exactly
    when the query of every address fails; when some lookupd answers it
    returns, sorted and without duplicates, the topics that the lookupd
    which answered have listed. *)
Theorem GetLookupdTopics_union (schedule : list string) :
  let answer addr := ApiRequest ("http://" +:+ addr +:+ "/topics") in
  (Lookupd.GetLookupdTopics ApiRequest schedule
   = Err (ErrNew "unable to query any lookupd")
   <-> forall addr, addr ∈ schedule -> exists err, answer addr = inr err)
  /\ ((exists addr topics, addr ∈ schedule /\ answer addr = inl topics)
      <-> exists allTopics,
            Lookupd.GetLookupdTopics ApiRequest schedule = Ok allTopics
            /\ Sorted Lookupd.string_le allTopics
            /\ NoDup allTopics
            /\ forall x, x ∈ allTopics <->
                 exists addr topics,
                   addr ∈ schedule /\ answer addr = inl topics
                   /\ x ∈ topics).
Proof.
  cbv zeta. pose proof (GetLookupdTopics_answers schedule) as H.
  destruct (Lookupd.GetLookupdTopics ApiRequest schedule)
    as [allTopics|e|]; [| |done].
  - destruct H as ((addr & topics & Haddr & Hreq) & Hs & Hnd & Hin).
    split.
    + split; [discriminate|]. intros Hall.
      destruct (Hall addr Haddr) as [err Herr]. congruence.
    + split.
      * intros _. exists allTopics. split; [reflexivity|].
        split; [exact Hs|]. split; [exact Hnd | exact Hin].
      * intros _. by exists addr, topics.
  - destruct H as [-> Hall]. split; [done|]. split.
    + intros (addr & topics & Haddr & Hreq).
      destruct (Hall addr Haddr) as [err Herr]. congruence.
    + intros (allTopics & Heq & _). discriminate.
Qed.

(** X26. The result of GetLookupdTopics does not depend on the order in
    which its goroutines take the lock, nor on the order of the
    addresses. *)
Theorem GetLookupdTopics_schedule (schedule1 schedule2 : list string) :
  schedule1 ≡ₚ schedule2 ->
  Lookupd.GetLookupdTopics ApiRequest schedule1
  = Lookupd.GetLookupdTopics ApiRequest schedule2.
Proof.
  intros Hp.
  pose proof (GetLookupdTopics_answers schedule1) as H1.
  pose proof (GetLookupdTopics_answers schedule2) as H2.
  destruct (Lookupd.GetLookupdTopics ApiRequest schedule1) as [l1|e1|],
           (Lookupd.GetLookupdTopics ApiRequest schedule2) as [l2|e2|];
    try done.
  - destruct H1 as (_ & Hs1 & Hnd1 & Hin1), H2 as (_ & Hs2 & Hnd2 & Hin2).
    f_equal. apply (Sorted_unique Lookupd.string_le); [done | done |].
    apply NoDup_Permutation; [done | done |].
    intros x. rewrite Hin1, Hin2.
    split; intros (addr & topics & ? & ?); exists addr, topics;
      (split; [|done]); [by rewrite <- Hp | by rewrite Hp].
  - destruct H1 as ((addr & topics & Haddr & Hreq) & _), H2 as (_ & Herr).
    rewrite Hp in Haddr. destruct (Herr addr Haddr). congruence.
  - destruct H2 as ((addr & topics & Haddr & Hreq) & _), H1 as (_ & Herr).
    rewrite <- Hp in Haddr. destruct (Herr addr Haddr). congruence.
  - destruct H1 as [-> _], H2 as [-> _]. done.
Qed.

End Lookups.

Lemma GetLookupdTopics_schedule_witness :
  Lookupd.GetLookupdTopics sample_ApiRequest ["a:4161"; "b:4161"; "c:4161"]
  = Lookupd.GetLookupdTopics sample_ApiRequest ["c:4161"; "a:4161"; "b:4161"].
Proof.
  apply (GetLookupdTopics_schedule sample_ApiRequest).
  symmetry. apply (Permutation_cons_append ["a:4161"; "b:4161"] "c:4161").
Defined.

(** ** Properties of the event router and of nsq_trigger *)

Lemma strings_Split_parts_Join (s : string) (sep : Ascii.ascii) :
  String.concat (String sep "")
    (fst (EventRouter.strings_Split_parts s sep)
     :: snd (EventRouter.strings_Split_parts s sep)) = s.
Proof.
  induction s as [|c s IH]; [reflexivity|].
  cbn [EventRouter.strings_Split_parts].
  destruct (EventRouter.strings_Split_parts s sep) as [part parts].
  cbn [fst snd] in IH.
  destruct (Ascii.eqb_spec c sep) as [->|Hne]; cbn [fst snd].
  - rewrite <- IH. reflexivity.
  - rewrite <- IH. destruct parts as [|p parts]; reflexivity.
Qed.

Lemma strings_Split_parts_no_sep (s : string) (sep : Ascii.ascii) :
  sep ∉ String.list_ascii_of_string
          (fst (EventRouter.strings_Split_parts s sep)).
Proof.
  induction s as [|c s IH]; cbn [EventRouter.strings_Split_parts].
  - cbn. apply not_elem_of_nil.
  - destruct (EventRouter.strings_Split_parts s sep) as [part parts].
    cbn [fst] in IH.
    destruct (Ascii.eqb_spec c sep) as [->|Hne]; cbn.
    + apply not_elem_of_nil.
    + intros [?|?]%elem_of_cons; [congruence | done].
Qed.

Lemma strings_Split_parts_first (name rest : string) (sep : Ascii.ascii) :
  sep ∉ String.list_ascii_of_string name ->
  EventRouter.strings_Split_parts name sep = (name, [])
  /\ EventRouter.strings_Split_parts (name +:+ String sep rest) sep
     = (name, EventRouter.strings_Split rest sep).
Proof.
  induction name as [|c name IH]; intros Hno.
  - split; [reflexivity|].
    change ("" +:+ String sep rest) with (String sep rest).
    cbn [EventRouter.strings_Split_parts].
    unfold EventRouter.strings_Split.
    destruct (EventRouter.strings_Split_parts rest sep).
    by rewrite Ascii.eqb_refl.
  - cbn in Hno. apply not_elem_of_cons in Hno as [Hc Hno].
    destruct (IH Hno) as [IH1 IH2].
    change (String c name +:+ String sep rest)
      with (String c (name +:+ String sep rest)).
    cbn [EventRouter.strings_Split_parts].
    rewrite IH1, IH2.
    destruct (Ascii.eqb_spec c sep) as [->|_]; [done|]. done.
Qed.

Lemma HandleMessage_eq (env : EventRouter.Env)
    (th : EventRouter.EventRouter) (m : Message.Message) :
  let dir := EventRouter.handlersDir th in
  let shown := int64 (EventRouter.messagesShown th + 1) in
  EventRouter.HandleMessage env th m
  = Ok (if EventRouter.succeeds env dir m
           && (0 <? EventRouter.totalMessages th)
           && (EventRouter.totalMessages th <=? shown)
        then EventRouter.os_Exit 0
        else EventRouter.Return None,
        {| EventRouter.totalMessages := EventRouter.totalMessages th;
           EventRouter.messagesShown := shown;
           EventRouter.handlersDir := dir |},
        EventRouter.dispatch env dir m).
Proof.
  cbv zeta.
  unfold EventRouter.HandleMessage, EventRouter.dispatch, EventRouter.succeeds,
    EventRouter.eventName, EventRouter.handlerArguments,
    EventRouter.strings_Split.
  destruct (EventRouter.strings_Split_parts _ _) as [part parts].
  cbn [fst snd EventRouter.handlersDir EventRouter.totalMessages
       EventRouter.messagesShown].
  destruct (EventRouter.IsNotExist env _); cbn [negb andb]; [reflexivity|].
  destruct (EventRouter.cmd_Output env _ _ _) as [err|]; [reflexivity|].
  rewrite bool_decide_eq_true_2 by reflexivity. cbn [andb].
  destruct (_ && _); reflexivity.
Qed.

(** X27. HandleMessage never fails on a body: the event name is the body
    up to its first space (all of it when it has none) and the handler
    argument is what follows that space.  It counts the message, checks
    the handler of that name in the handlers directory and, when it
    exists, runs it there with the one argument; it ends the process
    with status 0 when the handler ran without error, a limit is set and
    the count has reached it, and returns nil in every other case, also
    when the handler is missing or fails. *)
Theorem HandleMessage_dispatch (env : EventRouter.Env)
    (th : EventRouter.EventRouter) (m : Message.Message) :
  let body := EventRouter.string_of_bytes (Message.Body m) in
  let name := EventRouter.eventName m in
  let args := EventRouter.handlerArguments m in
  let dir := EventRouter.handlersDir th in
  (" "%char ∉ String.list_ascii_of_string name)
  /\ (body = name \/ body = name +:+ " " +:+ args)
  /\ exists ended th',
       EventRouter.HandleMessage env th m
       = Ok (ended, th', EventRouter.dispatch env dir m)
       /\ EventRouter.handlersDir th' = dir
       /\ EventRouter.totalMessages th' = EventRouter.totalMessages th
       /\ EventRouter.messagesShown th'
          = int64 (EventRouter.messagesShown th + 1)
       /\ ended
          = if EventRouter.succeeds env dir m
               && (0 <? EventRouter.totalMessages th)
               && (EventRouter.totalMessages th
                   <=? EventRouter.messagesShown th')
            then EventRouter.os_Exit 0
            else EventRouter.Return None.
Proof.
  cbv zeta. split; [apply strings_Split_parts_no_sep|].
  split.
  { unfold EventRouter.eventName, EventRouter.handlerArguments.
    pose proof (strings_Split_parts_Join
                  (EventRouter.string_of_bytes (Message.Body m)) " ") as HJ.
    unfold EventRouter.strings_Join.
    destruct (EventRouter.strings_Split_parts _ _) as [part parts].
    cbn [fst snd] in *. destruct parts as [|p parts].
    - left. symmetry. exact HJ.
    - right. rewrite <- HJ at 1. reflexivity. }
  eexists _, _. split; [apply HandleMessage_eq|].
  repeat (split; [reflexivity|]). reflexivity.
Qed.

(** X28. Over a sequence of messages the router handles them in order and
    counts each; the process ends at the first message whose handler runs
    without error once the count has reached a positive limit, and the
    messages after it are not handled.  Without such a message every
    message is handled and the process goes on. *)
Theorem handle_exit (env : EventRouter.Env) (th : EventRouter.EventRouter)
    (msgs : list Message.Message) :
  let dir := EventRouter.handlersDir th in
  let total := EventRouter.totalMessages th in
  let shown := EventRouter.messagesShown th in
  - 2 ^ 63 <= shown < 2 ^ 63 ->
  exists exited th' handled rest,
    EventRouter.handle env th msgs
    = Ok (exited, th', flat_map (EventRouter.dispatch env dir) handled, rest)
    /\ msgs = handled ++ rest
    /\ EventRouter.handlersDir th' = dir
    /\ EventRouter.totalMessages th' = total
    /\ EventRouter.messagesShown th'
       = int64 (shown + Z.of_nat (length handled))
    /\ (exited = false -> rest = [])
    /\ (exited = true -> handled <> [])
    /\ forall (i : nat) (m : Message.Message),
         handled !! i = Some m ->
         (EventRouter.succeeds env dir m = true /\ 0 < total
          /\ total <= int64 (shown + Z.of_nat (S i)))
         <-> (exited = true /\ S i = length handled).
Proof.
  cbv zeta. revert th. induction msgs as [|m msgs IH]; intros th Hshown.
  { exists false, th, [], []. split; [reflexivity|].
    split; [reflexivity|]. split; [reflexivity|]. split; [reflexivity|].
    split; [cbn; rewrite Z.add_0_r; symmetry; by apply int64_in_range|].
    split; [done|]. split; [done|]. intros i m' Hi. by destruct i. }
  cbn [EventRouter.handle]. rewrite HandleMessage_eq. cbv zeta.
  destruct (_ && _) eqn:Hexit.
  { eexists true, _, [m], msgs. cbn [flat_map]. rewrite app_nil_r.
    split; [reflexivity|]. split; [reflexivity|].
    cbn [EventRouter.handlersDir EventRouter.totalMessages
         EventRouter.messagesShown length].
    split; [reflexivity|]. split; [reflexivity|]. split; [reflexivity|].
    split; [done|]. split; [done|]. intros [|i] m' Hi; [|done].
    cbn in Hi. injection Hi as <-.
    apply andb_prop in Hexit as [[Hs Ht]%andb_prop Hn].
    apply Z.ltb_lt in Ht. apply Z.leb_le in Hn. tauto. }
  set (th1 := {| EventRouter.totalMessages := _ |}).
  destruct (IH th1) as
    (exited & th' & handled & rest & Heq & -> & Hdir & Htot & Hn
     & Hfalse & Htrue & Hfirst).
  { apply int64_range. }
  change (EventRouter.handlersDir th1) with (EventRouter.handlersDir th)
    in *.
  change (EventRouter.totalMessages th1) with (EventRouter.totalMessages th)
    in *.
  change (EventRouter.messagesShown th1)
    with (int64 (EventRouter.messagesShown th + 1)) in *.
  rewrite Heq. exists exited, th', (m :: handled), rest.
  split; [reflexivity|]. split; [reflexivity|].
  split; [exact Hdir|]. split; [exact Htot|].
  split.
  { rewrite Hn, int64_add. f_equal. cbn [length]. lia. }
  split; [exact Hfalse|]. split; [done|].
  intros [|i] m' Hi.
  - cbn in Hi. injection Hi as <-. split.
    + intros (Hs & Ht & Hle). exfalso.
      apply andb_false_iff in Hexit as [[Hexit|Hexit]%andb_false_iff|Hexit].
      * congruence.
      * apply Z.ltb_ge in Hexit. lia.
      * apply Z.leb_gt in Hexit. change (Z.of_nat 1) with 1 in Hle. lia.
    + intros [He Hl]. exfalso. apply (Htrue He).
      cbn [length] in Hl. destruct handled; [reflexivity|discriminate].
  - cbn in Hi. specialize (Hfirst i m' Hi). rewrite int64_add in Hfirst.
    cbn [length].
    replace (EventRouter.messagesShown th + 1 + Z.of_nat (S i))
      with (EventRouter.messagesShown th + Z.of_nat (S (S i))) in Hfirst
      by lia.
    rewrite Hfirst. split; intros [? ?]; (split; [assumption|lia]).
Qed.

Lemma handle_exit_witness :
  let msgs := [sample_message; sample_message; sample_message] in
  exists exited th' handled rest,
    EventRouter.handle sample_handlers sample_router msgs
    = Ok (exited, th',
          flat_map (EventRouter.dispatch sample_handlers "/etc/handlers")
            handled, rest)
    /\ msgs = handled ++ rest
    /\ EventRouter.handlersDir th' = "/etc/handlers"
    /\ EventRouter.totalMessages th' = 2
    /\ EventRouter.messagesShown th'
       = int64 (0 + Z.of_nat (length handled))
    /\ (exited = false -> rest = [])
    /\ (exited = true -> handled <> [])
    /\ forall (i : nat) (m : Message.Message),
         handled !! i = Some m ->
         (EventRouter.succeeds sample_handlers "/etc/handlers" m = true
          /\ 0 < 2 /\ 2 <= int64 (0 + Z.of_nat (S i)))
         <-> (exited = true /\ S i = length handled).
Proof.
  apply (handle_exit sample_handlers sample_router
           [sample_message; sample_message; sample_message]).
  simpl. lia.
Defined.

Lemma string_of_bytes_of_string (s : string) :
  EventRouter.string_of_bytes (bytes_of_string s) = s.
Proof. apply String.string_of_list_byte_of_string. Qed.

Lemma strings_Split_Join (s : string) (sep : Ascii.ascii) :
  String.concat (String sep "") (EventRouter.strings_Split s sep) = s.
Proof.
  pose proof (strings_Split_parts_Join s sep) as HJ.
  unfold EventRouter.strings_Split.
  by destruct (EventRouter.strings_Split_parts s sep).
Qed.

(** X29. What nsq_trigger publishes is what the router dispatches on:
    called with an event name without a space and further arguments, it
    posts one body, and HandleMessage on a message with that body takes
    the name as the event name and the arguments, joined by spaces, as
    the argument of the handler. *)
Theorem Trigger_main_HandleMessage (name : string) (rest : list string)
    (topic nsqdHTTPAddrs response : string) :
  (" "%char ∉ String.list_ascii_of_string name) ->
  exists (url : string) (body : bytes) (printed : string),
    Trigger.main (name :: rest) topic nsqdHTTPAddrs (Some response)
    = Ok (Trigger.Return,
          [Trigger.Post url "text/plain" body; Trigger.Println printed])
    /\ forall m : Message.Message,
         Message.Body m = body ->
         EventRouter.eventName m = name
         /\ EventRouter.handlerArguments m
            = EventRouter.strings_Join rest " ".
Proof.
  intros Hname. eexists _, _, _. split; [reflexivity|].
  intros m Hm. unfold EventRouter.eventName, EventRouter.handlerArguments.
  rewrite Hm, string_of_bytes_of_string.
  destruct (strings_Split_parts_first name (EventRouter.strings_Join rest " ")
              " " Hname) as [H1 H2].
  unfold EventRouter.strings_Join at 1 3. destruct rest as [|a rest].
  - cbn [String.concat]. rewrite H1. split; reflexivity.
  - change (String.concat " " (name :: a :: rest))
      with (name +:+ String " " (String.concat " " (a :: rest))).
    unfold EventRouter.strings_Join in H2. rewrite H2. cbn [fst snd].
    split; [reflexivity|]. unfold EventRouter.strings_Join.
    apply strings_Split_Join.
Qed.

Lemma Trigger_main_HandleMessage_witness :
  exists (url : string) (body : bytes) (printed : string),
    Trigger.main ["append"; "hello"; "world"] "" "" (Some "OK")
    = Ok (Trigger.Return,
          [Trigger.Post url "text/plain" body; Trigger.Println printed])
    /\ forall m : Message.Message,
         Message.Body m = body ->
         EventRouter.eventName m = "append"
         /\ EventRouter.handlerArguments m
            = EventRouter.strings_Join ["hello"; "world"] " ".
Proof.
  apply (Trigger_main_HandleMessage "append" ["hello"; "world"] "" "" "OK").
  apply (bool_decide_unpack _). vm_compute. exact I.
Defined.
